(** * gops: process, port, window and service introspection

    A shallow embedding of the aggregator packages of the repository
    ([internal/port], [internal/process], [internal/resource],
    [internal/service], [internal/window], [internal/utils], [pkg/types])
    and the properties of its specification that were checked against
    them.

    The handlers of the server ([internal/mcp]) and the cell
    formatting of [internal/cli] are embedded as well; the later sections
    prove what the code shows besides its specification.

    Conventions of the embedding.
    - A Go [string] is a sequence of bytes: [string] of the Standard
      Library (a list of 8-bit [ascii]).
    - [int32] and [int64] values are [Z], [uint32] and [uint64] values are
      [N]; the code performs no arithmetic on them that could wrap, apart
      from the conversions written out below.
    - [float64] values are [spec_float] (sign, mantissa, exponent) and are
      compared with [SFltb] and [SFleb].
    - A call into a library outside the repository (gopsutil, os/exec)
      that returns [(T, error)] is a [result T] where the code reads the
      value only after it has found the error nil.  A query whose value
      the code also reads without looking at the error ([v, _ := f()])
      returns the pair of Go, [T * option error]: the value is whatever
      the library returned, next to an error or not.  [checked] is such a
      pair as code that tests the error first reads it.
    - A function of the repository that returns [(T, error)] returns a
      pair [T * option error]; a nil slice is [[]], a nil pointer is
      [None].
    - The operating system is a snapshot [World]: what each query of the
      process table, of the socket table and of the external commands
      answers during one call.
    - Where Go leaves an outcome open (the order in which [range] yields
      the entries of a map, the arrangement of equal elements by
      [sort.Slice]), the operation is a relation between the snapshot and
      its possible results, with a lemma that a result exists. *)

From Stdlib Require Import ZArith Lia Ascii String SpecFloat.
From stdpp Require Import base option list strings gmap pretty sorting.

Local Open Scope string_scope.
Local Open Scope list_scope.

(* ================================================================== *)
(** * Go runtime: errors and results *)

Definition error := string.

Inductive result (A : Type) : Type :=
| Ok (a : A)
| Err (e : error).
Arguments Ok {A} a.
Arguments Err {A} e.

Definition val_or {A} (zero : A) (r : result A) : A :=
  match r with Ok a => a | Err _ => zero end.

(** [v, err := f()] followed by a test of [err]: the value counts when
    the error is nil. *)
Definition checked {A} (r : A * option error) : result A :=
  match r with
  | (a, None) => Ok a
  | (_, Some e) => Err e
  end.

Definition float64 := spec_float.
Definition float32 := spec_float.

(** [int32(z)]: the conversion to a signed 32-bit integer wraps around. *)
Definition int32 (z : Z) : Z := ((z + 2 ^ 31) mod 2 ^ 32 - 2 ^ 31)%Z.

(** The line feed and the double quote, as one-byte strings. *)
Definition LF : string := String "010"%char EmptyString.
Definition DQUOTE : string := String "034"%char EmptyString.

(** The float64 constants of the code, in binary64. *)
Definition f64_zero : float64 := S754_zero false.
Definition f32_zero : float32 := S754_zero false.
(** [0.01] is 0x1.47ae147ae147bp-7 *)
Definition f64_0_01 : float64 := S754_finite false 5764607523034235 (-59).
(** [100] is 0x1.9p+6 *)
Definition f64_100 : float64 := S754_finite false 7036874417766400 (-46).

(* ================================================================== *)
(** * Go runtime: package unicode/utf8

    A rune is a code point, a number.  The shifts and masks of the
    library are written as multiplications, quotients and remainders by
    powers of 2. *)

Module utf8.

Definition RuneError : N := 0xFFFD.
Definition MaxRune : N := 0x10FFFF.

(** [s[i]], and 0 past the end of [s]: a value outside every range that
    is accepted for a byte after the first, so that a string that ends
    too early reads as an invalid encoding, as in the library. *)
Definition byte_at (i : nat) (s : string) : N :=
  match String.get i s with Some c => N_of_ascii c | None => 0%N end.

(** The tables [first] and [acceptRanges]: for the first byte of an
    encoding of two bytes or more, its width and the range of its second
    byte. *)
Definition first (s0 : N) : option (nat * N * N) :=
  if (s0 <? 0xC2)%N then None
  else if (s0 <=? 0xDF)%N then Some (2, 0x80%N, 0xBF%N)
  else if (s0 =? 0xE0)%N then Some (3, 0xA0%N, 0xBF%N)
  else if (s0 <=? 0xEC)%N then Some (3, 0x80%N, 0xBF%N)
  else if (s0 =? 0xED)%N then Some (3, 0x80%N, 0x9F%N)
  else if (s0 <=? 0xEF)%N then Some (3, 0x80%N, 0xBF%N)
  else if (s0 =? 0xF0)%N then Some (4, 0x90%N, 0xBF%N)
  else if (s0 <=? 0xF3)%N then Some (4, 0x80%N, 0xBF%N)
  else if (s0 =? 0xF4)%N then Some (4, 0x80%N, 0x8F%N)
  else None.

(** The first rune of [s] and its width in bytes; [RuneError] and the
    width 1 where [s] does not start with a valid encoding. *)
Definition DecodeRuneInString (s : string) : N * nat :=
  match s with
  | "" => (RuneError, 0)
  | String c0 _ =>
      let s0 := N_of_ascii c0 in
      match first s0 with
      | None => (if (s0 <? 0x80)%N then s0 else RuneError, 1)
      | Some (sz, lo, hi) =>
          let s1 := byte_at 1 s in
          if (s1 <? lo)%N || (hi <? s1)%N then (RuneError, 1)
          else if (sz <=? 2)%nat then
            ((s0 mod 0x20 * 0x40 + s1 mod 0x40)%N, 2)
          else
          let s2 := byte_at 2 s in
          if (s2 <? 0x80)%N || (0xBF <? s2)%N then (RuneError, 1)
          else if (sz <=? 3)%nat then
            ((s0 mod 0x10 * 0x1000 + s1 mod 0x40 * 0x40 + s2 mod 0x40)%N, 3)
          else
          let s3 := byte_at 3 s in
          if (s3 <? 0x80)%N || (0xBF <? s3)%N then (RuneError, 1)
          else
            ((s0 mod 0x08 * 0x40000 + s1 mod 0x40 * 0x1000
              + s2 mod 0x40 * 0x40 + s3 mod 0x40)%N, 4)
      end
  end.

Definition bytes (l : list N) : string :=
  foldr (λ b s, String (ascii_of_N b) s) "" l.

(** The encoding of a rune ([AppendRune]); a surrogate and a number
    beyond [MaxRune] are encoded as [RuneError]. *)
Definition EncodeRune (r : N) : string :=
  if (r <? 0x80)%N then bytes [r]
  else if (r <=? 0x7FF)%N then
    bytes [0xC0 + r / 0x40; 0x80 + r mod 0x40]%N
  else
    let r :=
      if (MaxRune <? r)%N || (0xD800 <=? r)%N && (r <=? 0xDFFF)%N
      then RuneError else r in
    if (r <=? 0xFFFF)%N then
      bytes [0xE0 + r / 0x1000; 0x80 + r / 0x40 mod 0x40; 0x80 + r mod 0x40]%N
    else
      bytes [0xF0 + r / 0x40000; 0x80 + r / 0x1000 mod 0x40;
             0x80 + r / 0x40 mod 0x40; 0x80 + r mod 0x40]%N.

End utf8.

(** * Go runtime: package unicode *)

Module unicode.

(** The letters beyond ASCII that have a lower case, with it: the simple
    lower-case mappings of the Unicode Character Database (version 14.0),
    from which the library generates its table [CaseRanges].  An entry
    [(lo, hi, stride, to)] sends [lo + k * stride], up to [hi], to
    [to + k * stride]. *)
Definition lower_ranges : list (N * N * N * N) :=
  [(0x00C0, 0x00D6, 1, 0x00E0); (0x00D8, 0x00DE, 1, 0x00F8);
   (0x0100, 0x012E, 2, 0x0101); (0x0130, 0x0130, 1, 0x0069);
   (0x0132, 0x0136, 2, 0x0133); (0x0139, 0x0147, 2, 0x013A);
   (0x014A, 0x0176, 2, 0x014B); (0x0178, 0x0178, 1, 0x00FF);
   (0x0179, 0x017D, 2, 0x017A); (0x0181, 0x0181, 1, 0x0253);
   (0x0182, 0x0184, 2, 0x0183); (0x0186, 0x0186, 1, 0x0254);
   (0x0187, 0x0187, 1, 0x0188); (0x0189, 0x018A, 1, 0x0256);
   (0x018B, 0x018B, 1, 0x018C); (0x018E, 0x018E, 1, 0x01DD);
   (0x018F, 0x018F, 1, 0x0259); (0x0190, 0x0190, 1, 0x025B);
   (0x0191, 0x0191, 1, 0x0192); (0x0193, 0x0193, 1, 0x0260);
   (0x0194, 0x0194, 1, 0x0263); (0x0196, 0x0196, 1, 0x0269);
   (0x0197, 0x0197, 1, 0x0268); (0x0198, 0x0198, 1, 0x0199);
   (0x019C, 0x019C, 1, 0x026F); (0x019D, 0x019D, 1, 0x0272);
   (0x019F, 0x019F, 1, 0x0275); (0x01A0, 0x01A4, 2, 0x01A1);
   (0x01A6, 0x01A6, 1, 0x0280); (0x01A7, 0x01A7, 1, 0x01A8);
   (0x01A9, 0x01A9, 1, 0x0283); (0x01AC, 0x01AC, 1, 0x01AD);
   (0x01AE, 0x01AE, 1, 0x0288); (0x01AF, 0x01AF, 1, 0x01B0);
   (0x01B1, 0x01B2, 1, 0x028A); (0x01B3, 0x01B5, 2, 0x01B4);
   (0x01B7, 0x01B7, 1, 0x0292); (0x01B8, 0x01B8, 1, 0x01B9);
   (0x01BC, 0x01BC, 1, 0x01BD); (0x01C4, 0x01C4, 1, 0x01C6);
   (0x01C5, 0x01C5, 1, 0x01C6); (0x01C7, 0x01C7, 1, 0x01C9);
   (0x01C8, 0x01C8, 1, 0x01C9); (0x01CA, 0x01CA, 1, 0x01CC);
   (0x01CB, 0x01DB, 2, 0x01CC); (0x01DE, 0x01EE, 2, 0x01DF);
   (0x01F1, 0x01F1, 1, 0x01F3); (0x01F2, 0x01F4, 2, 0x01F3);
   (0x01F6, 0x01F6, 1, 0x0195); (0x01F7, 0x01F7, 1, 0x01BF);
   (0x01F8, 0x021E, 2, 0x01F9); (0x0220, 0x0220, 1, 0x019E);
   (0x0222, 0x0232, 2, 0x0223); (0x023A, 0x023A, 1, 0x2C65);
   (0x023B, 0x023B, 1, 0x023C); (0x023D, 0x023D, 1, 0x019A);
   (0x023E, 0x023E, 1, 0x2C66); (0x0241, 0x0241, 1, 0x0242);
   (0x0243, 0x0243, 1, 0x0180); (0x0244, 0x0244, 1, 0x0289);
   (0x0245, 0x0245, 1, 0x028C); (0x0246, 0x024E, 2, 0x0247);
   (0x0370, 0x0372, 2, 0x0371); (0x0376, 0x0376, 1, 0x0377);
   (0x037F, 0x037F, 1, 0x03F3); (0x0386, 0x0386, 1, 0x03AC);
   (0x0388, 0x038A, 1, 0x03AD); (0x038C, 0x038C, 1, 0x03CC);
   (0x038E, 0x038F, 1, 0x03CD); (0x0391, 0x03A1, 1, 0x03B1);
   (0x03A3, 0x03AB, 1, 0x03C3); (0x03CF, 0x03CF, 1, 0x03D7);
   (0x03D8, 0x03EE, 2, 0x03D9); (0x03F4, 0x03F4, 1, 0x03B8);
   (0x03F7, 0x03F7, 1, 0x03F8); (0x03F9, 0x03F9, 1, 0x03F2);
   (0x03FA, 0x03FA, 1, 0x03FB); (0x03FD, 0x03FF, 1, 0x037B);
   (0x0400, 0x040F, 1, 0x0450); (0x0410, 0x042F, 1, 0x0430);
   (0x0460, 0x0480, 2, 0x0461); (0x048A, 0x04BE, 2, 0x048B);
   (0x04C0, 0x04C0, 1, 0x04CF); (0x04C1, 0x04CD, 2, 0x04C2);
   (0x04D0, 0x052E, 2, 0x04D1); (0x0531, 0x0556, 1, 0x0561);
   (0x10A0, 0x10C5, 1, 0x2D00); (0x10C7, 0x10C7, 1, 0x2D27);
   (0x10CD, 0x10CD, 1, 0x2D2D); (0x13A0, 0x13EF, 1, 0xAB70);
   (0x13F0, 0x13F5, 1, 0x13F8); (0x1C90, 0x1CBA, 1, 0x10D0);
   (0x1CBD, 0x1CBF, 1, 0x10FD); (0x1E00, 0x1E94, 2, 0x1E01);
   (0x1E9E, 0x1E9E, 1, 0x00DF); (0x1EA0, 0x1EFE, 2, 0x1EA1);
   (0x1F08, 0x1F0F, 1, 0x1F00); (0x1F18, 0x1F1D, 1, 0x1F10);
   (0x1F28, 0x1F2F, 1, 0x1F20); (0x1F38, 0x1F3F, 1, 0x1F30);
   (0x1F48, 0x1F4D, 1, 0x1F40); (0x1F59, 0x1F5F, 2, 0x1F51);
   (0x1F68, 0x1F6F, 1, 0x1F60); (0x1F88, 0x1F8F, 1, 0x1F80);
   (0x1F98, 0x1F9F, 1, 0x1F90); (0x1FA8, 0x1FAF, 1, 0x1FA0);
   (0x1FB8, 0x1FB9, 1, 0x1FB0); (0x1FBA, 0x1FBB, 1, 0x1F70);
   (0x1FBC, 0x1FBC, 1, 0x1FB3); (0x1FC8, 0x1FCB, 1, 0x1F72);
   (0x1FCC, 0x1FCC, 1, 0x1FC3); (0x1FD8, 0x1FD9, 1, 0x1FD0);
   (0x1FDA, 0x1FDB, 1, 0x1F76); (0x1FE8, 0x1FE9, 1, 0x1FE0);
   (0x1FEA, 0x1FEB, 1, 0x1F7A); (0x1FEC, 0x1FEC, 1, 0x1FE5);
   (0x1FF8, 0x1FF9, 1, 0x1F78); (0x1FFA, 0x1FFB, 1, 0x1F7C);
   (0x1FFC, 0x1FFC, 1, 0x1FF3); (0x2126, 0x2126, 1, 0x03C9);
   (0x212A, 0x212A, 1, 0x006B); (0x212B, 0x212B, 1, 0x00E5);
   (0x2132, 0x2132, 1, 0x214E); (0x2160, 0x216F, 1, 0x2170);
   (0x2183, 0x2183, 1, 0x2184); (0x24B6, 0x24CF, 1, 0x24D0);
   (0x2C00, 0x2C2F, 1, 0x2C30); (0x2C60, 0x2C60, 1, 0x2C61);
   (0x2C62, 0x2C62, 1, 0x026B); (0x2C63, 0x2C63, 1, 0x1D7D);
   (0x2C64, 0x2C64, 1, 0x027D); (0x2C67, 0x2C6B, 2, 0x2C68);
   (0x2C6D, 0x2C6D, 1, 0x0251); (0x2C6E, 0x2C6E, 1, 0x0271);
   (0x2C6F, 0x2C6F, 1, 0x0250); (0x2C70, 0x2C70, 1, 0x0252);
   (0x2C72, 0x2C72, 1, 0x2C73); (0x2C75, 0x2C75, 1, 0x2C76);
   (0x2C7E, 0x2C7F, 1, 0x023F); (0x2C80, 0x2CE2, 2, 0x2C81);
   (0x2CEB, 0x2CED, 2, 0x2CEC); (0x2CF2, 0x2CF2, 1, 0x2CF3);
   (0xA640, 0xA66C, 2, 0xA641); (0xA680, 0xA69A, 2, 0xA681);
   (0xA722, 0xA72E, 2, 0xA723); (0xA732, 0xA76E, 2, 0xA733);
   (0xA779, 0xA77B, 2, 0xA77A); (0xA77D, 0xA77D, 1, 0x1D79);
   (0xA77E, 0xA786, 2, 0xA77F); (0xA78B, 0xA78B, 1, 0xA78C);
   (0xA78D, 0xA78D, 1, 0x0265); (0xA790, 0xA792, 2, 0xA791);
   (0xA796, 0xA7A8, 2, 0xA797); (0xA7AA, 0xA7AA, 1, 0x0266);
   (0xA7AB, 0xA7AB, 1, 0x025C); (0xA7AC, 0xA7AC, 1, 0x0261);
   (0xA7AD, 0xA7AD, 1, 0x026C); (0xA7AE, 0xA7AE, 1, 0x026A);
   (0xA7B0, 0xA7B0, 1, 0x029E); (0xA7B1, 0xA7B1, 1, 0x0287);
   (0xA7B2, 0xA7B2, 1, 0x029D); (0xA7B3, 0xA7B3, 1, 0xAB53);
   (0xA7B4, 0xA7C2, 2, 0xA7B5); (0xA7C4, 0xA7C4, 1, 0xA794);
   (0xA7C5, 0xA7C5, 1, 0x0282); (0xA7C6, 0xA7C6, 1, 0x1D8E);
   (0xA7C7, 0xA7C9, 2, 0xA7C8); (0xA7D0, 0xA7D0, 1, 0xA7D1);
   (0xA7D6, 0xA7D8, 2, 0xA7D7); (0xA7F5, 0xA7F5, 1, 0xA7F6);
   (0xFF21, 0xFF3A, 1, 0xFF41); (0x10400, 0x10427, 1, 0x10428);
   (0x104B0, 0x104D3, 1, 0x104D8); (0x10570, 0x1057A, 1, 0x10597);
   (0x1057C, 0x1058A, 1, 0x105A3); (0x1058C, 0x10592, 1, 0x105B3);
   (0x10594, 0x10595, 1, 0x105BB); (0x10C80, 0x10CB2, 1, 0x10CC0);
   (0x118A0, 0x118BF, 1, 0x118C0); (0x16E40, 0x16E5F, 1, 0x16E60);
   (0x1E900, 0x1E921, 1, 0x1E922)]%N.

Definition in_range (r : N) (e : N * N * N * N) : bool :=
  let '(lo, hi, stride, _) := e in
  (lo <=? r)%N && (r <=? hi)%N && ((r - lo) mod stride =? 0)%N.

Definition ToLower (r : N) : N :=
  if (r <=? 0x7F)%N then
    if (0x41 <=? r)%N && (r <=? 0x5A)%N then (r + 0x20)%N else r
  else
    match List.find (in_range r) lower_ranges with
    | Some (lo, _, _, to) => (to + (r - lo))%N
    | None => r
    end.

End unicode.

(* ================================================================== *)
(** * Go runtime: package strings, on bytes

    [ToLower] reads its argument as UTF-8, as the library does.
    [TrimSpace] and [Fields] are given on ASCII: a byte of value 128 or
    more is no space. *)

Module strings.

(** [Map mapping s]: the runes of [s], as a [range] over [s] yields
    them ([RuneError] for a byte that starts no valid encoding), each
    replaced by its image and encoded again.  [skip] counts the bytes of
    the current rune still to be passed over.  The library copies the
    bytes of [s] up to the first rune that changes, which are the
    encodings of their runes. *)
Fixpoint Map_go (mapping : N → N) (skip : nat) (s : string) : string :=
  match s with
  | "" => ""
  | String _ s' =>
      match skip with
      | S k => Map_go mapping k s'
      | O =>
          let '(c, width) := utf8.DecodeRuneInString s in
          utf8.EncodeRune (mapping c) +:+ Map_go mapping (width - 1) s'
      end
  end.

Definition Map (mapping : N → N) (s : string) : string := Map_go mapping 0 s.

(** [ToLower s] is [Map(unicode.ToLower, s)]; for a string of ASCII
    bytes the library takes a shorter way, byte by byte ([lower_byte]),
    to the same result. *)
Definition ToLower (s : string) : string := Map unicode.ToLower s.

(** [c += 'a' - 'A'] for ['A' <= c <= 'Z'] *)
Definition lower_byte (c : ascii) : ascii :=
  let n := N_of_ascii c in
  if ((65 <=? n) && (n <=? 90))%N then ascii_of_N (n + 32) else c.

Definition HasPrefix (s pre : string) : bool := String.prefix pre s.

Fixpoint Contains (s substr : string) : bool :=
  HasPrefix s substr ||
  match s with
  | "" => false
  | String _ s' => Contains s' substr
  end.

Definition isSpace (c : ascii) : bool := Ascii.is_space c.

Fixpoint TrimLeft (f : ascii → bool) (s : string) : string :=
  match s with
  | "" => ""
  | String c s' => if f c then TrimLeft f s' else s
  end.

Definition TrimRight (f : ascii → bool) (s : string) : string :=
  String.rev (TrimLeft f (String.rev s)).

Definition TrimFunc (f : ascii → bool) (s : string) : string :=
  TrimRight f (TrimLeft f s).

Definition TrimSpace (s : string) : string := TrimFunc isSpace s.

Fixpoint in_cutset (cutset : string) (c : ascii) : bool :=
  match cutset with
  | "" => false
  | String d cutset' => bool_decide (c = d) || in_cutset cutset' c
  end.

Definition Trim (s cutset : string) : string := TrimFunc (in_cutset cutset) s.

(** [Fields] splits around runs of white space and yields no empty
    field. *)
Definition Fields (s : string) : list string := String.words s.

(** [Split s sep] for a non-empty [sep]: the pieces between the
    leftmost non-overlapping occurrences of [sep].  [skip] counts the
    bytes of an occurrence still to be passed over, [cur] is the piece
    being read, reversed. *)
Fixpoint Split_go (sep : string) (skip : nat) (cur : string) (s : string)
  : list string :=
  match s with
  | "" => [String.rev cur]
  | String c s' =>
      match skip with
      | S k => Split_go sep k cur s'
      | O =>
          if HasPrefix s sep
          then String.rev cur :: Split_go sep (String.length sep - 1) "" s'
          else Split_go sep 0 (String c cur) s'
      end
  end.

Definition Split (s sep : string) : list string := Split_go sep 0 "" s.

Definition Join (elems : list string) (sep : string) : string :=
  String.concat sep elems.

(** [ReplaceAll s old new] for a non-empty [old]. *)
Definition ReplaceAll (s old new : string) : string :=
  Join (Split s old) new.

End strings.

(** * Go runtime: package strconv *)

Module strconv.

Fixpoint digits (acc : N) (s : string) : option N :=
  match s with
  | "" => Some acc
  | String c s' =>
      match Ascii.is_nat c with
      | Some d => digits (acc * 10 + N.of_nat d) s'
      | None => None
      end
  end.

(** [ParseInt s 10 bitSize]: an optional sign, then at least one
    decimal digit and nothing else.  A syntax error returns 0 with the
    error; a value outside the signed [bitSize]-bit integers returns the
    nearest bound with the error. *)
Definition ParseInt (s : string) (bitSize : Z) : Z * option error :=
  let '(neg, body) :=
    match s with
    | String "-" s' => (true, s')
    | String "+" s' => (false, s')
    | _ => (false, s)
    end in
  match body with
  | "" => (0%Z, Some "strconv.ParseInt: invalid syntax")
  | _ =>
      match digits 0 body with
      | None => (0%Z, Some "strconv.ParseInt: invalid syntax")
      | Some un =>
          let cutoff := (2 ^ (bitSize - 1))%Z in
          if negb neg && (cutoff <=? Z.of_N un)%Z
          then ((cutoff - 1)%Z, Some "strconv.ParseInt: value out of range")
          else if neg && (cutoff <? Z.of_N un)%Z
          then ((- cutoff)%Z, Some "strconv.ParseInt: value out of range")
          else ((if neg then - Z.of_N un else Z.of_N un)%Z, None)
      end
  end.

(** [ParseUint s 10 bitSize]: at least one decimal digit and nothing
    else, no sign.  A syntax error returns 0 with the error; a value
    beyond the unsigned [bitSize]-bit integers returns the greatest of
    them with the error.  The text of an error is cut short, as for
    [ParseInt]: Go adds the input to it, in quotes. *)
Definition ParseUint (s : string) (bitSize : Z) : N * option error :=
  match s with
  | "" => (0%N, Some "strconv.ParseUint: invalid syntax")
  | _ =>
      match digits 0 s with
      | None => (0%N, Some "strconv.ParseUint: invalid syntax")
      | Some un =>
          if (2 ^ Z.to_N bitSize <=? un)%N
          then ((2 ^ Z.to_N bitSize - 1)%N,
                Some "strconv.ParseUint: value out of range")
          else (un, None)
      end
  end.

Definition FormatInt (i : Z) : string := pretty i.

End strconv.


(* ================================================================== *)
(** * pkg/types *)

Module ProcessInfo.
Record t := mk {
  PID : Z; Name : string; Path : string; Status : string; User : string;
  StartTime : string }.
End ProcessInfo.

Module WindowInfo.
Record t := mk {
  Title : string; PID : Z; Process : string; AppName : string;
  Geometry : string }.
End WindowInfo.

Module PortInfo.
Record t := mk {
  Port : N; Protocol : string; PID : Z; Name : string; Path : string;
  State : string; LocalIP : string }.
End PortInfo.

#[global] Instance PortInfo_eq_dec : EqDecision PortInfo.t.
Proof. solve_decision. Defined.

Module ResourceUsage.
Record t := mk {
  PID : Z; Name : string; CPUPercent : float64; MemoryPercent : float32;
  MemoryRSS : N; MemoryVMS : N; MemoryHuman : string; CPUHuman : string;
  Threads : Z; OpenFiles : Z }.
End ResourceUsage.

Module ServiceInfo.
Record t := mk {
  Name : string; Status : string; PID : Z; CPUPercent : float64;
  MemoryPercent : float32; MemoryHuman : string; CPUHuman : string }.
End ServiceInfo.

(* ================================================================== *)
(** * The operating system, as one call sees it *)

(** gopsutil/net: the fields of [ConnectionStat] the code reads. *)
Module net.
Record Addr := mkAddr { IP : string; Port : N }.
Record ConnectionStat := mkConn { Status : string; Laddr : Addr; Pid : Z }.
End net.

(** gopsutil/process: a process handle, with the answer of each of its
    queries.  The five queries that [GetProcessResourceUsage] reads as
    [v, _ := f()] answer with a value and an error, as in Go. *)
Module process.
Record MemoryInfoStat := mkMem { RSS : N; VMS : N }.
Record Process := mkProc {
  Pid : Z;
  NameWithContext : string * option error;
  ExeWithContext : result string;
  StatusWithContext : result (list string);
  UsernameWithContext : result string;
  CreateTimeWithContext : result Z;
  CPUPercentWithContext : float64 * option error;
  MemoryPercentWithContext : float32 * option error;
  MemoryInfoWithContext : result (option MemoryInfoStat);
  NumThreadsWithContext : Z * option error;
  NumFDsWithContext : Z * option error }.
End process.

Record World := mkWorld {
  (** [runtime.GOOS] *)
  GOOS : string;
  (** [net.ConnectionsWithContext(ctx, "inet")] *)
  ConnectionsWithContext : result (list net.ConnectionStat);
  (** [process.ProcessesWithContext(ctx)] *)
  ProcessesWithContext : result (list process.Process);
  (** [process.NewProcessWithContext(ctx, pid)] *)
  NewProcessWithContext : Z → result process.Process;
  (** [exec.CommandContext(ctx, name, args...).Output()] *)
  Output : string → list string → result string }.

(** The anonymous struct that [getWindowsServices] decodes into. *)
Module ServiceObj.
Record t := mk { Name : string; Status : string; PID : Z }.
End ServiceObj.

(** Library functions outside the repository that the embedding leaves
    open: the properties below hold whatever they return. *)
Record GoLib := mkGoLib {
  (** [fmt.Sprintf] with the verb [%.2f] *)
  Sprintf_2f : float64 → string;
  (** [math.Round] *)
  math_Round : float64 → float64;
  (** [json.Unmarshal] into a slice of service objects, and into one
      service object *)
  json_Unmarshal_slice : string → result (list ServiceObj.t);
  json_Unmarshal_object : string → result ServiceObj.t }.

Definition f64_prec : Z := 53.
Definition f64_emax : Z := 1024.
Definition f64_mul : float64 → float64 → float64 := SFmul f64_prec f64_emax.
Definition f64_div : float64 → float64 → float64 := SFdiv f64_prec f64_emax.
(** [float64(n)] for an integer [n] *)
Definition f64_of_Z (n : Z) : float64 :=
  binary_normalize f64_prec f64_emax n 0 false.

(* ================================================================== *)
(** * internal/utils *)

Module utils.
Section utils.
Context (lib : GoLib).

(** The loop of [FormatBytes]: [for n := bytes / unit; n >= unit; n /= unit]. *)
Fixpoint FormatBytes_loop (fuel : nat) (n : N) (div : Z) (exp : nat)
  : Z * nat :=
  match fuel with
  | O => (div, exp)
  | S fuel' =>
      if (1024 <=? n)%N
      then FormatBytes_loop fuel' (n / 1024)%N (div * 1024)%Z (S exp)
      else (div, exp)
  end.

Definition FormatBytes (bytes : N) : string :=
  if (bytes <? 1024)%N then pretty bytes +:+ " B"
  else
    let '(div, exp) := FormatBytes_loop 64 (bytes / 1024)%N 1024%Z 0 in
    Sprintf_2f lib (f64_div (f64_of_Z (Z.of_N bytes)) (f64_of_Z div))
      +:+ " "
      +:+ from_option (λ c, String c "") "" (String.get exp "KMGTPE")
      +:+ "B".

Definition FormatCPU (cpu : float64) : string :=
  if SFltb cpu f64_0_01 then "< 0.01%"
  else if SFleb f64_100 cpu then "100%"
  else Sprintf_2f lib
         (f64_div (math_Round lib (f64_mul cpu f64_100)) f64_100) +:+ "%".

(** [FormatDuration]: [%d] of an unsigned integer is its decimal
    notation. *)
Definition FormatDuration (seconds : N) : string :=
  if (seconds <? 60)%N then pretty seconds +:+ "s"
  else if (seconds <? 3600)%N then
    pretty (seconds / 60)%N +:+ "m " +:+ pretty (seconds mod 60)%N +:+ "s"
  else if (seconds <? 86400)%N then
    pretty (seconds / 3600)%N +:+ "h "
      +:+ pretty ((seconds mod 3600) / 60)%N +:+ "m"
  else
    pretty (seconds / 86400)%N +:+ "d "
      +:+ pretty ((seconds mod 86400) / 3600)%N +:+ "h".

End utils.
End utils.

(* ================================================================== *)
(** * internal/port *)

Module port.
Section port.
Context (w : World).

Definition getProtocol (conn : net.ConnectionStat) : string :=
  if strings.Contains (strings.ToLower (net.Status conn)) "udp"
  then "UDP" else "TCP".

(** [fmt.Sprintf("%s:%d", conn.Laddr.IP, port)] *)
Definition portKey (ip : string) (port : N) : string :=
  ip +:+ ":" +:+ pretty port.

(** The name and the path of the owning process, blank when the pid is
    not positive or a lookup fails. *)
Definition procInfo (pid : Z) : string * string :=
  if (0 <? pid)%Z then
    match NewProcessWithContext w pid with
    | Ok p => (val_or "" (checked (process.NameWithContext p)),
               val_or "" (process.ExeWithContext p))
    | Err _ => ("", "")
    end
  else ("", "").

(** One iteration of the loop over the connections. *)
Definition collect (portMap : gmap string PortInfo.t)
    (conn : net.ConnectionStat) : gmap string PortInfo.t :=
  if bool_decide (net.Status conn ≠ "LISTEN") then portMap else
  let port := net.Port (net.Laddr conn) in
  if bool_decide (port = 0%N) then portMap else
  let key := portKey (net.IP (net.Laddr conn)) port in
  let '(procName, exePath) := procInfo (net.Pid conn) in
  let protocol := getProtocol conn in
  let portInfo := {|
    PortInfo.Port := port;
    PortInfo.Protocol := protocol;
    PortInfo.PID := net.Pid conn;
    PortInfo.Name := procName;
    PortInfo.Path := exePath;
    PortInfo.State := net.Status conn;
    PortInfo.LocalIP := net.IP (net.Laddr conn) |} in
  match portMap !! key with
  | Some existing =>
      if bool_decide (PortInfo.Name existing = "" ∧ procName ≠ "")
      then <[key := portInfo]> portMap
      else portMap
  | None => <[key := portInfo]> portMap
  end.

Definition portMap_of (connections : list net.ConnectionStat)
  : gmap string PortInfo.t :=
  foldl collect ∅ connections.

(** [if ports[i].Port > ports[j].Port { ports[i], ports[j] = ports[j], ports[i] }] *)
Definition swap_if_greater (i : nat) (ports : list PortInfo.t) (j : nat)
  : list PortInfo.t :=
  match ports !! i, ports !! j with
  | Some pi, Some pj =>
      if (PortInfo.Port pj <? PortInfo.Port pi)%N
      then <[j := pi]> (<[i := pj]> ports)
      else ports
  | _, _ => ports
  end.

(** [for j := i + 1; j < len(ports); j++] *)
Definition sort_inner (ports : list PortInfo.t) (i : nat) : list PortInfo.t :=
  foldl (swap_if_greater i) ports (seq (S i) (length ports - S i)).

(** [for i := 0; i < len(ports)-1; i++] *)
Definition sort_by_port (ports : list PortInfo.t) : list PortInfo.t :=
  foldl sort_inner ports (seq 0 (length ports - 1)).

(** [GetOpenPorts].  The values of [portMap] are appended in the order
    in which [range] yields them, which Go leaves open: [ports] is any
    arrangement of them. *)
Inductive GetOpenPorts : list PortInfo.t * option error → Prop :=
| GetOpenPorts_err e :
    ConnectionsWithContext w = Err e →
    GetOpenPorts ([], Some e)
| GetOpenPorts_ok connections ports :
    ConnectionsWithContext w = Ok connections →
    ports ≡ₚ (map_to_list (portMap_of connections)).*2 →
    GetOpenPorts (sort_by_port ports, None).

(** One run of [GetOpenPorts], for a given order of the [range]. *)
Definition GetOpenPorts_with
    (range : gmap string PortInfo.t → list PortInfo.t)
  : list PortInfo.t * option error :=
  match ConnectionsWithContext w with
  | Err err => ([], Some err)
  | Ok connections =>
      let portMap := portMap_of connections in
      let ports := range portMap in
      (sort_by_port ports, None)
  end.

Inductive GetPortInfoByPort (port : N) : list PortInfo.t * option error → Prop :=
| GetPortInfoByPort_err allPorts e :
    GetOpenPorts (allPorts, Some e) →
    GetPortInfoByPort port ([], Some e)
| GetPortInfoByPort_ok allPorts :
    GetOpenPorts (allPorts, None) →
    GetPortInfoByPort port
      (filter (λ p, PortInfo.Port p = port) allPorts, None).

Inductive GetPortsByPID (pid : Z) : list PortInfo.t * option error → Prop :=
| GetPortsByPID_err allPorts e :
    GetOpenPorts (allPorts, Some e) →
    GetPortsByPID pid ([], Some e)
| GetPortsByPID_ok allPorts :
    GetOpenPorts (allPorts, None) →
    GetPortsByPID pid (filter (λ p, PortInfo.PID p = pid) allPorts, None).

End port.
End port.

(* ================================================================== *)
(** * sort.Slice

    The library sorts in place and promises an arrangement of the slice
    in which no element is [less] than one before it; it is not stable.
    Any such arrangement is a possible outcome. *)

Definition sort_Slice {A} (less : A → A → bool) (x x' : list A) : Prop :=
  x' ≡ₚ x ∧ StronglySorted (λ a b, less b a = false) x'.

(* ================================================================== *)
(** * internal/process

    The package as in its later copy, which also looks at the owner of a
    process ([isSystemUser]); the earlier copy filters by name and by
    executable path alone and sorts in the same way. *)

Module process_pkg.
Section process_pkg.
Context (w : World).

Definition getSystemPrefixes : list string :=
  if bool_decide (GOOS w = "darwin") then
    ["com.apple"; "kernel"; "WindowServer"; "launchd"; "syspolicyd"; "trustd"]
  else if bool_decide (GOOS w = "linux") then
    ["["; "kthreadd"; "ksoftirqd"; "migration"; "rcu_"; "systemd"; "init"]
  else if bool_decide (GOOS w = "windows") then
    ["System"; "smss"; "csrss"; "winlogon"; "services"; "lsass"; "svchost";
     "spoolsv"; "SearchIndexer"]
  else ["kernel"; "init"; "system"].

Fixpoint isSystemProcess_loop (nameLower : string) (prefixes : list string)
  : bool :=
  match prefixes with
  | [] => false
  | prefix :: prefixes' =>
      if strings.HasPrefix (strings.ToLower nameLower) (strings.ToLower prefix)
      then true
      else isSystemProcess_loop nameLower prefixes'
  end.

Definition isSystemProcess (name : string) (prefixes : list string) : bool :=
  let nameLower := strings.ToLower name in
  isSystemProcess_loop nameLower prefixes.

Definition getSystemUsers (os : string) : list string :=
  if bool_decide (os = "darwin") then
    ["root"; "_windowserver"; "_appleevents"; "_coreaudiod"; "_securityd"]
  else if bool_decide (os = "linux") then
    ["root"; "daemon"; "bin"; "sys"; "sync"; "games"; "man"; "lp"; "mail";
     "news"; "uucp"; "proxy"; "www-data"; "backup"; "list"; "irc"; "gnats";
     "nobody"]
  else if bool_decide (os = "windows") then
    ["SYSTEM"; "LOCAL SERVICE"; "NETWORK SERVICE"]
  else ["root"; "system"; "daemon"].

Fixpoint isSystemUser_loop (usernameLower : string) (systemUsers : list string)
  : bool :=
  match systemUsers with
  | [] => false
  | sysUser :: systemUsers' =>
      if bool_decide (strings.ToLower sysUser = usernameLower)
      then true
      else isSystemUser_loop usernameLower systemUsers'
  end.

Definition isSystemUser (username os : string) : bool :=
  let systemUsers := getSystemUsers os in
  let usernameLower := strings.ToLower username in
  isSystemUser_loop usernameLower systemUsers.

Definition formatTime (timestamp : Z) : string := "".

(** One iteration of the loop over the process table: the record that
    is appended, or [None] where the code says [continue]. *)
Definition userProc (systemPrefixes : list string) (p : process.Process)
  : option ProcessInfo.t :=
  match checked (process.NameWithContext p) with
  | Err _ => None
  | Ok name =>
      if isSystemProcess name systemPrefixes then None else
      match process.ExeWithContext p with
      | Err _ => None
      | Ok exe =>
          match
            match process.UsernameWithContext p with
            | Ok u => if isSystemUser u (GOOS w) then None else Some u
            | Err _ => Some ""
            end
          with
          | None => None
          | Some username =>
              if bool_decide (username = "") then None else
              let pid := process.Pid p in
              let status :=
                match process.StatusWithContext p with
                | Ok st => strings.Join st ","
                | Err _ => ""
                end in
              let startTime :=
                match process.CreateTimeWithContext p with
                | Ok st => formatTime st
                | Err _ => ""
                end in
              Some {|
                ProcessInfo.PID := pid;
                ProcessInfo.Name := name;
                ProcessInfo.Path := exe;
                ProcessInfo.Status := status;
                ProcessInfo.User := username;
                ProcessInfo.StartTime := startTime |}
          end
      end
  end.

Definition userProcs (procs : list process.Process) : list ProcessInfo.t :=
  omap (userProc getSystemPrefixes) procs.

Inductive GetUserApplications : list ProcessInfo.t * option error → Prop :=
| GetUserApplications_err e :
    ProcessesWithContext w = Err e →
    GetUserApplications ([], Some e)
| GetUserApplications_ok procs sorted :
    ProcessesWithContext w = Ok procs →
    sort_Slice (λ a b, (ProcessInfo.PID a <? ProcessInfo.PID b)%Z)
      (userProcs procs) sorted →
    GetUserApplications (sorted, None).

(** The earlier copy of the package (it follows [internal/port] in the
    sources).  Its [isSystemProcess] compares the bytes of the name as
    they are, and it does not look at the owner of a process;
    [getSystemPrefixes] and [formatTime] are those above. *)
Fixpoint isSystemProcess_port_go (name : string) (prefixes : list string)
  : bool :=
  match prefixes with
  | [] => false
  | prefix :: prefixes' =>
      if strings.HasPrefix name prefix
      then true
      else isSystemProcess_port_go name prefixes'
  end.

Definition userProc_port_go (systemPrefixes : list string)
    (p : process.Process) : option ProcessInfo.t :=
  match checked (process.NameWithContext p) with
  | Err _ => None
  | Ok name =>
      if isSystemProcess_port_go name systemPrefixes then None else
      match process.ExeWithContext p with
      | Err _ => None
      | Ok exe =>
          let pid := process.Pid p in
          let status :=
            match process.StatusWithContext p with
            | Ok st => strings.Join st ","
            | Err _ => ""
            end in
          let username :=
            match process.UsernameWithContext p with
            | Ok u => u
            | Err _ => ""
            end in
          let startTime :=
            match process.CreateTimeWithContext p with
            | Ok st => formatTime st
            | Err _ => ""
            end in
          Some {|
            ProcessInfo.PID := pid;
            ProcessInfo.Name := name;
            ProcessInfo.Path := exe;
            ProcessInfo.Status := status;
            ProcessInfo.User := username;
            ProcessInfo.StartTime := startTime |}
      end
  end.

Inductive GetUserApplications_port_go
  : list ProcessInfo.t * option error → Prop :=
| GetUserApplications_port_go_err e :
    ProcessesWithContext w = Err e →
    GetUserApplications_port_go ([], Some e)
| GetUserApplications_port_go_ok procs sorted :
    ProcessesWithContext w = Ok procs →
    sort_Slice (λ a b, (ProcessInfo.PID a <? ProcessInfo.PID b)%Z)
      (omap (userProc_port_go getSystemPrefixes) procs) sorted →
    GetUserApplications_port_go (sorted, None).

End process_pkg.
End process_pkg.

(* ================================================================== *)
(** * internal/resource *)

Module resource.
Section resource.
Context (lib : GoLib) (w : World).

Definition GetProcessResourceUsage (pid : Z)
  : option ResourceUsage.t * option error :=
  match NewProcessWithContext w pid with
  | Err err => (None, Some err)
  | Ok p =>
      let name := (process.NameWithContext p).1 in
      let cpuPercent := (process.CPUPercentWithContext p).1 in
      let memPercent := (process.MemoryPercentWithContext p).1 in
      match process.MemoryInfoWithContext p with
      | Err err => (None, Some err)
      | Ok memInfo =>
          let memoryRSS := from_option process.RSS 0%N memInfo in
          let memoryVMS := from_option process.VMS 0%N memInfo in
          let memoryHuman := utils.FormatBytes lib memoryRSS in
          let cpuHuman := utils.FormatCPU lib cpuPercent in
          let threads := (process.NumThreadsWithContext p).1 in
          let openFiles := (process.NumFDsWithContext p).1 in
          (Some {|
             ResourceUsage.PID := pid;
             ResourceUsage.Name := name;
             ResourceUsage.CPUPercent := cpuPercent;
             ResourceUsage.MemoryPercent := memPercent;
             ResourceUsage.MemoryRSS := memoryRSS;
             ResourceUsage.MemoryVMS := memoryVMS;
             ResourceUsage.MemoryHuman := memoryHuman;
             ResourceUsage.CPUHuman := cpuHuman;
             ResourceUsage.Threads := threads;
             ResourceUsage.OpenFiles := openFiles |}, None)
      end
  end.

(** One iteration of the loop of [GetTopProcesses] over the process
    table: the usage that is appended, or [None] where the code says
    [continue].  As above, a nil [usage] with a nil [err] is not
    returned by [GetProcessResourceUsage]. *)
Definition usage_of (p : process.Process) : option ResourceUsage.t :=
  let pid := process.Pid p in
  match GetProcessResourceUsage pid with
  | (_, Some _) => None
  | (Some usage, None) => Some usage
  | (None, None) => None
  end.

(** [if less(usages[i], usages[j]) { usages[i], usages[j] = usages[j], usages[i] }] *)
Definition swap_if_less (less : ResourceUsage.t → ResourceUsage.t → bool)
    (i : nat) (usages : list ResourceUsage.t) (j : nat)
  : list ResourceUsage.t :=
  match usages !! i, usages !! j with
  | Some ui, Some uj =>
      if less ui uj
      then <[j := ui]> (<[i := uj]> usages)
      else usages
  | _, _ => usages
  end.

(** [for j := i + 1; j < len(usages); j++] *)
Definition sort_inner (less : ResourceUsage.t → ResourceUsage.t → bool)
    (usages : list ResourceUsage.t) (i : nat) : list ResourceUsage.t :=
  foldl (swap_if_less less i) usages (seq (S i) (length usages - S i)).

(** [for i := 0; i < len(usages)-1; i++].  The code writes the two loops
    out twice, once for each of the comparisons below. *)
Definition sort_usages (less : ResourceUsage.t → ResourceUsage.t → bool)
    (usages : list ResourceUsage.t) : list ResourceUsage.t :=
  foldl (sort_inner less) usages (seq 0 (length usages - 1)).

(** [usages[i].CPUPercent < usages[j].CPUPercent] *)
Definition less_cpu (a b : ResourceUsage.t) : bool :=
  SFltb (ResourceUsage.CPUPercent a) (ResourceUsage.CPUPercent b).

(** [usages[i].MemoryRSS < usages[j].MemoryRSS] *)
Definition less_memory (a b : ResourceUsage.t) : bool :=
  (ResourceUsage.MemoryRSS a <? ResourceUsage.MemoryRSS b)%N.

Definition GetTopProcesses (limit : Z) (sortBy : string)
  : list ResourceUsage.t * option error :=
  match ProcessesWithContext w with
  | Err err => ([], Some err)
  | Ok procs =>
      let usages := omap usage_of procs in
      let usages :=
        if bool_decide (sortBy = "cpu")
        then sort_usages less_cpu usages
        else sort_usages less_memory usages in
      let usages :=
        if bool_decide (0 < limit)%Z
           && bool_decide (limit < Z.of_nat (length usages))%Z
        then take (Z.to_nat limit) usages
        else usages in
      (usages, None)
  end.

End resource.
End resource.

(* ================================================================== *)
(** * internal/service

    The repository holds two copies of the package.  They agree on macOS
    and on Linux; [getWindowsServices] is the one of the copy that decodes
    the output of its command, and [getWindowsServices_part_003] the one
    of the copy that does not read it. *)

Module service.
Section service.
Context (lib : GoLib) (w : World).

(** In the loops below [usage] is read only when [err] is nil; the case
    of a nil [usage] with a nil [err], which [GetProcessResourceUsage]
    never returns, is written [None]. *)

(** A record that carries the name, the status and the pid only. *)
Definition bare (name status : string) (pid : Z) : ServiceInfo.t := {|
  ServiceInfo.Name := name;
  ServiceInfo.Status := status;
  ServiceInfo.PID := pid;
  ServiceInfo.CPUPercent := f64_zero;
  ServiceInfo.MemoryPercent := f32_zero;
  ServiceInfo.MemoryHuman := "";
  ServiceInfo.CPUHuman := "" |}.

(** A record that carries the figures of a resource sample as well. *)
Definition sampled (name status : string) (pid : Z) (usage : ResourceUsage.t)
  : ServiceInfo.t := {|
  ServiceInfo.Name := name;
  ServiceInfo.Status := status;
  ServiceInfo.PID := pid;
  ServiceInfo.CPUPercent := ResourceUsage.CPUPercent usage;
  ServiceInfo.MemoryPercent := ResourceUsage.MemoryPercent usage;
  ServiceInfo.MemoryHuman := ResourceUsage.MemoryHuman usage;
  ServiceInfo.CPUHuman := ResourceUsage.CPUHuman usage |}.

(** One line of [launchctl list]: the record appended, or [None] where
    the code says [continue]. *)
Definition macOSService (line0 : string) : option ServiceInfo.t :=
  let line := strings.TrimSpace line0 in
  if bool_decide (line = "") then None else
  let fields := strings.Fields line in
  if bool_decide (length fields < 3)%nat then None else
  let pidStr := fields !!! 0 in
  let status := fields !!! 1 in
  let name := strings.Join (drop 2 fields) " " in
  let '(pid, err) := strconv.ParseInt pidStr 32 in
  if bool_decide (err ≠ None) || bool_decide (pid ≤ 0)%Z then
    Some (bare name status 0)
  else
    match resource.GetProcessResourceUsage lib w (int32 pid) with
    | (_, Some _) => Some (bare name status (int32 pid))
    | (Some usage, None) => Some (sampled name status (int32 pid) usage)
    | (None, None) => None
    end.

Definition getMacOSServices : list ServiceInfo.t * option error :=
  match Output w "launchctl" ["list"] with
  | Err err => ([], Some err)
  | Ok output =>
      let lines := strings.Split (strings.TrimSpace output) LF in
      (omap macOSService (drop 1 lines), None)
  end.

(** One line of [systemctl list-units]. *)
Definition linuxService (line0 : string) : option ServiceInfo.t :=
  let line := strings.TrimSpace line0 in
  if bool_decide (line = "") then None else
  let fields := strings.Fields line in
  if bool_decide (length fields < 4)%nat then None else
  let name := strings.ReplaceAll (fields !!! 0) ".service" "" in
  let status := fields !!! 2 in
  let fallback (pid : Z) := Some (bare name status pid) in
  match Output w "systemctl"
          ["show"; "--property=MainPID"; "--value"; fields !!! 0] with
  | Err _ => fallback 0%Z
  | Ok pidOutput =>
      let pidStr := strings.TrimSpace pidOutput in
      if bool_decide (pidStr ≠ "0") && bool_decide (pidStr ≠ "") then
        let '(p, err) := strconv.ParseInt pidStr 32 in
        if bool_decide (err = None) && bool_decide (0 < p)%Z then
          let pid := int32 p in
          match resource.GetProcessResourceUsage lib w pid with
          | (_, Some _) => fallback pid
          | (Some usage, None) => Some (sampled name status pid usage)
          | (None, None) => None
          end
        else fallback 0%Z
      else fallback 0%Z
  end.

Definition getLinuxServices : list ServiceInfo.t * option error :=
  match Output w "systemctl"
          ["list-units"; "--type=service"; "--no-pager"; "--no-legend"] with
  | Err err => ([], Some err)
  | Ok output =>
      let lines := strings.Split (strings.TrimSpace output) LF in
      (omap linuxService lines, None)
  end.

Definition getWindowsServices_psScript : string :=
    "
		Get-Service | ForEach-Object {
			$pid = (Get-WmiObject Win32_Service -Filter " +:+
    DQUOTE +:+
    "Name='$($_.Name)'" +:+
    DQUOTE +:+
    " -ErrorAction SilentlyContinue).ProcessId
			if ($pid -eq $null) { $pid = 0 }
			[PSCustomObject]@{
				Name = $_.Name
				Status = $_.Status.ToString()
				PID = $pid
			}
		} | ConvertTo-Json -Compress
	".

(** One decoded service object of [getWindowsServices]. *)
Definition windowsService (s : ServiceObj.t) : ServiceInfo.t :=
  let serviceInfo :=
    bare (ServiceObj.Name s) (strings.ToLower (ServiceObj.Status s))
      (int32 (ServiceObj.PID s)) in
  if bool_decide (0 < ServiceObj.PID s)%Z then
    match resource.GetProcessResourceUsage lib w (int32 (ServiceObj.PID s)) with
    | (Some usage, None) =>
        sampled (ServiceInfo.Name serviceInfo) (ServiceInfo.Status serviceInfo)
          (ServiceInfo.PID serviceInfo) usage
    | (_, _) => serviceInfo
    end
  else serviceInfo.

Definition getWindowsServices : list ServiceInfo.t * option error :=
  match Output w "powershell" ["-Command"; getWindowsServices_psScript] with
  | Err err => ([], Some err)
  | Ok output =>
      match json_Unmarshal_slice lib output with
      | Ok serviceObjs => (windowsService <$> serviceObjs, None)
      | Err err =>
          match json_Unmarshal_object lib output with
          | Ok serviceObj => (windowsService <$> [serviceObj], None)
          | Err _ => ([], Some err)
          end
      end
  end.

Definition GetServices : list ServiceInfo.t * option error :=
  if bool_decide (GOOS w = "darwin") then getMacOSServices
  else if bool_decide (GOOS w = "linux") then getLinuxServices
  else if bool_decide (GOOS w = "windows") then getWindowsServices
  else ([], None).

(** The other copy of the package differs in [getWindowsServices] alone:
    it runs its command and returns no service, whatever the output. *)
Definition getWindowsServices_psScript_part_003 : string :=
    "
		Get-Service | Select-Object Name, Status, @{Name='PID';Expression={(Get-WmiObject Win32_Service -Filter " +:+
    DQUOTE +:+
    "Name='$($_.Name)'" +:+
    DQUOTE +:+
    ").ProcessId}} | ConvertTo-Json
	".

Definition getWindowsServices_part_003 : list ServiceInfo.t * option error :=
  match Output w "powershell"
          ["-Command"; getWindowsServices_psScript_part_003] with
  | Err err => ([], Some err)
  | Ok output => ([], None)
  end.

Definition GetServices_part_003 : list ServiceInfo.t * option error :=
  if bool_decide (GOOS w = "darwin") then getMacOSServices
  else if bool_decide (GOOS w = "linux") then getLinuxServices
  else if bool_decide (GOOS w = "windows") then getWindowsServices_part_003
  else ([], None).

End service.
End service.

(* ================================================================== *)
(** * internal/window *)

Module window.
Section window.
Context (w : World).

Definition getPIDForApp (appName : string) : Z :=
  match Output w "pgrep" ["-f"; appName] with
  | Err _ => 0%Z
  | Ok output =>
      let pidStr := strings.TrimSpace output in
      let '(pid, _) := strconv.ParseInt pidStr 32 in
      int32 pid
  end.

Definition getProcessName (pid : Z) : string :=
  if bool_decide (GOOS w = "linux") then
    match Output w "ps" ["-p"; strconv.FormatInt pid; "-o"; "comm="] with
    | Ok output => strings.TrimSpace output
    | Err _ => ""
    end
  else "".

Definition mkWindow (title : string) (pid : Z) (proc : string) : WindowInfo.t := {|
  WindowInfo.Title := title;
  WindowInfo.PID := pid;
  WindowInfo.Process := proc;
  WindowInfo.AppName := proc;
  WindowInfo.Geometry := "" |}.

Definition getMacOSWindowsAlt_script : string :=
    "tell application " +:+
    DQUOTE +:+
    "System Events" +:+
    DQUOTE +:+
    "
		set windowList to {}
		repeat with proc in every process
			if background only of proc is false then
				try
					set procName to name of proc
					set procPID to unix id of proc
					set winList to windows of proc
					repeat with win in winList
						try
							set winTitle to title of win
							if winTitle is not " +:+
    DQUOTE +:+
    DQUOTE +:+
    " then
								set end of windowList to procName & " +:+
    DQUOTE +:+
    "|" +:+
    DQUOTE +:+
    " & winTitle & " +:+
    DQUOTE +:+
    "|" +:+
    DQUOTE +:+
    " & procPID
							end if
						end try
					end repeat
				end try
			end if
		end repeat
	end tell
	return windowList".

(** One line of the output of the alternative script. *)
Definition macOSWindowAlt (line0 : string) : option WindowInfo.t :=
  let line := strings.TrimSpace line0 in
  if bool_decide (line = "") then None else
  let parts := strings.Split line "|" in
  if bool_decide (3 ≤ length parts)%nat then
    let appName := strings.TrimSpace (parts !!! 0) in
    let title := strings.TrimSpace (parts !!! 1) in
    let pidStr := strings.TrimSpace (parts !!! 2) in
    let pid :=
      match strconv.ParseInt pidStr 32 with
      | (pid, None) => pid
      | (_, Some _) => getPIDForApp appName
      end in
    if bool_decide (appName ≠ "") && bool_decide (title ≠ "")
    then Some (mkWindow title (int32 pid) appName)
    else None
  else None.

Definition getMacOSWindowsAlt : list WindowInfo.t * option error :=
  match Output w "osascript" ["-e"; getMacOSWindowsAlt_script] with
  | Err err => ([], Some err)
  | Ok output =>
      let lines := strings.Split (strings.TrimSpace output) LF in
      (omap macOSWindowAlt lines, None)
  end.

Definition getMacOSWindows_script : string :=
    "
		tell application " +:+
    DQUOTE +:+
    "System Events" +:+
    DQUOTE +:+
    "
			set windowList to {}
			repeat with proc in every process
				if background only of proc is false then
					try
						set procName to name of proc
						set procPID to unix id of proc
						set winList to windows of proc
						repeat with win in winList
							try
								set winTitle to title of win
								if winTitle is not " +:+
    DQUOTE +:+
    DQUOTE +:+
    " then
									set end of windowList to {procName, winTitle, procPID}
								end if
							end try
						end repeat
					end try
				end if
			end repeat
		end tell
		return windowList
	".

(** One item of the output of the first script. *)
Definition macOSWindow (line0 : string) : option WindowInfo.t :=
  let line := strings.TrimSpace line0 in
  if bool_decide (line = "") || strings.Contains line "missing value"
  then None else
  if strings.Contains line "text" then None else
  let parts := strings.Split line "," in
  if bool_decide (2 ≤ length parts)%nat then
    let appName := strings.TrimSpace (strings.Trim (parts !!! 0) DQUOTE) in
    let title :=
      strings.TrimSpace
        (strings.Trim
           (strings.Join (take (length parts - 1 - 1) (drop 1 parts)) ",")
           DQUOTE) in
    let pid :=
      if bool_decide (3 ≤ length parts)%nat then
        let pidStr := strings.TrimSpace (parts !!! (length parts - 1)) in
        match strconv.ParseInt pidStr 32 with
        | (p, None) => int32 p
        | (_, Some _) => getPIDForApp appName
        end
      else getPIDForApp appName in
    if bool_decide (appName ≠ "") && bool_decide (title ≠ "")
    then Some (mkWindow title pid appName)
    else None
  else None.

Definition getMacOSWindows : list WindowInfo.t * option error :=
  match Output w "osascript" ["-e"; getMacOSWindows_script] with
  | Err err => ([], Some err)
  | Ok output =>
      let lines := strings.Split (strings.TrimSpace output) ", " in
      let windows := omap macOSWindow lines in
      if bool_decide (length windows = 0%nat) then getMacOSWindowsAlt
      else (windows, None)
  end.

(** One line of [wmctrl -lp]. *)
Definition linuxWindow (line : string) : option WindowInfo.t :=
  let parts := strings.Fields line in
  if bool_decide (5 ≤ length parts)%nat then
    let pidStr := parts !!! 2 in
    let '(pid, _) := strconv.ParseInt pidStr 32 in
    let title := strings.Join (drop 4 parts) " " in
    let procName := getProcessName (int32 pid) in
    Some (mkWindow title (int32 pid) procName)
  else None.

Definition getLinuxWindows : list WindowInfo.t * option error :=
  match Output w "wmctrl" ["-lp"] with
  | Err err => ([], Some err)
  | Ok output =>
      let lines := strings.Split (strings.TrimSpace output) LF in
      (omap linuxWindow lines, None)
  end.

Definition getWindowsWindows_psScript : string :=
    "
		Get-Process | Where-Object {$_.MainWindowTitle -ne " +:+
    DQUOTE +:+
    DQUOTE +:+
    "} | ForEach-Object {
			$_.Id.ToString() + " +:+
    DQUOTE +:+
    "|" +:+
    DQUOTE +:+
    " + $_.ProcessName + " +:+
    DQUOTE +:+
    "|" +:+
    DQUOTE +:+
    " + $_.MainWindowTitle
		}
	".

(** One line of the output of the PowerShell script. *)
Definition windowsWindow (line0 : string) : option WindowInfo.t :=
  let line := strings.TrimSpace line0 in
  if bool_decide (line = "") then None else
  let parts := strings.Split line "|" in
  if bool_decide (3 ≤ length parts)%nat then
    let pidStr := strings.TrimSpace (parts !!! 0) in
    let processName := strings.TrimSpace (parts !!! 1) in
    let title := strings.TrimSpace (parts !!! 2) in
    match strconv.ParseInt pidStr 32 with
    | (_, Some _) => None
    | (pid, None) => Some (mkWindow title (int32 pid) processName)
    end
  else None.

Definition getWindowsWindows : list WindowInfo.t * option error :=
  match Output w "powershell" ["-Command"; getWindowsWindows_psScript] with
  | Err err => ([], Some err)
  | Ok output =>
      let lines := strings.Split (strings.TrimSpace output) LF in
      (omap windowsWindow lines, None)
  end.

Definition GetOpenWindows : list WindowInfo.t * option error :=
  if bool_decide (GOOS w = "darwin") then getMacOSWindows
  else if bool_decide (GOOS w = "linux") then getLinuxWindows
  else if bool_decide (GOOS w = "windows") then getWindowsWindows
  else ([], None).

End window.
End window.

(* ================================================================== *)
(** * internal/cli *)

Module cli.

(** [truncateString].  The slice expression [s[:maxLen-3]] panics when
    its bound is negative or beyond the length of [s]: [None]. *)
Definition truncateString (s : string) (maxLen : Z) : option string :=
  if bool_decide (Z.of_nat (String.length s) ≤ maxLen)%Z then Some s
  else if bool_decide (maxLen - 3 < 0 ∨ Z.of_nat (String.length s) < maxLen - 3)%Z
  then None
  else Some (String.substring 0 (Z.to_nat (maxLen - 3)) s +:+ "...").

End cli.

(* ================================================================== *)
(** * net/http, as the handlers use it

    A [ResponseWriter] is the response as it stands: the header map, the
    status once [WriteHeader] has sent it, and the pieces written to the
    body.  The header is sent with the status; what is set later does
    not reach the client any more. *)

Module http.

Record Request := mkRequest {
  (** [r.Method] *)
  Method : string;
  (** [r.URL.Query().Get(key)]: the first value of the key, blank
      without one *)
  Query : string → string }.

Record ResponseWriter := mkResponseWriter {
  Header : gmap string string;
  Status : option Z;
  Body : list string }.

Definition StatusOK : Z := 200.
Definition StatusInternalServerError : Z := 500.

(** [w.Header().Set(key, value)] *)
Definition Header_Set (key value : string) (w : ResponseWriter)
  : ResponseWriter :=
  match Status w with
  | Some _ => w
  | None =>
      {| Header := <[key := value]> (Header w);
         Status := Status w;
         Body := Body w |}
  end.

(** [w.WriteHeader(statusCode)]: a second call changes nothing. *)
Definition WriteHeader (statusCode : Z) (w : ResponseWriter)
  : ResponseWriter :=
  match Status w with
  | Some _ => w
  | None =>
      {| Header := Header w; Status := Some statusCode; Body := Body w |}
  end.

(** [w.Write(data)]: the first write sends the status 200 if none was
    sent. *)
Definition Write (data : string) (w : ResponseWriter) : ResponseWriter :=
  let w := WriteHeader StatusOK w in
  {| Header := Header w; Status := Status w; Body := Body w ++ [data] |}.

End http.

(* ================================================================== *)
(** * internal/mcp

    A call whose outcome Go leaves open is the set of its outcomes;
    [ret] and [let*] chain such calls, and a call that panics has no
    outcome.  A handler takes the response as it stands and the request,
    and gives the response as it leaves it.  What [log.Printf] prints is
    not part of the response and is left out. *)

Definition M (A : Type) : Type := A → Prop.
Definition ret {A} (a : A) : M A := λ a', a' = a.
Definition bind {A B} (m : M A) (f : A → M B) : M B :=
  λ b, ∃ a, m a ∧ f a b.

(** A panic ends the call with no outcome. *)
Definition panic {A} : M A := λ _, False.

Notation "'let*' x ':=' m 'in' f" := (bind m (λ x, f))
  (at level 10, x name, m at level 100, f at level 200).

Module mcp.

(** The values that the handlers encode: the response types of
    [pkg/types]. *)
Inductive Response :=
| ProcessesResponse (Processes : list ProcessInfo.t) (Count : Z)
| WindowsResponse (Windows : list WindowInfo.t) (Count : Z)
| PortsResponse (Ports : list PortInfo.t) (Count : Z)
| ResourceResponse (Usage : ResourceUsage.t)
| ServicesResponse (Services : list ServiceInfo.t) (Count : Z)
| ErrorResponse (Error : string).

Definition HandlerFunc : Type :=
  http.ResponseWriter → http.Request → M http.ResponseWriter.

(** [uint32(n)] *)
Definition uint32 (n : N) : N := (n mod 2 ^ 32)%N.

Section mcp.
Context (lib : GoLib) (w : World).
(** [json.Marshal], which the embedding leaves open. *)
Context (json_Marshal : Response → result string).

(** [json.NewEncoder(w).Encode(data)]: the encoding and a line feed, and
    nothing when the value cannot be encoded. *)
Definition Encode (data : Response) (rw : http.ResponseWriter)
  : http.ResponseWriter :=
  match json_Marshal data with
  | Ok text => http.Write (text +:+ LF) rw
  | Err _ => rw
  end.

Definition sendJSON (rw : http.ResponseWriter) (data : Response)
  : http.ResponseWriter :=
  let rw := http.WriteHeader http.StatusOK rw in
  Encode data rw.

Definition sendError (rw : http.ResponseWriter) (err : error)
  : http.ResponseWriter :=
  let rw := http.WriteHeader http.StatusInternalServerError rw in
  let response := ErrorResponse err in
  Encode response rw.

Definition handleProcesses : HandlerFunc := λ rw r,
  let rw := http.Header_Set "Content-Type" "application/json" rw in
  let* res := process_pkg.GetUserApplications w in
  match res with
  | (_, Some err) => ret (sendError rw err)
  | (procs, None) =>
      let response := ProcessesResponse procs (Z.of_nat (length procs)) in
      ret (sendJSON rw response)
  end.

Definition handleWindows : HandlerFunc := λ rw r,
  let rw := http.Header_Set "Content-Type" "application/json" rw in
  match window.GetOpenWindows w with
  | (_, Some err) => ret (sendError rw err)
  | (windows, None) =>
      let response := WindowsResponse windows (Z.of_nat (length windows)) in
      ret (sendJSON rw response)
  end.

Definition handlePorts : HandlerFunc := λ rw r,
  let rw := http.Header_Set "Content-Type" "application/json" rw in
  let portParam := http.Query r "port" in
  let pidParam := http.Query r "pid" in
  let respond (res : list PortInfo.t * option error) :=
    match res with
    | (_, Some err) => ret (sendError rw err)
    | (ports, None) =>
        let response := PortsResponse ports (Z.of_nat (length ports)) in
        ret (sendJSON rw response)
    end in
  if bool_decide (portParam ≠ "") then
    match strconv.ParseUint portParam 32 with
    | (_, Some parseErr) =>
        ret (sendError rw ("invalid port number: " +:+ parseErr))
    | (portNum, None) =>
        let* res := port.GetPortInfoByPort w (uint32 portNum) in respond res
    end
  else if bool_decide (pidParam ≠ "") then
    match strconv.ParseInt pidParam 32 with
    | (_, Some parseErr) => ret (sendError rw ("invalid PID: " +:+ parseErr))
    | (pid, None) =>
        let* res := port.GetPortsByPID w (int32 pid) in respond res
    end
  else
    let* res := port.GetOpenPorts w in respond res.

(** [*usage] panics on a nil [usage], which [GetProcessResourceUsage]
    does not return with a nil [err]. *)
Definition handleResource : HandlerFunc := λ rw r,
  let rw := http.Header_Set "Content-Type" "application/json" rw in
  let pidParam := http.Query r "pid" in
  if bool_decide (pidParam = "") then
    ret (sendError rw "pid parameter is required")
  else
    match strconv.ParseInt pidParam 32 with
    | (_, Some err) => ret (sendError rw ("invalid PID: " +:+ err))
    | (pid, None) =>
        match resource.GetProcessResourceUsage lib w (int32 pid) with
        | (_, Some err) => ret (sendError rw err)
        | (Some usage, None) =>
            let response := ResourceResponse usage in
            ret (sendJSON rw response)
        | (None, None) => panic
        end
    end.

Definition handleServices : HandlerFunc := λ rw r,
  let rw := http.Header_Set "Content-Type" "application/json" rw in
  match service.GetServices lib w with
  | (_, Some err) => ret (sendError rw err)
  | (services, None) =>
      let response :=
        ServicesResponse services (Z.of_nat (length services)) in
      ret (sendJSON rw response)
  end.

Definition handleHealth_body : string :=
  "{" +:+ DQUOTE +:+ "status" +:+ DQUOTE +:+ ":"
    +:+ DQUOTE +:+ "healthy" +:+ DQUOTE +:+ "}".

Definition handleHealth : HandlerFunc := λ rw r,
  let rw := http.Header_Set "Content-Type" "application/json" rw in
  let rw := http.WriteHeader http.StatusOK rw in
  ret (http.Write handleHealth_body rw).

Definition corsMiddleware (next : HandlerFunc) : HandlerFunc := λ rw r,
  let rw := http.Header_Set "Access-Control-Allow-Origin" "*" rw in
  let rw := http.Header_Set "Access-Control-Allow-Methods" "GET, OPTIONS" rw in
  let rw := http.Header_Set "Access-Control-Allow-Headers" "Content-Type" rw in
  if bool_decide (http.Method r = "OPTIONS") then
    ret (http.WriteHeader http.StatusOK rw)
  else next rw r.

(** The patterns that [Start] registers with the multiplexer, each with
    its handler. *)
Definition routes : list (string * HandlerFunc) :=
  [ ("/mcp/v1/processes", corsMiddleware handleProcesses);
    ("/mcp/v1/windows", corsMiddleware handleWindows);
    ("/mcp/v1/ports", corsMiddleware handlePorts);
    ("/mcp/v1/resource", corsMiddleware handleResource);
    ("/mcp/v1/services", corsMiddleware handleServices);
    ("/health", corsMiddleware handleHealth) ].

End mcp.
End mcp.

(* ================================================================== *)
(** * Vocabulary of the statements *)

(** ** Ports *)

(** What the inner loop of the sort does to the element at index [i]
    ([cur]) and to the elements after it: an element smaller than [cur]
    takes its place and leaves [cur] behind. *)
Fixpoint select_min (cur : PortInfo.t) (rest : list PortInfo.t)
  : PortInfo.t * list PortInfo.t :=
  match rest with
  | [] => (cur, [])
  | x :: rest' =>
      if (PortInfo.Port x <? PortInfo.Port cur)%N
      then let '(m, r) := select_min x rest' in (m, cur :: r)
      else let '(m, r) := select_min cur rest' in (m, x :: r)
  end.

(** Non-decreasing port numbers. *)
Definition port_sorted (ports : list PortInfo.t) : Prop :=
  StronglySorted (λ a b, (PortInfo.Port a ≤ PortInfo.Port b)%N) ports.

(** The record that the loop of [GetOpenPorts] builds for a connection. *)
Definition portInfo_of (w : World) (conn : net.ConnectionStat) : PortInfo.t := {|
  PortInfo.Port := net.Port (net.Laddr conn);
  PortInfo.Protocol := port.getProtocol conn;
  PortInfo.PID := net.Pid conn;
  PortInfo.Name := (port.procInfo w (net.Pid conn)).1;
  PortInfo.Path := (port.procInfo w (net.Pid conn)).2;
  PortInfo.State := net.Status conn;
  PortInfo.LocalIP := net.IP (net.Laddr conn) |}.

(** The raw LISTEN connections on the address [ip] and the port [port],
    in the order of the input. *)
Definition colliding (ip : string) (port : N)
    (connections : list net.ConnectionStat) : list net.ConnectionStat :=
  filter (λ c, net.Status c = "LISTEN"
               ∧ net.IP (net.Laddr c) = ip ∧ net.Port (net.Laddr c) = port)
    connections.

(** The tie-break in the words of the specification: the first entry
    that carries a process name, and the first entry when none does. *)
Definition winner (entries : list PortInfo.t) : option PortInfo.t :=
  match head (filter (λ r, PortInfo.Name r ≠ "") entries) with
  | Some r => Some r
  | None => head entries
  end.

(** What one more colliding entry does to the entry kept so far. *)
Definition tie_break (kept : option PortInfo.t) (r : PortInfo.t)
  : option PortInfo.t :=
  match kept with
  | Some existing =>
      if bool_decide (PortInfo.Name existing = "" ∧ PortInfo.Name r ≠ "")
      then Some r else Some existing
  | None => Some r
  end.

(** The key under which a record is stored. *)
Definition key_of (r : PortInfo.t) : string :=
  port.portKey (PortInfo.LocalIP r) (PortInfo.Port r).

Fixpoint has_colon (s : string) : bool :=
  match s with
  | "" => false
  | String c s' => bool_decide (c = ":"%char) || has_colon s'
  end.

(** ** Processes *)

(** Non-decreasing pids. *)
Definition pid_sorted (procs : list ProcessInfo.t) : Prop :=
  StronglySorted (λ a b, (ProcessInfo.PID a ≤ ProcessInfo.PID b)%Z) procs.

(** A name that starts with a system prefix of the platform, whatever
    the case of the letters. *)
Definition system_name (w : World) (name : string) : Prop :=
  ∃ prefix, prefix ∈ process_pkg.getSystemPrefixes w
            ∧ strings.HasPrefix (strings.ToLower name) (strings.ToLower prefix)
              = true.

(** A user that is a system account of the platform, whatever the case
    of the letters. *)
Definition system_account (os user : string) : Prop :=
  ∃ sysUser, sysUser ∈ process_pkg.getSystemUsers os
             ∧ strings.ToLower sysUser = strings.ToLower user.

(** ** Resource usage and services *)

(** The value lies between 0 and 100. *)
Definition within_0_100 (x : float64) : Prop :=
  SFleb f64_zero x = true ∧ SFleb x f64_100 = true.

(** The name, the status and the pid of a service record, and nothing
    else. *)
Definition strip (s : ServiceInfo.t) : ServiceInfo.t :=
  service.bare (ServiceInfo.Name s) (ServiceInfo.Status s) (ServiceInfo.PID s).

(** The same system with a resource sampler that finds no process. *)
Definition without_sampler (w : World) : World := {|
  GOOS := GOOS w;
  ConnectionsWithContext := ConnectionsWithContext w;
  ProcessesWithContext := ProcessesWithContext w;
  NewProcessWithContext := λ _, Err "process does not exist";
  Output := Output w |}.

(** ** Windows *)

(** A record with a title and an owner. *)
Definition nonblank (r : WindowInfo.t) : Prop :=
  WindowInfo.Title r ≠ "" ∧ WindowInfo.Process r ≠ "".

(** ** Top processes *)

(** What the inner loop of the sort of [GetTopProcesses] does to the
    element at index [i] ([cur]) and to the elements after it: an element
    that [cur] is less than takes its place and leaves [cur] behind. *)
Fixpoint select_top (less : ResourceUsage.t → ResourceUsage.t → bool)
    (cur : ResourceUsage.t) (rest : list ResourceUsage.t)
  : ResourceUsage.t * list ResourceUsage.t :=
  match rest with
  | [] => (cur, [])
  | x :: rest' =>
      if less cur x
      then let '(m, r) := select_top less x rest' in (m, cur :: r)
      else let '(m, r) := select_top less cur rest' in (m, x :: r)
  end.

(** No element is less than one that follows it. *)
Definition descending (less : ResourceUsage.t → ResourceUsage.t → bool)
    (usages : list ResourceUsage.t) : Prop :=
  StronglySorted (λ a b, less a b = false) usages.

(** The comparison that [sortBy] selects. *)
Definition less_by (sortBy : string)
  : ResourceUsage.t → ResourceUsage.t → bool :=
  if bool_decide (sortBy = "cpu") then resource.less_cpu
  else resource.less_memory.

(** All the usages that can be sampled, in the order of the sort: what
    [GetTopProcesses] holds before it cuts the list. *)
Definition all_usages (lib : GoLib) (w : World) (sortBy : string)
    (procs : list process.Process) : list ResourceUsage.t :=
  resource.sort_usages (less_by sortBy)
    (omap (resource.usage_of lib w) procs).

(** ** Formatting *)

(** The duration that the text of [FormatDuration] stands for: the
    seconds below one hour, the whole minutes below one day, the whole
    hours from there on. *)
Definition shown (seconds : N) : N :=
  if (seconds <? 3600)%N then seconds
  else if (seconds <? 86400)%N then (60 * (seconds / 60))%N
  else (3600 * (seconds / 3600))%N.

Definition is_digit (c : ascii) : bool :=
  match Ascii.is_nat c with Some _ => true | None => false end.

Fixpoint all_digits (s : string) : bool :=
  match s with
  | "" => true
  | String c s' => is_digit c && all_digits s'
  end.

(** ** Services *)

(** A service record carries its name, its status and its pid alone, or
    with them the figures of the resource usage of that pid. *)
Definition service_record (lib : GoLib) (w : World) (r : ServiceInfo.t)
  : Prop :=
  r = service.bare (ServiceInfo.Name r) (ServiceInfo.Status r)
        (ServiceInfo.PID r)
  ∨ ∃ usage,
      resource.GetProcessResourceUsage lib w (ServiceInfo.PID r)
      = (Some usage, None)
      ∧ r = service.sampled (ServiceInfo.Name r) (ServiceInfo.Status r)
              (ServiceInfo.PID r) usage.

(** ** The server *)

(** A response that has not been started. *)
Definition fresh : http.ResponseWriter :=
  {| http.Header := ∅; http.Status := None; http.Body := [] |}.

(** The headers that [corsMiddleware] sets. *)
Definition cors_headers : gmap string string :=
  <["Access-Control-Allow-Headers" := "Content-Type"]>
    (<["Access-Control-Allow-Methods" := "GET, OPTIONS"]>
       (<["Access-Control-Allow-Origin" := "*"]> ∅)).

(** The answer to a preflight request: the status 200 and no body. *)
Definition preflight_response : http.ResponseWriter :=
  {| http.Header := cors_headers;
     http.Status := Some 200%Z;
     http.Body := [] |}.

(** The response when the middleware hands a request on: its headers
    are set and nothing is sent. *)
Definition handed_on : http.ResponseWriter :=
  {| http.Header := cors_headers; http.Status := None; http.Body := [] |}.

(** The response when a handler has set its content type. *)
Definition started : http.ResponseWriter :=
  {| http.Header := <["Content-Type" := "application/json"]> cors_headers;
     http.Status := None;
     http.Body := [] |}.

(** An answer of a handler: a status, the headers with the content
    type, and a body. *)
Definition json_response (code : Z) (body : list string)
  : http.ResponseWriter :=
  {| http.Header := <["Content-Type" := "application/json"]> cors_headers;
     http.Status := Some code;
     http.Body := body |}.

(** What [Encode] writes for a value: its encoding and a line feed, or
    nothing. *)
Definition encoded (json_Marshal : mcp.Response → result string)
    (v : mcp.Response) : list string :=
  match json_Marshal v with
  | Ok text => [text +:+ LF]
  | Err _ => []
  end.

(** The answer for a result of the port package. *)
Definition ports_response (json_Marshal : mcp.Response → result string)
    (res : list PortInfo.t * option error) : http.ResponseWriter :=
  match res with
  | (_, Some err) =>
      json_response 500 (encoded json_Marshal (mcp.ErrorResponse err))
  | (ports, None) =>
      json_response 200
        (encoded json_Marshal
           (mcp.PortsResponse ports (Z.of_nat (length ports))))
  end.

(** ** Strings *)

(** A Unicode scalar value: a code point that is no surrogate. *)
Definition scalar (r : N) : Prop :=
  (r ≤ utf8.MaxRune)%N ∧ ¬ (0xD800 ≤ r ≤ 0xDFFF)%N.

(** The runes of a string, as a [range] over it yields them. *)
Fixpoint runes_go (skip : nat) (s : string) : list N :=
  match s with
  | "" => []
  | String _ s' =>
      match skip with
      | S k => runes_go k s'
      | O =>
          let '(c, width) := utf8.DecodeRuneInString s in
          c :: runes_go (width - 1) s'
      end
  end.

(** The encodings of a list of runes, one after the other. *)
Definition encode_all (rs : list N) : string :=
  foldr (λ r s, utf8.EncodeRune r +:+ s) "" rs.

(** The code points that an entry of [unicode.lower_ranges] maps. *)
Definition elements (e : N * N * N * N) : list N :=
  let '(lo, hi, stride, _) := e in
  (λ k, lo + N.of_nat k * stride)%N
    <$> seq 0 (N.to_nat ((hi - lo) / stride) + 1).

(** The lower case of a rune is a scalar value, and its own lower
    case. *)
Definition lower_ok (r : N) : bool :=
  (unicode.ToLower r <=? utf8.MaxRune)%N
  && negb ((0xD800 <=? unicode.ToLower r)%N
           && (unicode.ToLower r <=? 0xDFFF)%N)
  && (unicode.ToLower (unicode.ToLower r) =? unicode.ToLower r)%N.

(** A string of ASCII bytes. *)
Fixpoint ascii_only (s : string) : bool :=
  match s with
  | "" => true
  | String c s' => (N_of_ascii c <? 0x80)%N && ascii_only s'
  end.

(** The string holds the byte. *)
Fixpoint has_byte (b : ascii) (s : string) : bool :=
  match s with
  | "" => false
  | String c s' => bool_decide (c = b) || has_byte b s'
  end.

(* ================================================================== *)
(** * Example snapshots *)

(** A library for the examples.  Its formatting of floating-point
    numbers is a placeholder, and its decoder rejects its input, as
    [json.Unmarshal] rejects an empty output. *)
Definition lib_example : GoLib := {|
  Sprintf_2f := λ _, "0.00";
  math_Round := λ x, x;
  json_Unmarshal_slice := λ _, Err "unexpected end of JSON input";
  json_Unmarshal_object := λ _, Err "unexpected end of JSON input" |}.

Definition no_command : string → list string → result string :=
  λ _ _, Err "exec: executable file not found".

(** [150] is 0x1.2cp+7, [0.005] is 0x1.47ae147ae147bp-8 *)
Definition f64_150 : float64 := S754_finite false 5277655813324800 (-45).
Definition f64_0_005 : float64 := S754_finite false 5764607523034235 (-60).

(** A process that answers every query but the one for its open files:
    nginx, pid 77, owned by www, sampled at 150 percent of one
    processor. *)
Definition proc_nginx : process.Process := {|
  process.Pid := 77;
  process.NameWithContext := ("nginx", None);
  process.ExeWithContext := Ok "/usr/sbin/nginx";
  process.StatusWithContext := Ok ["S"];
  process.UsernameWithContext := Ok "www";
  process.CreateTimeWithContext := Ok 1700000000%Z;
  process.CPUPercentWithContext := (f64_150, None);
  process.MemoryPercentWithContext := (f32_zero, None);
  process.MemoryInfoWithContext := Ok (Some (process.mkMem 512 4096));
  process.NumThreadsWithContext := (4%Z, None);
  process.NumFDsWithContext := (0%Z, Some "not implemented") |}.

(** A process whose open files cannot be listed to the end: the query
    returns the count of those it has read, 3, and the error. *)
Definition proc_backup : process.Process := {|
  process.Pid := 88;
  process.NameWithContext := ("backup", None);
  process.ExeWithContext := Ok "/usr/bin/backup";
  process.StatusWithContext := Ok ["D"];
  process.UsernameWithContext := Ok "alice";
  process.CreateTimeWithContext := Ok 1700000000%Z;
  process.CPUPercentWithContext := (f64_zero, None);
  process.MemoryPercentWithContext := (f32_zero, None);
  process.MemoryInfoWithContext := Ok (Some (process.mkMem 2048 8192));
  process.NumThreadsWithContext := (2%Z, None);
  process.NumFDsWithContext := (3%Z, Some "readdirent: input/output error") |}.

(** A process of which the table tells the name, the path and the user,
    each unless the query fails, and no resource figure. *)
Definition proc_of (pid : Z) (name : string) (exe user : result string)
  : process.Process := {|
  process.Pid := pid;
  process.NameWithContext := (name, None);
  process.ExeWithContext := exe;
  process.StatusWithContext := Ok ["S"];
  process.UsernameWithContext := user;
  process.CreateTimeWithContext := Ok 1700000000%Z;
  process.CPUPercentWithContext := (f64_zero, Some "not implemented");
  process.MemoryPercentWithContext := (f32_zero, Some "not implemented");
  process.MemoryInfoWithContext := Err "access denied";
  process.NumThreadsWithContext := (0%Z, Some "not implemented");
  process.NumFDsWithContext := (0%Z, Some "not implemented") |}.

(** The process table of the specification: systemd of root with pid 100
    and Chrome of alice with pid 4000; and a Chrome of alice with pid 4001
    whose executable path the system refuses to tell. *)
Definition proc_chrome : process.Process :=
  proc_of 4000 "Chrome" (Ok "/usr/bin/chrome") (Ok "alice").
Definition proc_systemd : process.Process :=
  proc_of 100 "systemd" (Ok "/usr/lib/systemd/systemd") (Ok "root").
Definition proc_hidden : process.Process :=
  proc_of 4001 "Chrome" (Err "readlink: permission denied") (Ok "alice").

Definition record_chrome : ProcessInfo.t :=
  ProcessInfo.mk 4000 "Chrome" "/usr/bin/chrome" "S" "alice" "".



Definition record_nginx : ProcessInfo.t :=
  ProcessInfo.mk 77 "nginx" "/usr/sbin/nginx" "S" "www" "".

(** The resource usage of nginx: no open-file count, and a processor
    percentage above 100. *)
Definition usage_nginx : ResourceUsage.t :=
  ResourceUsage.mk 77 "nginx" f64_150 f32_zero 512 4096 "512 B" "100%" 4 0.

(** A handle can be had for nginx and for no other process. *)
Definition only_nginx (pid : Z) : result process.Process :=
  if bool_decide (pid = 77%Z) then Ok proc_nginx
  else Err "process does not exist".

Definition world_apps : World := {|
  GOOS := "linux";
  ConnectionsWithContext := Ok [];
  ProcessesWithContext := Ok [proc_chrome; proc_systemd; proc_hidden];
  NewProcessWithContext := only_nginx;
  Output := no_command |}.

Definition world_backup : World := {|
  GOOS := "linux";
  ConnectionsWithContext := Ok [];
  ProcessesWithContext := Ok [proc_backup];
  NewProcessWithContext := λ pid,
    if bool_decide (pid = 88%Z) then Ok proc_backup
    else Err "process does not exist";
  Output := no_command |}.


(** The socket table of the specification: two LISTEN sockets on
    0.0.0.0:8080, the first with no process and the second owned by nginx;
    with them an established connection and a LISTEN socket on port 22. *)
Definition conns_8080 : list net.ConnectionStat :=
  [ net.mkConn "LISTEN" (net.mkAddr "0.0.0.0" 8080) 0;
    net.mkConn "ESTABLISHED" (net.mkAddr "10.0.0.1" 443) 77;
    net.mkConn "LISTEN" (net.mkAddr "0.0.0.0" 8080) 77;
    net.mkConn "LISTEN" (net.mkAddr "127.0.0.1" 22) 12 ].

Definition world_8080 : World := {|
  GOOS := "linux";
  ConnectionsWithContext := Ok conns_8080;
  ProcessesWithContext := Ok [proc_chrome; proc_nginx];
  NewProcessWithContext := only_nginx;
  Output := no_command |}.

(** One result of [GetOpenPorts] there: the values of the map in the order
    of [map_to_list], sorted. *)
Definition ports_8080 : list PortInfo.t :=
  port.sort_by_port (map_to_list (port.portMap_of world_8080 conns_8080)).*2.

Definition record_8080 : PortInfo.t :=
  PortInfo.mk 8080 "TCP" 77 "nginx" "/usr/sbin/nginx" "LISTEN" "0.0.0.0".

Definition record_22 : PortInfo.t :=
  PortInfo.mk 22 "TCP" 12 "" "" "LISTEN" "127.0.0.1".

(** Two LISTEN sockets on 0.0.0.0 with the port number 0. *)
Definition conns_port0 : list net.ConnectionStat :=
  [ net.mkConn "LISTEN" (net.mkAddr "0.0.0.0" 0) 0;
    net.mkConn "LISTEN" (net.mkAddr "0.0.0.0" 0) 77 ].

Definition world_port0 : World := {|
  GOOS := "linux";
  ConnectionsWithContext := Ok conns_port0;
  ProcessesWithContext := Ok [proc_nginx];
  NewProcessWithContext := only_nginx;
  Output := no_command |}.

(** A macOS system with three services: nginx runs as pid 77, one does
    not run, and the process of the third, pid 4242, is gone. *)
Definition world_launchctl : World := {|
  GOOS := "darwin";
  ConnectionsWithContext := Ok [];
  ProcessesWithContext := Ok [proc_nginx];
  NewProcessWithContext := only_nginx;
  Output := λ name args,
    if bool_decide (name = "launchctl" ∧ args = ["list"]) then
      Ok ("PID	Status	Label" +:+ LF +:+
          "77	0	org.nginx" +:+ LF +:+
          "-	0	com.example.idle" +:+ LF +:+
          "4242	0	com.example.gone" +:+ LF)
    else no_command name args |}.

(** A Windows system whose service listing runs and prints nothing. *)
Definition world_windows : World := {|
  GOOS := "windows";
  ConnectionsWithContext := Ok [];
  ProcessesWithContext := Ok [];
  NewProcessWithContext := only_nginx;
  Output := λ name args,
    if bool_decide (name = "powershell"
                    ∧ args = ["-Command"; service.getWindowsServices_psScript])
    then Ok ""
    else no_command name args |}.

(** A Linux desktop with one window, of a process (pid 4242) that [ps]
    cannot show. *)
Definition world_wmctrl : World := {|
  GOOS := "linux";
  ConnectionsWithContext := Ok [];
  ProcessesWithContext := Ok [];
  NewProcessWithContext := only_nginx;
  Output := λ name args,
    if bool_decide (name = "wmctrl" ∧ args = ["-lp"]) then
      Ok ("0x03a00004  0 4242   host Terminal" +:+ LF)
    else no_command name args |}.

(** A Windows desktop with one window, whose title is a single space. *)
Definition world_blank_title : World := {|
  GOOS := "windows";
  ConnectionsWithContext := Ok [];
  ProcessesWithContext := Ok [];
  NewProcessWithContext := only_nginx;
  Output := λ name args,
    if bool_decide (name = "powershell"
                    ∧ args = ["-Command"; window.getWindowsWindows_psScript])
    then Ok ("812|explorer| " +:+ LF)
    else no_command name args |}.

(** Two LISTEN sockets on the port 80, on two addresses, neither with a
    known owner. *)
Definition conns_80 : list net.ConnectionStat :=
  [ net.mkConn "LISTEN" (net.mkAddr "0.0.0.0" 80) 0;
    net.mkConn "LISTEN" (net.mkAddr "127.0.0.1" 80) 0 ].

Definition world_80 : World := {|
  GOOS := "linux";
  ConnectionsWithContext := Ok conns_80;
  ProcessesWithContext := Ok [];
  NewProcessWithContext := only_nginx;
  Output := no_command |}.

Definition record_80 (ip : string) : PortInfo.t :=
  PortInfo.mk 80 "TCP" 0 "" "" "LISTEN" ip.

(** A process table with Chrome of alice, sshd of root, and a process
    named Systemd-helper of bob. *)
Definition proc_sshd : process.Process :=
  proc_of 900 "sshd" (Ok "/usr/sbin/sshd") (Ok "root").
Definition proc_helper : process.Process :=
  proc_of 950 "Systemd-helper" (Ok "/opt/helper") (Ok "bob").

Definition record_sshd : ProcessInfo.t :=
  ProcessInfo.mk 900 "sshd" "/usr/sbin/sshd" "S" "root" "".
Definition record_helper : ProcessInfo.t :=
  ProcessInfo.mk 950 "Systemd-helper" "/opt/helper" "S" "bob" "".

Definition world_owners : World := {|
  GOOS := "linux";
  ConnectionsWithContext := Ok [];
  ProcessesWithContext := Ok [proc_chrome; proc_sshd; proc_helper];
  NewProcessWithContext := only_nginx;
  Output := no_command |}.

(** A process of which the table tells the name, the processor share and
    the resident memory. *)
Definition proc_sampled (pid : Z) (name : string) (cpu : float64)
    (mem : result (option process.MemoryInfoStat)) : process.Process := {|
  process.Pid := pid;
  process.NameWithContext := (name, None);
  process.ExeWithContext := Err "readlink: permission denied";
  process.StatusWithContext := Ok ["S"];
  process.UsernameWithContext := Ok "alice";
  process.CreateTimeWithContext := Ok 1700000000%Z;
  process.CPUPercentWithContext := (cpu, None);
  process.MemoryPercentWithContext := (f32_zero, None);
  process.MemoryInfoWithContext := mem;
  process.NumThreadsWithContext := (1%Z, None);
  process.NumFDsWithContext := (3%Z, None) |}.

(** Three processes: an idle editor that holds 300 bytes, a busy
    compiler that holds 100 bytes, and a process whose memory the system
    refuses to tell. *)
Definition proc_editor : process.Process :=
  proc_sampled 1 "editor" f64_0_005 (Ok (Some (process.mkMem 300 900))).
Definition proc_compiler : process.Process :=
  proc_sampled 2 "compiler" f64_150 (Ok (Some (process.mkMem 100 200))).
Definition proc_secret : process.Process :=
  proc_sampled 3 "secret" f64_100 (Err "access denied").

Definition usage_editor : ResourceUsage.t :=
  ResourceUsage.mk 1 "editor" f64_0_005 f32_zero 300 900 "300 B" "< 0.01%" 1 3.
Definition usage_compiler : ResourceUsage.t :=
  ResourceUsage.mk 2 "compiler" f64_150 f32_zero 100 200 "100 B" "100%" 1 3.

Definition world_top : World := {|
  GOOS := "linux";
  ConnectionsWithContext := Ok [];
  ProcessesWithContext := Ok [proc_editor; proc_compiler; proc_secret];
  NewProcessWithContext := λ pid,
    if bool_decide (pid = 1%Z) then Ok proc_editor
    else if bool_decide (pid = 2%Z) then Ok proc_compiler
    else if bool_decide (pid = 3%Z) then Ok proc_secret
    else Err "process does not exist";
  Output := no_command |}.

(** A macOS desktop with one window.  The first script prints its list
    as [osascript] prints lists, with a comma and a space between the
    items; the second script prints one line for the window. *)
Definition world_osascript : World := {|
  GOOS := "darwin";
  ConnectionsWithContext := Ok [];
  ProcessesWithContext := Ok [];
  NewProcessWithContext := only_nginx;
  Output := λ name args,
    if bool_decide (name = "osascript"
                    ∧ args = ["-e"; window.getMacOSWindows_script]) then
      Ok ("Safari, Start Page, 501" +:+ LF)
    else if bool_decide (name = "osascript"
                         ∧ args = ["-e"; window.getMacOSWindowsAlt_script]) then
      Ok ("Safari|Start Page|501" +:+ LF)
    else no_command name args |}.

(** An encoder for the examples: it tells the kind of the value and
    nothing else. *)
Definition marshal_example (v : mcp.Response) : result string :=
  match v with
  | mcp.ProcessesResponse _ _ => Ok "processes"
  | mcp.WindowsResponse _ _ => Ok "windows"
  | mcp.PortsResponse _ _ => Ok "ports"
  | mcp.ResourceResponse _ => Ok "usage"
  | mcp.ServicesResponse _ _ => Ok "services"
  | mcp.ErrorResponse _ => Ok "error"
  end.

(** Requests: the method and the parameters [port] and [pid]. *)
Definition request (method port pid : string) : http.Request := {|
  http.Method := method;
  http.Query := λ key,
    if bool_decide (key = "port") then port
    else if bool_decide (key = "pid") then pid
    else "" |}.

(* ================================================================== *)
(** * Tactics *)

(** The [switch] on [runtime.GOOS], case by case: darwin, linux, windows,
    and any other system. *)
Ltac switch_GOOS w :=
  destruct (decide (GOOS w = "darwin")) as [?Hos|?Hos];
  [ rewrite (bool_decide_true (GOOS w = "darwin")) by done
  | rewrite (bool_decide_false (GOOS w = "darwin")) by done;
    destruct (decide (GOOS w = "linux")) as [?Hos|?Hos];
    [ rewrite (bool_decide_true (GOOS w = "linux")) by done
    | rewrite (bool_decide_false (GOOS w = "linux")) by done;
      destruct (decide (GOOS w = "windows")) as [?Hos|?Hos];
      [ rewrite (bool_decide_true (GOOS w = "windows")) by done
      | rewrite (bool_decide_false (GOOS w = "windows")) by done ] ] ].

(** A test of the code that guards a record: the case in which it
    holds, with its two halves. *)
Ltac guard_holds Ha Ht :=
  let Hb := fresh "Hb" in
  match goal with
  | |- (if ?b then _ else _) = _ → _ => destruct b eqn:Hb; [|done]
  end;
  apply andb_true_iff in Hb as [Ha Ht].

(** Linear arithmetic with quotients and remainders by constants. *)
Ltac lia_div := zify; Z.to_euclidean_division_equations; lia.

Ltac plain t :=
  lazymatch t with
  | context [if _ then _ else _] => fail
  | _ => idtac
  end.

(** A comparison of numbers in the goal, case by case; the cases that
    the hypotheses exclude are closed. *)
Ltac branch :=
  match goal with
  | |- context [(?a <? ?b)%N] => plain a; plain b; destruct (N.ltb_spec a b)
  | |- context [(?a <=? ?b)%N] => plain a; plain b; destruct (N.leb_spec a b)
  | |- context [(?a =? ?b)%N] => plain a; plain b; destruct (N.eqb_spec a b)
  end; try (exfalso; lia_div); cbn [orb andb].

(** The number of a byte, under a name of its own. *)
Ltac name_byte c :=
  let n := fresh "n" in
  let Hc := fresh "Hc" in
  let Hb := fresh "Hb" in
  pose proof (N_ascii_bounded c) as Hb;
  pose proof (ascii_N_embedding c) as Hc;
  revert Hc Hb; generalize (N_of_ascii c); intros n Hc Hb.

(** The byte of a number that equals the number of a named byte. *)
Ltac same_byte :=
  match goal with
  | H : ascii_of_N ?n = ?c |- ascii_of_N _ = ?c =>
      rewrite <- H; f_equal; lia_div
  end.

(* ================================================================== *)
(** * The sort of [GetOpenPorts] *)

Section sort_by_port.

Lemma select_min_spec cur rest :
  (select_min cur rest).1 :: (select_min cur rest).2 ≡ₚ cur :: rest
  ∧ Forall (λ x, (PortInfo.Port (select_min cur rest).1 ≤ PortInfo.Port x)%N)
      (cur :: (select_min cur rest).2).
Proof.
  revert cur. induction rest as [|x rest IH]; intros cur; simpl.
  - split; [done|]. repeat constructor. lia.
  - destruct (N.ltb_spec (PortInfo.Port x) (PortInfo.Port cur)) as [Hlt|Hge].
    + destruct (IH x) as [Hp Hall].
      destruct (select_min x rest) as [m r]; simpl in *.
      split.
      * etrans; [apply Permutation_swap|]. by f_equiv.
      * inversion Hall as [|?? Hx Hr]; subst.
        constructor; [lia|]. constructor; [lia|done].
    + destruct (IH cur) as [Hp Hall].
      destruct (select_min cur rest) as [m r]; simpl in *.
      split.
      * etrans; [apply Permutation_swap|].
        etrans; [|apply Permutation_swap]. by f_equiv.
      * inversion Hall as [|?? Hx Hr]; subst.
        constructor; [done|]. constructor; [lia|done].
Qed.

Lemma select_min_length cur rest :
  length (select_min cur rest).2 = length rest.
Proof.
  revert cur. induction rest as [|x rest IH]; intros cur; simpl; [done|].
  destruct (PortInfo.Port x <? PortInfo.Port cur)%N.
  - specialize (IH x). destruct (select_min x rest); simpl in *. lia.
  - specialize (IH cur). destruct (select_min cur rest); simpl in *. lia.
Qed.

(** The inner loop, run from index [i + 1 + length mid] to the end. *)
Lemma sort_inner_loop (pre : list PortInfo.t) cur mid rest :
  foldl (port.swap_if_greater (length pre)) (pre ++ cur :: mid ++ rest)
    (seq (S (length pre) + length mid) (length rest))
  = pre ++ (select_min cur rest).1 :: mid ++ (select_min cur rest).2.
Proof.
  revert cur mid. induction rest as [|x rest IH]; intros cur mid; simpl.
  - done.
  - assert (Hi : (pre ++ cur :: mid ++ x :: rest) !! length pre = Some cur).
    { by rewrite list_lookup_middle. }
    assert (Hj : (pre ++ cur :: mid ++ x :: rest) !! S (length pre + length mid)
                 = Some x).
    { rewrite lookup_app_r by lia.
      replace (S (length pre + length mid) - length pre)
        with (S (length mid)) by lia.
      simpl. by rewrite list_lookup_middle. }
    unfold port.swap_if_greater at 2. rewrite Hi, Hj.
    replace (S (S (length pre + length mid)))
      with (S (length pre) + length (mid ++ [x])) by (rewrite length_app; simpl; lia).
    destruct (PortInfo.Port x <? PortInfo.Port cur)%N.
    + assert (Hsw : <[S (length pre + length mid) := cur]>
                      (<[length pre := x]> (pre ++ cur :: mid ++ x :: rest))
                    = pre ++ x :: (mid ++ [cur]) ++ rest).
      { rewrite insert_app_r_alt by lia.
        replace (length pre - length pre) with 0 by lia. simpl.
        rewrite insert_app_r_alt by lia.
        replace (S (length pre + length mid) - length pre)
          with (S (length mid)) by lia.
        simpl. f_equal. f_equal.
        rewrite insert_app_r_alt by lia.
        replace (length mid - length mid) with 0 by lia. simpl.
        by rewrite <- app_assoc. }
      rewrite Hsw.
      replace (length (mid ++ [x])) with (length (mid ++ [cur]))
        by (rewrite !length_app; done).
      rewrite IH. destruct (select_min x rest) as [m r]; simpl.
      by rewrite <- app_assoc.
    + replace (pre ++ cur :: mid ++ x :: rest)
        with (pre ++ cur :: (mid ++ [x]) ++ rest)
        by (by rewrite <- app_assoc).
      rewrite IH. destruct (select_min cur rest) as [m r]; simpl.
      by rewrite <- app_assoc.
Qed.

Lemma sort_inner_select (pre : list PortInfo.t) cur rest :
  port.sort_inner (pre ++ cur :: rest) (length pre)
  = pre ++ (select_min cur rest).1 :: (select_min cur rest).2.
Proof.
  unfold port.sort_inner.
  replace (length (pre ++ cur :: rest) - S (length pre)) with (length rest)
    by (rewrite length_app; simpl; lia).
  pose proof (sort_inner_loop pre cur [] rest) as H. simpl in H.
  by rewrite Nat.add_0_r in H.
Qed.

(** The outer loop from index [length pre] on leaves [pre] in place and
    sorts what follows it. *)
Lemma sort_outer_loop n : ∀ (pre l : list PortInfo.t),
  length l = n →
  ∃ l', foldl port.sort_inner (pre ++ l) (seq (length pre) (n - 1)) = pre ++ l'
        ∧ l' ≡ₚ l ∧ port_sorted l'.
Proof.
  induction n as [|n IH]; intros pre l Hlen.
  - destruct l; [|done]. exists []. repeat split; constructor.
  - destruct l as [|cur rest]; [done|]. simpl in Hlen.
    destruct n as [|n].
    + destruct rest; [|done]. exists [cur]. simpl.
      repeat split; repeat constructor.
    + replace (S (S n) - 1) with (S n) by lia. simpl seq. simpl foldl.
      rewrite sort_inner_select.
      destruct (select_min_spec cur rest) as [Hp Hall].
      pose proof (select_min_length cur rest) as Hl.
      destruct (select_min cur rest) as [m r]; simpl in *.
      destruct (IH (pre ++ [m]) r) as (r' & Heq & Hp' & Hs'); [lia|].
      exists (m :: r'). rewrite Nat.sub_0_r in Heq.
      rewrite length_app in Heq. simpl length in Heq.
      replace (length pre + 1) with (S (length pre)) in Heq by lia.
      rewrite <- app_assoc in Heq. simpl app in Heq.
      rewrite Heq, <- app_assoc. simpl. split; [done|]. split.
      * by rewrite Hp', Hp.
      * constructor; [done|]. inversion Hall as [|?? _ Hr]; subst.
        by rewrite Hp'.
Qed.

Lemma sort_by_port_spec (ports : list PortInfo.t) :
  port.sort_by_port ports ≡ₚ ports ∧ port_sorted (port.sort_by_port ports).
Proof.
  destruct (sort_outer_loop (length ports) [] ports eq_refl) as (l' & Heq & Hp & Hs).
  unfold port.sort_by_port. simpl in Heq. rewrite Heq. done.
Qed.

End sort_by_port.

(* ================================================================== *)
(** * The map of [GetOpenPorts] *)

Section portMap.
Context (w : World).

Lemma pretty_N_go_colon x s : has_colon (pretty_N_go x s) = has_colon s.
Proof.
  revert s. induction (N.lt_wf_0 x) as [x _ IH]; intros s.
  destruct (decide (x = 0%N)) as [->|Hx]; [done|].
  rewrite pretty_N_go_step by lia.
  rewrite IH by (apply N.div_lt; lia). simpl.
  unfold pretty_N_char. by repeat case_match.
Qed.

Lemma pretty_N_colon (x : N) : has_colon (pretty x) = false.
Proof.
  unfold pretty, pretty_N. case_decide; [done|]. by rewrite pretty_N_go_colon.
Qed.

Lemma string_app_nil (s : string) : "" +:+ s = s.
Proof. reflexivity. Qed.

Lemma string_app_cons c (s1 s2 : string) :
  String c s1 +:+ s2 = String c (s1 +:+ s2).
Proof. reflexivity. Qed.

Lemma has_colon_app s1 s2 : has_colon (s1 +:+ ":" +:+ s2) = true.
Proof.
  induction s1 as [|c s1 IH]; [reflexivity|].
  change (has_colon (String c (s1 +:+ ":" +:+ s2)) = true). simpl.
  by rewrite IH, orb_true_r.
Qed.

Lemma last_colon_inj s1 s2 d1 d2 :
  has_colon d1 = false → has_colon d2 = false →
  s1 +:+ ":" +:+ d1 = s2 +:+ ":" +:+ d2 → s1 = s2 ∧ d1 = d2.
Proof.
  intros H1 H2. revert s2.
  induction s1 as [|c s1 IH]; intros [|c' s2] Heq.
  - injection Heq as Heq. split; [done|exact Heq].
  - injection Heq as _ Heq. change (d1 = s2 +:+ ":" +:+ d2) in Heq.
    rewrite Heq, has_colon_app in H1. done.
  - injection Heq as _ Heq. change (s1 +:+ ":" +:+ d1 = d2) in Heq.
    rewrite <- Heq, has_colon_app in H2. done.
  - injection Heq as -> Heq. destruct (IH _ Heq) as [-> ->]. done.
Qed.

Lemma portKey_inj ip1 p1 ip2 p2 :
  port.portKey ip1 p1 = port.portKey ip2 p2 → ip1 = ip2 ∧ p1 = p2.
Proof.
  unfold port.portKey. intros Heq.
  apply last_colon_inj in Heq as [-> Hp]; try apply pretty_N_colon.
  split; [done|]. by apply (inj pretty).
Qed.

(** One iteration, read at a key. *)
Lemma collect_lookup (m : gmap string PortInfo.t) c k :
  port.collect w m c !! k
  = if bool_decide (net.Status c = "LISTEN" ∧ net.Port (net.Laddr c) ≠ 0%N
                    ∧ key_of (portInfo_of w c) = k)
    then tie_break (m !! k) (portInfo_of w c)
    else m !! k.
Proof.
  unfold port.collect, portInfo_of, key_of. simpl.
  destruct (port.procInfo w (net.Pid c)) as [procName exePath]; simpl.
  destruct (decide (net.Status c = "LISTEN")) as [Hs|Hs].
  2: { rewrite bool_decide_true by done. by rewrite bool_decide_false by tauto. }
  rewrite (bool_decide_false (_ ≠ _)) by tauto.
  destruct (decide (net.Port (net.Laddr c) = 0%N)) as [Hp|Hp].
  { rewrite bool_decide_true by done. by rewrite bool_decide_false by tauto. }
  rewrite (bool_decide_false (_ = 0%N)) by done.
  set (key := port.portKey _ _).
  destruct (decide (key = k)) as [<-|Hk].
  - rewrite (bool_decide_true (_ ∧ _ ∧ _)) by done.
    destruct (m !! key) as [existing|] eqn:Hm; simpl.
    + case_bool_decide; [by rewrite lookup_insert_eq|done].
    + by rewrite lookup_insert_eq.
  - rewrite (bool_decide_false (_ ∧ _ ∧ _)) by tauto.
    destruct (m !! key) as [existing|]; [case_bool_decide|];
      by rewrite ?lookup_insert_ne.
Qed.

(** The entry for a key after the whole loop: the tie-break, folded over
    the connections that the loop stores under that key. *)
Lemma portMap_lookup connections : ∀ (m : gmap string PortInfo.t) k,
  foldl (port.collect w) m connections !! k
  = foldl tie_break (m !! k)
      (portInfo_of w <$>
         filter (λ c, net.Status c = "LISTEN" ∧ net.Port (net.Laddr c) ≠ 0%N
                      ∧ key_of (portInfo_of w c) = k) connections).
Proof.
  induction connections as [|c connections IH]; intros m k; simpl; [done|].
  rewrite IH, collect_lookup. rewrite filter_cons.
  case_decide; case_bool_decide; done.
Qed.

Lemma tie_break_Some existing entries :
  foldl tie_break (Some existing) entries
  = Some (if decide (PortInfo.Name existing = "")
          then default existing
                 (head (filter (λ r, PortInfo.Name r ≠ "") entries))
          else existing).
Proof.
  revert existing. induction entries as [|r entries IH]; intros existing; simpl.
  - by case_decide.
  - rewrite filter_cons.
    destruct (decide (PortInfo.Name existing = "")) as [He|He];
      destruct (decide (PortInfo.Name r ≠ "")) as [Hr|Hr]; simpl.
    + rewrite bool_decide_true by done. rewrite IH. by rewrite decide_False.
    + rewrite bool_decide_false by tauto. rewrite IH. by rewrite decide_True.
    + rewrite bool_decide_false by tauto. rewrite IH. by rewrite decide_False.
    + rewrite bool_decide_false by tauto. rewrite IH. by rewrite decide_False.
Qed.

Lemma tie_break_winner entries : foldl tie_break None entries = winner entries.
Proof.
  destruct entries as [|r entries]; [done|]. simpl.
  rewrite tie_break_Some. unfold winner. rewrite filter_cons.
  destruct (decide (PortInfo.Name r = "")) as [Hr|Hr].
  - rewrite decide_False by tauto.
    by destruct (head (filter _ entries)).
  - by rewrite decide_True.
Qed.

Lemma winner_elem_of entries r : winner entries = Some r → r ∈ entries.
Proof.
  unfold winner.
  destruct (head (filter _ entries)) as [r'|] eqn:Hh.
  - intros [= <-]. apply head_Some_elem_of in Hh.
    by apply list_elem_of_filter in Hh as [_ ?].
  - apply head_Some_elem_of.
Qed.

(** Every entry of the map is the record of a LISTEN connection with a
    port other than 0, stored under its own key. *)
Lemma portMap_entry connections k r :
  port.portMap_of w connections !! k = Some r →
  key_of r = k ∧
  ∃ c, c ∈ connections ∧ net.Status c = "LISTEN"
       ∧ net.Port (net.Laddr c) ≠ 0%N ∧ r = portInfo_of w c.
Proof.
  unfold port.portMap_of. rewrite portMap_lookup, lookup_empty, tie_break_winner.
  intros Hw%winner_elem_of.
  apply list_elem_of_fmap in Hw as (c & -> & Hc).
  apply list_elem_of_filter in Hc as [(Hs & Hp & Hk) Hc]. eauto 10.
Qed.

(** The values stored under keys that they determine: those with a
    given key are the entry at that key and nothing else. *)
Lemma values_at_key (m : gmap string PortInfo.t) k :
  (∀ k' r, m !! k' = Some r → key_of r = k') →
  filter (λ r, key_of r = k) (map_to_list m).*2 ≡ₚ option_list (m !! k).
Proof.
  induction m as [|k' r m Hk' IH] using map_ind; intros Hkeys.
  - by rewrite map_to_list_empty, lookup_empty.
  - rewrite map_to_list_insert by done. simpl. rewrite filter_cons.
    assert (Hr : key_of r = k') by (apply Hkeys; by rewrite lookup_insert_eq).
    assert (Hm : ∀ k'' r', m !! k'' = Some r' → key_of r' = k'').
    { intros k'' r' Hl. apply Hkeys. rewrite lookup_insert_ne; [done|].
      intros ->. congruence. }
    destruct (decide (k' = k)) as [->|Hne].
    + rewrite decide_True by done. by rewrite (IH Hm), lookup_insert_eq, Hk'.
    + rewrite decide_False by congruence. by rewrite (IH Hm), lookup_insert_ne.
Qed.

Lemma GetOpenPorts_inv ports :
  port.GetOpenPorts w (ports, None) →
  ∃ connections,
    ConnectionsWithContext w = Ok connections
    ∧ ports ≡ₚ (map_to_list (port.portMap_of w connections)).*2
    ∧ port_sorted ports.
Proof.
  inversion 1 as [|connections ports' Hc Hp]; subst.
  destruct (sort_by_port_spec ports') as [Hperm Hsorted].
  exists connections. split; [done|]. split; [by etrans|done].
Qed.

Lemma GetOpenPorts_err_inv ports e :
  port.GetOpenPorts w (ports, Some e) →
  ConnectionsWithContext w = Err e ∧ ports = [].
Proof. by inversion 1. Qed.

(** Every record of the result is the record of a LISTEN connection of
    the input with a port other than 0. *)
Lemma GetOpenPorts_elem_of ports err r :
  port.GetOpenPorts w (ports, err) → r ∈ ports →
  ∃ connections c,
    ConnectionsWithContext w = Ok connections ∧ c ∈ connections
    ∧ net.Status c = "LISTEN" ∧ net.Port (net.Laddr c) ≠ 0%N
    ∧ r = portInfo_of w c.
Proof.
  destruct err as [e|].
  - intros [_ ->]%GetOpenPorts_err_inv Hr. by apply elem_of_nil in Hr.
  - intros (connections & Hc & Hp & _)%GetOpenPorts_inv Hr.
    rewrite Hp in Hr. apply list_elem_of_fmap in Hr as ([k r'] & -> & Hr).
    apply elem_of_map_to_list in Hr.
    apply portMap_entry in Hr as (_ & c & Hin & Hs & Hp0 & ->).
    by exists connections, c.
Qed.

(** The call returns: whatever the socket table answers, there is a
    result. *)
Lemma GetOpenPorts_total : ∃ res, port.GetOpenPorts w res.
Proof.
  destruct (ConnectionsWithContext w) as [connections|e] eqn:Hc.
  - eexists. by eapply port.GetOpenPorts_ok.
  - eexists. by eapply port.GetOpenPorts_err.
Qed.

(** The results of the call are its runs, one for each order in which
    the map may be ranged over. *)
Lemma GetOpenPorts_runs res :
  port.GetOpenPorts w res
  ↔ ∃ range, (∀ m, range m ≡ₚ (map_to_list m).*2)
             ∧ res = port.GetOpenPorts_with w range.
Proof.
  unfold port.GetOpenPorts_with. split.
  - inversion 1 as [e He|connections ports Hc Hp]; subst.
    + exists (λ m, (map_to_list m).*2). split; [done|]. by rewrite He.
    + exists (λ m, if decide (m = port.portMap_of w connections)
                   then ports else (map_to_list m).*2).
      split; [intros m; by case_decide; subst|].
      rewrite Hc. simpl. by rewrite decide_True.
  - intros (range & Hrange & ->).
    destruct (ConnectionsWithContext w) as [connections|e] eqn:Hc.
    + by eapply port.GetOpenPorts_ok.
    + by eapply port.GetOpenPorts_err.
Qed.

Lemma filtered_inv (res : list PortInfo.t * option error) :
  port.GetOpenPorts w res
  ∨ (∃ n, port.GetPortInfoByPort w n res)
  ∨ (∃ pid, port.GetPortsByPID w pid res) →
  ∃ allPorts err, port.GetOpenPorts w (allPorts, err) ∧ res.1 ⊆ allPorts.
Proof.
  intros [H|[[n H]|[pid H]]].
  - destruct res as [ports err]. by exists ports, err.
  - inversion H as [allPorts e Hall|allPorts Hall]; subst; simpl.
    + exists allPorts, (Some e). split; [done|]. apply list_subseteq_nil.
    + exists allPorts, None. split; [done|].
      intros r Hr. by apply list_elem_of_filter in Hr as [_ ?].
  - inversion H as [allPorts e Hall|allPorts Hall]; subst; simpl.
    + exists allPorts, (Some e). split; [done|]. apply list_subseteq_nil.
    + exists allPorts, None. split; [done|].
      intros r Hr. by apply list_elem_of_filter in Hr as [_ ?].
Qed.

(** The records of the result on an address and a port other than 0:
    the winner of the tie-break among the LISTEN connections on them. *)
Lemma GetOpenPorts_at_key connections ports ip port :
  ConnectionsWithContext w = Ok connections →
  port.GetOpenPorts w (ports, None) →
  port ≠ 0%N →
  filter (λ r, PortInfo.LocalIP r = ip ∧ PortInfo.Port r = port) ports
  = option_list (winner (portInfo_of w <$> colliding ip port connections)).
Proof.
  intros Hc (connections' & Hc' & Hperm & _)%GetOpenPorts_inv Hport.
  assert (connections' = connections) as -> by congruence.
  assert (Hm : port.portMap_of w connections !! port.portKey ip port
               = winner (portInfo_of w <$> colliding ip port connections)).
  { unfold port.portMap_of.
    rewrite portMap_lookup, lookup_empty, tie_break_winner.
    do 2 f_equal. apply list_filter_iff. intros c. unfold key_of. simpl.
    split.
    - intros (Hs & _ & [-> ->]%portKey_inj). done.
    - intros (Hs & <- & <-). done. }
  assert (Hf : filter (λ r, PortInfo.LocalIP r = ip ∧ PortInfo.Port r = port) ports
               ≡ₚ option_list (port.portMap_of w connections
                                 !! port.portKey ip port)).
  { rewrite Hperm. rewrite <- values_at_key.
    - erewrite list_filter_iff; [done|]. intros r. unfold key_of. split.
      + by intros [-> ->].
      + by intros ?%portKey_inj.
    - intros k r Hr. by apply portMap_entry in Hr as [? _]. }
  rewrite Hm in Hf. destruct (winner _) as [r|]; simpl in *.
  - by apply Permutation_singleton_r.
  - by apply Permutation_nil_r.
Qed.

Lemma winner_pair a b :
  winner [a; b]
  = Some (if bool_decide (PortInfo.Name a = "" ∧ PortInfo.Name b ≠ "")
          then b else a).
Proof.
  unfold winner. rewrite !filter_cons, filter_nil.
  destruct (decide (PortInfo.Name a = "")) as [Ha|Ha].
  - rewrite decide_False by tauto.
    destruct (decide (PortInfo.Name b = "")) as [Hb|Hb].
    + rewrite decide_False by tauto. by rewrite bool_decide_false by tauto.
    + rewrite decide_True by done. by rewrite bool_decide_true.
  - rewrite decide_True by done. by rewrite bool_decide_false by tauto.
Qed.

End portMap.

(* ================================================================== *)
(** * Open ports: the properties of the specification *)

Lemma GetOpenPorts_world_8080 : port.GetOpenPorts world_8080 (ports_8080, None).
Proof. by apply (port.GetOpenPorts_ok world_8080 conns_8080). Defined.

Lemma ports_8080_eq : ports_8080 = [record_22; record_8080].
Proof. vm_compute. reflexivity. Qed.

(** C2. Every record that [GetOpenPorts], [GetPortInfoByPort] or
    [GetPortsByPID] returns has the socket state LISTEN, and it is the
    record of a connection of the input whose status is LISTEN: no record
    stands for a connection in another state. *)
Theorem GetOpenPorts_listen_only (w : World)
    (res : list PortInfo.t * option error) (r : PortInfo.t) :
  port.GetOpenPorts w res
  ∨ (∃ n, port.GetPortInfoByPort w n res)
  ∨ (∃ pid, port.GetPortsByPID w pid res) →
  r ∈ res.1 →
  PortInfo.State r = "LISTEN"
  ∧ ∃ connections c,
      ConnectionsWithContext w = Ok connections ∧ c ∈ connections
      ∧ net.Status c = "LISTEN" ∧ r = portInfo_of w c.
Proof.
  intros (allPorts & err & Hall & Hsub)%filtered_inv Hr.
  apply Hsub in Hr.
  destruct (GetOpenPorts_elem_of w _ _ _ Hall Hr)
    as (connections & c & Hc & Hin & Hs & _ & ->).
  split; [done|]. by exists connections, c.
Qed.

Lemma GetOpenPorts_listen_only_witness :
  PortInfo.State record_8080 = "LISTEN"
  ∧ ∃ connections c,
      ConnectionsWithContext world_8080 = Ok connections ∧ c ∈ connections
      ∧ net.Status c = "LISTEN" ∧ record_8080 = portInfo_of world_8080 c.
Proof.
  apply (GetOpenPorts_listen_only world_8080 (ports_8080, None) record_8080).
  - left. exact GetOpenPorts_world_8080.
  - simpl. rewrite ports_8080_eq. apply list_elem_of_further, list_elem_of_here.
Defined.

(** C10. Every record of [GetOpenPorts] has the protocol TCP:
    [getProtocol] answers UDP only for a status that contains udp in
    lower case, and the status of a retained connection is LISTEN. *)
Theorem GetOpenPorts_protocol_TCP (w : World)
    (ports : list PortInfo.t) (err : option error) (r : PortInfo.t) :
  port.GetOpenPorts w (ports, err) → r ∈ ports →
  PortInfo.Protocol r = "TCP".
Proof.
  intros Hall Hr.
  destruct (GetOpenPorts_elem_of w _ _ _ Hall Hr)
    as (connections & c & Hc & Hin & Hs & _ & ->).
  simpl. unfold port.getProtocol. by rewrite Hs.
Qed.

Lemma GetOpenPorts_protocol_TCP_witness : PortInfo.Protocol record_22 = "TCP".
Proof.
  apply (GetOpenPorts_protocol_TCP world_8080 ports_8080 None record_22).
  - exact GetOpenPorts_world_8080.
  - rewrite ports_8080_eq. apply list_elem_of_here.
Defined.

(** [getProtocol] reads the status alone. *)
Lemma getProtocol_UDP conn :
  port.getProtocol conn = "UDP"
  ↔ strings.Contains (strings.ToLower (net.Status conn)) "udp" = true.
Proof. unfold port.getProtocol. by destruct (strings.Contains _ _). Qed.

(** C5. [GetPortInfoByPort n] returns the records of the result of
    [GetOpenPorts] whose port number is [n], and [GetPortsByPID p] those
    whose pid is [p]: in the same order, each as often as there, and no
    other record. *)
Theorem port_filters_exact (w : World) :
  (∀ n filtered,
     port.GetPortInfoByPort w n (filtered, None) →
     ∃ allPorts,
       port.GetOpenPorts w (allPorts, None)
       ∧ filtered = filter (λ p, PortInfo.Port p = n) allPorts
       ∧ filtered ⊆ allPorts
       ∧ ∀ p, p ∈ filtered ↔ p ∈ allPorts ∧ PortInfo.Port p = n)
  ∧ (∀ pid filtered,
     port.GetPortsByPID w pid (filtered, None) →
     ∃ allPorts,
       port.GetOpenPorts w (allPorts, None)
       ∧ filtered = filter (λ p, PortInfo.PID p = pid) allPorts
       ∧ filtered ⊆ allPorts
       ∧ ∀ p, p ∈ filtered ↔ p ∈ allPorts ∧ PortInfo.PID p = pid).
Proof.
  split.
  - intros n filtered H. inversion H as [|allPorts Hall]; subst.
    exists allPorts. split; [done|]. split; [done|]. split.
    + intros p Hp. by apply list_elem_of_filter in Hp as [_ ?].
    + intros p. rewrite list_elem_of_filter. tauto.
  - intros pid filtered H. inversion H as [|allPorts Hall]; subst.
    exists allPorts. split; [done|]. split; [done|]. split.
    + intros p Hp. by apply list_elem_of_filter in Hp as [_ ?].
    + intros p. rewrite list_elem_of_filter. tauto.
Qed.

(** The filtered calls return whenever [GetOpenPorts] does, and fail
    with its error. *)
Lemma port_filters_total (w : World) n pid :
  (∃ res, port.GetPortInfoByPort w n res)
  ∧ (∃ res, port.GetPortsByPID w pid res).
Proof.
  destruct (GetOpenPorts_total w) as [[allPorts [e|]] H].
  - split; eexists; [by eapply port.GetPortInfoByPort_err
                    |by eapply port.GetPortsByPID_err].
  - split; eexists; [by eapply port.GetPortInfoByPort_ok
                    |by eapply port.GetPortsByPID_ok].
Qed.

Example GetPortInfoByPort_8080 :
  port.GetPortInfoByPort world_8080 8080 ([record_8080], None).
Proof.
  pose proof (port.GetPortInfoByPort_ok world_8080 8080 _
                GetOpenPorts_world_8080) as H.
  by rewrite ports_8080_eq in H.
Qed.

Example GetPortsByPID_12 :
  port.GetPortsByPID world_8080 12 ([record_22], None).
Proof.
  pose proof (port.GetPortsByPID_ok world_8080 12 _
                GetOpenPorts_world_8080) as H.
  by rewrite ports_8080_eq in H.
Qed.

Lemma port_filters_exact_witness :
  (∃ allPorts,
     port.GetOpenPorts world_8080 (allPorts, None)
     ∧ [record_8080] = filter (λ p, PortInfo.Port p = 8080%N) allPorts)
  ∧ (∃ allPorts,
     port.GetOpenPorts world_8080 (allPorts, None)
     ∧ [record_22] = filter (λ p, PortInfo.PID p = 12%Z) allPorts).
Proof.
  split.
  - destruct (proj1 (port_filters_exact world_8080) 8080%N [record_8080]
                GetPortInfoByPort_8080) as (allPorts & Hall & Heq & _).
    by exists allPorts.
  - destruct (proj2 (port_filters_exact world_8080) 12%Z [record_22]
                GetPortsByPID_12) as (allPorts & Hall & Heq & _).
    by exists allPorts.
Defined.

(** C1.  For a port number of the specification (1 to 65535; any number
    other than 0 will do), the records of the result on an address and a
    port are the winner of the tie-break among the LISTEN connections on
    them and nothing else: the first of them that carries a process name,
    and the first of them when none does.  With two such connections, the
    second wins when it alone carries a name, and the first one wins
    otherwise. *)
Theorem GetOpenPorts_dedup (w : World) connections ports ip port :
  ConnectionsWithContext w = Ok connections →
  port.GetOpenPorts w (ports, None) →
  port ≠ 0%N →
  filter (λ r, PortInfo.LocalIP r = ip ∧ PortInfo.Port r = port) ports
  = option_list (winner (portInfo_of w <$> colliding ip port connections))
  ∧ ((∃ c, c ∈ colliding ip port connections) →
     ∃ r, filter (λ r, PortInfo.LocalIP r = ip ∧ PortInfo.Port r = port) ports
          = [r])
  ∧ (∀ a b, colliding ip port connections = [a; b] →
     filter (λ r, PortInfo.LocalIP r = ip ∧ PortInfo.Port r = port) ports
     = [if bool_decide (PortInfo.Name (portInfo_of w a) = ""
                        ∧ PortInfo.Name (portInfo_of w b) ≠ "")
        then portInfo_of w b else portInfo_of w a]).
Proof.
  intros Hc Hall Hport.
  pose proof (GetOpenPorts_at_key w connections ports ip port Hc Hall Hport)
    as Hkey.
  split; [done|]. split.
  - intros [c Hin]. rewrite Hkey.
    destruct (colliding ip port connections) as [|a rest] eqn:Hcol.
    { by apply elem_of_nil in Hin. }
    rewrite fmap_cons, <- tie_break_winner. simpl. rewrite tie_break_Some.
    by eexists.
  - intros a b Hab. rewrite Hkey, Hab. simpl. rewrite winner_pair.
    simpl. by case_bool_decide.
Qed.

Lemma GetOpenPorts_dedup_witness :
  filter (λ r, PortInfo.LocalIP r = "0.0.0.0" ∧ PortInfo.Port r = 8080%N)
    ports_8080 = [record_8080].
Proof.
  pose proof (GetOpenPorts_dedup world_8080 conns_8080 ports_8080
                "0.0.0.0" 8080 eq_refl GetOpenPorts_world_8080
                ltac:(discriminate)) as (H & _ & _).
  exact H.
Defined.

(** The port number 0 is no port number of the specification, and the
    loop passes over it: two LISTEN connections on 0.0.0.0 and the port 0
    share their key, and the result holds no record at all. *)
Lemma GetOpenPorts_dedup_port0 :
  colliding "0.0.0.0" 0 conns_port0 = conns_port0
  ∧ length conns_port0 = 2
  ∧ port.GetOpenPorts world_port0 ([], None)
  ∧ ∀ ports, port.GetOpenPorts world_port0 (ports, None) →
      ¬ ∃ r, filter (λ r, PortInfo.LocalIP r = "0.0.0.0"
                          ∧ PortInfo.Port r = 0%N) ports = [r].
Proof.
  split; [done|]. split; [done|]. split.
  - exact (port.GetOpenPorts_ok world_port0 conns_port0 [] eq_refl
             (Permutation_refl _)).
  - intros ports H [r Hr]. inversion H as [|connections ports' Hc Hp]; subst.
    injection Hc as <-.
    apply Permutation_nil_r in Hp. by subst.
Qed.

(* ================================================================== *)
(** * Lower case *)

Lemma byte_ok n : (n < 256)%N → N_of_ascii (ascii_of_N n) = n.
Proof. apply N_ascii_embedding. Qed.

Lemma EncodeRune_cases r :
  scalar r →
  (r < 0x80 ∧ utf8.EncodeRune r = utf8.bytes [r])%N
  ∨ (0x80 ≤ r ≤ 0x7FF
     ∧ utf8.EncodeRune r = utf8.bytes [0xC0 + r / 0x40; 0x80 + r mod 0x40])%N
  ∨ (0x800 ≤ r ≤ 0xFFFF
     ∧ utf8.EncodeRune r
       = utf8.bytes [0xE0 + r / 0x1000; 0x80 + r / 0x40 mod 0x40;
                     0x80 + r mod 0x40])%N
  ∨ (0x10000 ≤ r ≤ 0x10FFFF
     ∧ utf8.EncodeRune r
       = utf8.bytes [0xF0 + r / 0x40000; 0x80 + r / 0x1000 mod 0x40;
                     0x80 + r / 0x40 mod 0x40; 0x80 + r mod 0x40])%N.
Proof.
  intros [Hmax Hsur]. unfold utf8.MaxRune in Hmax.
  unfold utf8.EncodeRune, utf8.MaxRune, utf8.RuneError.
  repeat branch;
    first [ left; split; [lia|done]
          | right; left; split; [lia|done]
          | right; right; left; split; [lia|done]
          | right; right; right; split; [lia|done] ].
Qed.

(** Decoding reads back what encoding wrote, whatever follows it. *)
Lemma decode_encode r rest :
  scalar r →
  utf8.DecodeRuneInString (utf8.EncodeRune r +:+ rest)
  = (r, String.length (utf8.EncodeRune r)).
Proof.
  intros Hr. pose proof Hr as [Hmax Hsur]. unfold utf8.MaxRune in Hmax.
  destruct (EncodeRune_cases r Hr) as [[? ->]|[[? ->]|[[? ->]|[? ->]]]];
    cbn [utf8.bytes foldr String.length];
    rewrite ?string_app_cons, ?string_app_nil;
    unfold utf8.DecodeRuneInString, utf8.byte_at; cbn [String.get];
    rewrite !byte_ok by lia_div;
    unfold utf8.first; repeat branch; cbn [Nat.leb]; f_equal; lia_div.
Qed.

(** Decoding yields scalar values only: the ranges accepted for the
    second byte leave out the surrogates, the encodings that are longer
    than need be, and the numbers beyond [MaxRune]. *)
Lemma decode_scalar s : scalar (utf8.DecodeRuneInString s).1.
Proof.
  assert (scalar utf8.RuneError) as Herr
    by (unfold scalar, utf8.RuneError, utf8.MaxRune; lia).
  destruct s as [|c0 s]; [done|].
  unfold utf8.DecodeRuneInString.
  pose proof (N_ascii_bounded c0) as Hb0.
  generalize dependent (N_of_ascii c0). intros s0 Hb0.
  generalize (utf8.byte_at 1 (String c0 s)) (utf8.byte_at 2 (String c0 s))
    (utf8.byte_at 3 (String c0 s)).
  intros s1 s2 s3.
  unfold utf8.first; repeat branch; cbn [Nat.leb fst]; try done;
    unfold scalar, utf8.MaxRune; lia_div.
Qed.

(** A valid encoding is the encoding of its rune: the bytes that
    [strings.Map] copies for a rune that does not change are those that
    [EncodeRune] writes for it. *)
Lemma encode_decode s r width :
  utf8.DecodeRuneInString s = (r, width) →
  (width ≠ 1 ∨ (r < 0x80)%N) → s ≠ "" →
  ∃ rest, s = utf8.EncodeRune r +:+ rest
          ∧ String.length (utf8.EncodeRune r) = width.
Proof.
  destruct s as [|c0 s]; [done|]. intros Hd Hvalid _. revert Hd.
  unfold utf8.DecodeRuneInString, utf8.byte_at.
  destruct s as [|c1 [|c2 [|c3 s]]]; cbn [String.get];
    name_byte c0; try name_byte c1; try name_byte c2; try name_byte c3;
    unfold utf8.first; repeat branch; cbn [Nat.leb];
    intros [= <- <-];
    try (exfalso; destruct Hvalid as [?|Hv];
         [done|unfold utf8.RuneError in Hv; lia]);
    unfold utf8.EncodeRune, utf8.MaxRune, utf8.RuneError;
    repeat branch; cbn [utf8.bytes foldr String.length];
    (eexists; split; [|reflexivity]);
    rewrite ?string_app_cons, ?string_app_nil;
    repeat match goal with
           | |- String _ _ = String _ _ => f_equal; [symmetry; same_byte|..]
           end; reflexivity.
Qed.

Lemma EncodeRune_nonempty r :
  ∃ c t, utf8.EncodeRune r = String c t.
Proof.
  unfold utf8.EncodeRune.
  repeat match goal with
         | |- context [if ?b then _ else _] => destruct b
         end; cbn [utf8.bytes foldr]; eauto.
Qed.

Lemma runes_go_skip t : ∀ s,
  runes_go (String.length t) (t +:+ s) = runes_go 0 s.
Proof.
  induction t as [|c t IH]; intros s; [done|].
  rewrite string_app_cons. cbn [String.length runes_go]. apply IH.
Qed.

Lemma runes_go_encode r s :
  scalar r → runes_go 0 (utf8.EncodeRune r +:+ s) = r :: runes_go 0 s.
Proof.
  intros Hr. pose proof (decode_encode r s Hr) as Hd.
  destruct (EncodeRune_nonempty r) as (c & t & He). rewrite He in Hd |- *.
  rewrite string_app_cons in Hd |- *. cbn [runes_go]. rewrite Hd.
  cbn [String.length]. rewrite Nat.sub_succ, Nat.sub_0_r.
  by rewrite runes_go_skip.
Qed.

Lemma runes_go_encode_all rs :
  Forall scalar rs → runes_go 0 (encode_all rs) = rs.
Proof.
  induction 1 as [|r rs Hr _ IH]; [done|].
  cbn [encode_all foldr]. rewrite runes_go_encode by done.
  f_equal. exact IH.
Qed.

Lemma runes_go_scalar s : ∀ skip, Forall scalar (runes_go skip s).
Proof.
  induction s as [|c s IH]; intros skip; [constructor|].
  destruct skip as [|k]; cbn [runes_go]; [|apply IH].
  pose proof (decode_scalar (String c s)) as Hd.
  destruct (utf8.DecodeRuneInString (String c s)) as [r width].
  constructor; [exact Hd|apply IH].
Qed.

Lemma Map_go_runes mapping s : ∀ skip,
  strings.Map_go mapping skip s = encode_all (mapping <$> runes_go skip s).
Proof.
  induction s as [|c s IH]; intros skip; [done|].
  destruct skip as [|k]; cbn [strings.Map_go runes_go]; [|apply IH].
  destruct (utf8.DecodeRuneInString (String c s)) as [r width].
  rewrite fmap_cons. cbn [encode_all foldr]. f_equal. apply IH.
Qed.

Lemma in_range_elements r e : unicode.in_range r e = true → r ∈ elements e.
Proof.
  destruct e as [[[lo hi] stride] to]. unfold unicode.in_range, elements.
  intros [[Hlo Hhi]%andb_true_iff Hmod]%andb_true_iff.
  apply N.leb_le in Hlo, Hhi. apply N.eqb_eq in Hmod.
  apply list_elem_of_fmap. exists (N.to_nat ((r - lo) / stride)). split.
  - rewrite N2Nat.id.
    pose proof (N.div_mod' (r - lo) stride) as Hdm.
    rewrite Hmod, N.add_0_r in Hdm. rewrite (N.mul_comm _ stride), <- Hdm. lia.
  - apply elem_of_seq. split; [apply Nat.le_0_l|].
    assert ((r - lo) / stride ≤ (hi - lo) / stride)%N as Hle.
    2: { generalize dependent ((r - lo) / stride)%N.
         generalize ((hi - lo) / stride)%N. intros. lia. }
    apply N.Div0.div_le_mono. lia.
Qed.

(** Every letter of the table, one by one. *)
Lemma lower_ranges_ok :
  forallb lower_ok (mjoin (elements <$> unicode.lower_ranges)) = true.
Proof. by vm_compute. Qed.

Lemma ToLower_rune_ok r : scalar r → lower_ok r = true.
Proof.
  intros [Hmax Hsur]. unfold utf8.MaxRune in Hmax.
  destruct (N.leb_spec r 0x7F) as [Hascii|Hhigh].
  - unfold lower_ok, unicode.ToLower, utf8.MaxRune.
    repeat branch; done.
  - destruct (List.find (unicode.in_range r) unicode.lower_ranges)
      as [e|] eqn:Hfind.
    + apply find_some in Hfind as [Hin Hr].
      apply in_range_elements in Hr.
      pose proof lower_ranges_ok as Hok.
      rewrite forallb_forall in Hok. apply Hok.
      apply list_elem_of_In, list_elem_of_join. exists (elements e).
      split; [done|]. apply list_elem_of_fmap. exists e.
      split; [done|]. by apply list_elem_of_In.
    + assert (unicode.ToLower r = r) as Hr.
      { unfold unicode.ToLower. rewrite Hfind. by branch. }
      unfold lower_ok. rewrite !Hr. unfold utf8.MaxRune.
      repeat branch; done.
Qed.

Lemma ToLower_rune_scalar r : scalar r → scalar (unicode.ToLower r).
Proof.
  intros Hr. apply ToLower_rune_ok in Hr. unfold lower_ok in Hr.
  apply andb_true_iff in Hr as [[Hmax Hsur]%andb_true_iff _].
  apply N.leb_le in Hmax. apply negb_true_iff, andb_false_iff in Hsur.
  split; [done|]. intros [Hlo Hhi].
  destruct Hsur as [Hs|Hs]; apply N.leb_gt in Hs; lia.
Qed.

Lemma ToLower_rune_idemp r :
  scalar r → unicode.ToLower (unicode.ToLower r) = unicode.ToLower r.
Proof.
  intros Hr. apply ToLower_rune_ok in Hr. unfold lower_ok in Hr.
  apply andb_true_iff in Hr as [_ Hr]. by apply N.eqb_eq in Hr.
Qed.

Lemma ToLower_runes s :
  strings.ToLower s = encode_all (unicode.ToLower <$> runes_go 0 s).
Proof. apply Map_go_runes. Qed.

(** A string in lower case is its own lower case, whatever its bytes. *)
Lemma ToLower_idemp s : strings.ToLower (strings.ToLower s) = strings.ToLower s.
Proof.
  rewrite !ToLower_runes.
  pose proof (runes_go_scalar s 0) as Hs.
  rewrite runes_go_encode_all.
  - f_equal. rewrite <- list_fmap_compose. apply list_fmap_ext.
    intros i r Hi. simpl. apply ToLower_rune_idemp.
    rewrite Forall_forall in Hs. eapply Hs, list_elem_of_lookup_2, Hi.
  - apply Forall_fmap. eapply Forall_impl; [exact Hs|].
    intros r Hr. by apply ToLower_rune_scalar.
Qed.

Lemma lower_byte_rune c :
  (N_of_ascii c < 0x80)%N →
  ascii_of_N (unicode.ToLower (N_of_ascii c)) = strings.lower_byte c
  ∧ (unicode.ToLower (N_of_ascii c) < 0x80)%N.
Proof.
  intros Hc. unfold unicode.ToLower, strings.lower_byte.
  repeat branch; (split; [|lia]); try done; by rewrite ascii_N_embedding.
Qed.

(** The shorter way of [ToLower]: a byte below 128 is a rune of its
    own, and its lower case is a byte. *)
Lemma ToLower_cons_ascii c s :
  (N_of_ascii c < 0x80)%N →
  strings.ToLower (String c s)
  = String (strings.lower_byte c) (strings.ToLower s).
Proof.
  intros Hc. unfold strings.ToLower, strings.Map. cbn [strings.Map_go].
  unfold utf8.DecodeRuneInString, utf8.first.
  repeat branch.
  destruct (lower_byte_rune c Hc) as [<- Hlow].
  unfold utf8.EncodeRune. branch. done.
Qed.

(** A prefix of ASCII bytes stays a prefix when both strings are put in
    lower case. *)
Lemma HasPrefix_ToLower s pre :
  ascii_only pre = true →
  strings.HasPrefix s pre = true →
  strings.HasPrefix (strings.ToLower s) (strings.ToLower pre) = true.
Proof.
  unfold strings.HasPrefix. revert s.
  induction pre as [|c pre IH]; intros s Hpre.
  { intros _. change (strings.ToLower "") with "".
    by destruct (strings.ToLower s). }
  cbn [ascii_only] in Hpre. apply andb_true_iff in Hpre as [Hc Hpre].
  apply N.ltb_lt in Hc.
  destruct s as [|d s]; [done|]. cbn [String.prefix].
  destruct (Ascii.ascii_dec c d) as [->|Hne]; [|done].
  intros Hp.
  rewrite !ToLower_cons_ascii by done. cbn [String.prefix].
  destruct (Ascii.ascii_dec _ _); [|done].
  by apply IH.
Qed.

(* ================================================================== *)
(** * User applications *)

Section user_applications.
Context (w : World).

Lemma isSystemProcess_loop_spec nameLower prefixes :
  process_pkg.isSystemProcess_loop nameLower prefixes = true
  ↔ ∃ prefix, prefix ∈ prefixes
      ∧ strings.HasPrefix (strings.ToLower nameLower) (strings.ToLower prefix)
        = true.
Proof.
  induction prefixes as [|prefix prefixes IH]; simpl.
  - split; [done|]. intros (? & []%elem_of_nil & _).
  - destruct (strings.HasPrefix _ (strings.ToLower prefix)) eqn:Hp.
    + split; [|done]. intros _. exists prefix. split; [left|done].
    + rewrite IH. split.
      * intros (p' & Hin & H). exists p'. split; [by right|done].
      * intros (p' & Hin & H). apply elem_of_cons in Hin as [->|Hin].
        { congruence. } by exists p'.
Qed.

Lemma isSystemProcess_spec name :
  process_pkg.isSystemProcess name (process_pkg.getSystemPrefixes w) = true
  ↔ system_name w name.
Proof.
  unfold process_pkg.isSystemProcess, system_name.
  rewrite isSystemProcess_loop_spec. by setoid_rewrite ToLower_idemp.
Qed.

Lemma isSystemUser_loop_spec usernameLower systemUsers :
  process_pkg.isSystemUser_loop usernameLower systemUsers = true
  ↔ ∃ sysUser, sysUser ∈ systemUsers
               ∧ strings.ToLower sysUser = usernameLower.
Proof.
  induction systemUsers as [|sysUser systemUsers IH]; simpl.
  - split; [done|]. intros (? & []%elem_of_nil & _).
  - case_bool_decide as Hu.
    + split; [|done]. intros _. exists sysUser. split; [left|done].
    + rewrite IH. split.
      * intros (u & Hin & H). exists u. split; [by right|done].
      * intros (u & Hin & H). apply elem_of_cons in Hin as [->|Hin];
          [done|by exists u].
Qed.

Lemma isSystemUser_spec username os :
  process_pkg.isSystemUser username os = true ↔ system_account os username.
Proof. unfold process_pkg.isSystemUser. apply isSystemUser_loop_spec. Qed.

(** When the loop keeps a process, and what it records. *)
Lemma userProc_Some p r :
  process_pkg.userProc w (process_pkg.getSystemPrefixes w) p = Some r
  ↔ ∃ name exe user,
      checked (process.NameWithContext p) = Ok name
      ∧ process.ExeWithContext p = Ok exe
      ∧ process.UsernameWithContext p = Ok user
      ∧ ¬ system_name w name ∧ ¬ system_account (GOOS w) user ∧ user ≠ ""
      ∧ r = {|
          ProcessInfo.PID := process.Pid p;
          ProcessInfo.Name := name;
          ProcessInfo.Path := exe;
          ProcessInfo.Status :=
            match process.StatusWithContext p with
            | Ok st => strings.Join st ","
            | Err _ => ""
            end;
          ProcessInfo.User := user;
          ProcessInfo.StartTime := "" |}.
Proof.
  unfold process_pkg.userProc, process_pkg.formatTime.
  destruct (checked (process.NameWithContext p)) as [name|e].
  2: { split; [done|]. by intros (?&?&?&?&_). }
  destruct (process_pkg.isSystemProcess name _) eqn:Hn.
  { split; [done|]. intros (?&?&?&[= <-]&_&_&Hsn&_).
    by apply isSystemProcess_spec in Hn. }
  assert (¬ system_name w name) as Hsn.
  { rewrite <- isSystemProcess_spec. congruence. }
  destruct (process.ExeWithContext p) as [exe|e].
  2: { split; [done|]. by intros (?&?&?&_&?&_). }
  destruct (process.UsernameWithContext p) as [user|e].
  2: { rewrite bool_decide_true by done. split; [done|].
       by intros (?&?&?&_&_&?&_). }
  destruct (process_pkg.isSystemUser user _) eqn:Hu.
  { split; [done|]. intros (?&?&?&_&_&[= <-]&_&Hsu&_).
    by apply isSystemUser_spec in Hu. }
  assert (¬ system_account (GOOS w) user) as Hsu.
  { rewrite <- isSystemUser_spec. congruence. }
  case_bool_decide as He.
  { split; [done|]. by intros (?&?&?&_&_&[= <-]&_&_&?&_). }
  assert (∀ A (x : result A), match x with Ok _ => "" | Err _ => "" end = "")
    as Hst by (by intros ? []).
  rewrite Hst. split.
  - intros [= <-]. by exists name, exe, user.
  - by intros (?&?&?&[= <-]&[= <-]&[= <-]&_&_&_&->).
Qed.

Lemma userProc_None p :
  process_pkg.userProc w (process_pkg.getSystemPrefixes w) p = None
  ↔ (∃ e, checked (process.NameWithContext p) = Err e)
    ∨ (∃ name, checked (process.NameWithContext p) = Ok name
               ∧ system_name w name)
    ∨ (∃ e, process.ExeWithContext p = Err e)
    ∨ (∃ e, process.UsernameWithContext p = Err e)
    ∨ (∃ user, process.UsernameWithContext p = Ok user
               ∧ (system_account (GOOS w) user ∨ user = "")).
Proof.
  split.
  - intros Hr.
    destruct (checked (process.NameWithContext p)) as [name|e] eqn:Hn; [|eauto].
    destruct (process_pkg.isSystemProcess name
                (process_pkg.getSystemPrefixes w)) eqn:Hs.
    { apply isSystemProcess_spec in Hs. eauto 10. }
    destruct (process.ExeWithContext p) as [exe|e] eqn:He; [|eauto 10].
    destruct (process.UsernameWithContext p) as [user|e] eqn:Hu; [|eauto 10].
    do 4 right. exists user. split; [done|].
    destruct (process_pkg.isSystemUser user (GOOS w)) eqn:Hsu.
    { left. by apply isSystemUser_spec. }
    right. destruct (decide (user = "")) as [|Hne]; [done|]. exfalso.
    assert (is_Some (process_pkg.userProc w (process_pkg.getSystemPrefixes w) p))
      as [r' Hr']; [|congruence].
    eexists. apply userProc_Some. exists name, exe, user.
    repeat split; try done.
    + rewrite <- isSystemProcess_spec. congruence.
    + rewrite <- isSystemUser_spec. congruence.
  - intros H.
    destruct (process_pkg.userProc w _ p) as [r|] eqn:Hr; [|done].
    apply userProc_Some in Hr
      as (name & exe & user & Hn & He & Hu & Hsn & Hsu & Hne & _).
    destruct H as [[e H]|[(n & H & Hs)|[[e H]|[[e H]|(u & H & Hs)]]]];
      try congruence.
    rewrite Hu in H. injection H as <-. tauto.
Qed.

Lemma not_less_pid_sorted (l : list ProcessInfo.t) :
  StronglySorted
    (λ a b, (ProcessInfo.PID b <? ProcessInfo.PID a)%Z = false) l
  ↔ pid_sorted l.
Proof.
  unfold pid_sorted. split.
  - induction 1 as [|a l _ IH Hall]; constructor; [done|].
    eapply Forall_impl; [exact Hall|]. simpl. intros b Hb.
    by apply Z.ltb_ge in Hb.
  - induction 1 as [|a l _ IH Hall]; constructor; [done|].
    eapply Forall_impl; [exact Hall|]. simpl. intros b Hb.
    by apply Z.ltb_ge.
Qed.

Lemma sort_Slice_pid_sorted (procs sorted : list ProcessInfo.t) :
  sort_Slice (λ a b, (ProcessInfo.PID a <? ProcessInfo.PID b)%Z) procs sorted →
  sorted ≡ₚ procs ∧ pid_sorted sorted.
Proof. intros [Hp Hs]. split; [done|]. by apply not_less_pid_sorted. Qed.

Lemma GetUserApplications_inv apps :
  process_pkg.GetUserApplications w (apps, None) →
  ∃ procs, ProcessesWithContext w = Ok procs
           ∧ apps ≡ₚ process_pkg.userProcs w procs ∧ pid_sorted apps.
Proof.
  inversion 1 as [|procs sorted Hp Hs]; subst.
  apply sort_Slice_pid_sorted in Hs as [? ?]. by exists procs.
Qed.

Lemma GetUserApplications_err_inv apps e :
  process_pkg.GetUserApplications w (apps, Some e) →
  ProcessesWithContext w = Err e ∧ apps = [].
Proof. by inversion 1. Qed.

(** Some arrangement meets the promise of [sort.Slice]: the call
    returns. *)
Lemma sort_Slice_total (procs : list ProcessInfo.t) :
  ∃ sorted,
    sort_Slice (λ a b, (ProcessInfo.PID a <? ProcessInfo.PID b)%Z) procs sorted.
Proof.
  set (R := λ a b : ProcessInfo.t, (ProcessInfo.PID a ≤ ProcessInfo.PID b)%Z).
  assert (Transitive R) by (intros a b c; unfold R; lia).
  assert (Total R) by (intros a b; unfold R; lia).
  assert (∀ a b, Decision (R a b)) by (intros a b; unfold R; apply _).
  exists (merge_sort R procs). split; [apply merge_sort_Permutation|].
  apply not_less_pid_sorted. by apply (StronglySorted_merge_sort R).
Qed.

Lemma GetUserApplications_total : ∃ res, process_pkg.GetUserApplications w res.
Proof.
  destruct (ProcessesWithContext w) as [procs|e] eqn:Hp.
  - destruct (sort_Slice_total (process_pkg.userProcs w procs)) as [sorted Hs].
    eexists. by eapply process_pkg.GetUserApplications_ok.
  - eexists. by eapply process_pkg.GetUserApplications_err.
Qed.

End user_applications.

(** Lower case beyond ASCII: the Kelvin sign (U+212A) has the lower case
    k and the capital I with a dot (U+0130) the lower case i, so that a
    name that starts with one of them can carry a system prefix; bytes
    that are no UTF-8 are replaced, and cannot. *)
Example isSystemProcess_beyond_ASCII :
  strings.ToLower (utf8.EncodeRune 0x212A +:+ "ERNEL_task") = "kernel_task"
  ∧ process_pkg.isSystemProcess (utf8.EncodeRune 0x212A +:+ "ernel_task")
      (process_pkg.getSystemPrefixes world_launchctl) = true
  ∧ process_pkg.isSystemProcess (utf8.EncodeRune 0x0130 +:+ "nit-helper")
      (process_pkg.getSystemPrefixes world_apps) = true
  ∧ strings.ToLower (utf8.bytes [0xC9%N] +:+ "cole")
    = utf8.EncodeRune utf8.RuneError +:+ "cole"
  ∧ strings.ToLower (utf8.EncodeRune 0xC9 +:+ "COLE")
    = utf8.EncodeRune 0xE9 +:+ "cole".
Proof. by vm_compute. Qed.

Lemma GetUserApplications_world_apps :
  process_pkg.GetUserApplications world_apps ([record_chrome], None).
Proof.
  apply (process_pkg.GetUserApplications_ok world_apps
           [proc_chrome; proc_systemd; proc_hidden]); [done|].
  split; [done|]. repeat constructor.
Defined.

Lemma GetUserApplications_world_8080 :
  process_pkg.GetUserApplications world_8080 ([record_nginx; record_chrome], None).
Proof.
  apply (process_pkg.GetUserApplications_ok world_8080
           [proc_chrome; proc_nginx]); [done|].
  split; [apply Permutation_swap|]. repeat constructor.
Defined.




(** C6. The result of [GetUserApplications] is in non-decreasing order of
    pid, and the result of [GetOpenPorts] in non-decreasing order of port
    number. *)
Theorem results_sorted (w : World) :
  (∀ apps err,
     process_pkg.GetUserApplications w (apps, err) → pid_sorted apps)
  ∧ (∀ ports err, port.GetOpenPorts w (ports, err) → port_sorted ports).
Proof.
  split.
  - intros apps [e|] Happs.
    + apply GetUserApplications_err_inv in Happs as [_ ->]. constructor.
    + by apply GetUserApplications_inv in Happs as (? & _ & _ & ?).
  - intros ports [e|] Hports.
    + apply GetOpenPorts_err_inv in Hports as [_ ->]. constructor.
    + by apply GetOpenPorts_inv in Hports as (? & _ & _ & ?).
Qed.

Lemma results_sorted_witness :
  pid_sorted [record_nginx; record_chrome] ∧ port_sorted ports_8080.
Proof.
  split.
  - exact (proj1 (results_sorted world_8080) _ None
             GetUserApplications_world_8080).
  - exact (proj2 (results_sorted world_8080) _ None GetOpenPorts_world_8080).
Defined.

(* ================================================================== *)
(** * Formatting *)

Section formatting.
Context (lib : GoLib).

(** The loop of [FormatBytes] ends by its own test: more fuel than the
    number of digits of [n] in base 1024 changes nothing. *)
Lemma FormatBytes_loop_fuel fuel : ∀ n div exp,
  (n < 1024 ^ N.of_nat fuel)%N →
  utils.FormatBytes_loop (S fuel) n div exp
  = utils.FormatBytes_loop fuel n div exp.
Proof.
  induction fuel as [|fuel IH]; intros n div exp Hn.
  - simpl in *. destruct (N.leb_spec 1024 n); [lia|done].
  - change (utils.FormatBytes_loop (S (S fuel)) n div exp)
      with (if (1024 <=? n)%N
            then utils.FormatBytes_loop (S fuel) (n / 1024)%N (div * 1024)%Z
                   (S exp)
            else (div, exp)).
    change (utils.FormatBytes_loop (S fuel) n div exp)
      with (if (1024 <=? n)%N
            then utils.FormatBytes_loop fuel (n / 1024)%N (div * 1024)%Z
                   (S exp)
            else (div, exp)).
    destruct (N.leb_spec 1024 n); [|done]. apply IH.
    apply N.Div0.div_lt_upper_bound.
    rewrite Nat2N.inj_succ, N.pow_succ_r' in Hn. lia.
Qed.

(** The exponent counts the divisions by 1024: for a 64-bit number of
    bytes it is 5 at most, an index of the six suffixes. *)
Lemma FormatBytes_loop_exp fuel : ∀ m n div exp,
  (n < 1024 ^ N.of_nat (S m))%N →
  ((utils.FormatBytes_loop fuel n div exp).2 ≤ exp + m)%nat.
Proof.
  induction fuel as [|fuel IH]; intros m n div exp Hn; simpl; [lia|].
  destruct (N.leb_spec 1024 n) as [Hle|Hlt]; simpl; [|lia].
  destruct m as [|m]; [simpl in Hn; lia|].
  etrans; [apply (IH m)|lia].
  apply N.Div0.div_lt_upper_bound.
  rewrite Nat2N.inj_succ, N.pow_succ_r' in Hn. lia.
Qed.

Lemma FormatBytes_suffix (bytes : N) :
  (bytes < 2 ^ 64)%N →
  ((utils.FormatBytes_loop 64 (bytes / 1024) 1024 0).2 ≤ 5)%nat.
Proof.
  intros Hb. apply (FormatBytes_loop_exp 64 5).
  apply N.Div0.div_lt_upper_bound.
  change (1024 * 1024 ^ N.of_nat 6)%N with (2 ^ 70)%N.
  assert (2 ^ 64 < 2 ^ 70)%N by done. lia.
Qed.

Lemma FormatBytes_small (bytes : N) :
  (bytes < 1024)%N → utils.FormatBytes lib bytes = pretty bytes +:+ " B".
Proof.
  intros Hb. unfold utils.FormatBytes.
  by destruct (N.ltb_spec bytes 1024); [|lia].
Qed.

Example FormatBytes_0 : utils.FormatBytes lib 0 = "0 B".
Proof. reflexivity. Qed.

(** 1024 bytes are one unit of the next suffix: [1.00 KB] once the
    quotient, which is 1, is printed with two decimals. *)
Example FormatBytes_1024 :
  utils.FormatBytes lib 1024
  = Sprintf_2f lib (S754_finite false 4503599627370496 (-52)) +:+ " KB".
Proof. reflexivity. Qed.

End formatting.

(* ================================================================== *)
(** * Resource usage *)

Section resource_usage.
Context (lib : GoLib) (w : World).

(** The call returns a record and no error, or an error and no record. *)
Lemma GetProcessResourceUsage_shape pid :
  (∃ u, resource.GetProcessResourceUsage lib w pid = (Some u, None))
  ∨ (∃ e, resource.GetProcessResourceUsage lib w pid = (None, Some e)).
Proof.
  unfold resource.GetProcessResourceUsage.
  destruct (NewProcessWithContext w pid) as [p|e]; [|eauto].
  destruct (process.MemoryInfoWithContext p) as [memInfo|e]; eauto.
Qed.

Lemma FormatCPU_below cpu :
  SFltb cpu f64_0_01 = true → utils.FormatCPU lib cpu = "< 0.01%".
Proof. unfold utils.FormatCPU. by intros ->. Qed.

Lemma f64_100_above_0_01 cpu :
  SFleb f64_100 cpu = true → SFltb cpu f64_0_01 = false.
Proof.
  unfold SFleb, SFltb, f64_100, f64_0_01.
  destruct cpu as [s|s| |s m e]; cbn [SFcompare]; try done.
  - destruct s; done.
  - destruct s; [done|].
    destruct (Z.compare_spec (-46) e) as [<-|Hlt|Hgt]; try done.
    intros _. by rewrite (proj2 (Z.compare_gt_iff e (-59))) by lia.
Qed.

Lemma FormatCPU_above cpu :
  SFleb f64_100 cpu = true → utils.FormatCPU lib cpu = "100%".
Proof.
  intros H. unfold utils.FormatCPU.
  by rewrite (f64_100_above_0_01 cpu H), H.
Qed.

End resource_usage.

(** C7, as the code has it.  [GetProcessResourceUsage] returns an error
    exactly when the handle of the process cannot be had or the query for
    its memory fails, and then it returns no record.  Otherwise it returns
    a record and no error, whatever the other queries answer: the name,
    the processor and memory percentages, the thread count and the
    open-file count are the values that their queries returned, next to
    an error or not; the code does not look at the error and puts no zero
    in their place. *)
Theorem GetProcessResourceUsage_errors (lib : GoLib) (w : World) (pid : Z) :
  ((resource.GetProcessResourceUsage lib w pid).2 ≠ None
   ↔ (∃ e, NewProcessWithContext w pid = Err e)
     ∨ (∃ p e, NewProcessWithContext w pid = Ok p
               ∧ process.MemoryInfoWithContext p = Err e))
  ∧ ((resource.GetProcessResourceUsage lib w pid).2 ≠ None →
     (resource.GetProcessResourceUsage lib w pid).1 = None)
  ∧ (∀ p memInfo,
       NewProcessWithContext w pid = Ok p →
       process.MemoryInfoWithContext p = Ok memInfo →
       ∃ u, resource.GetProcessResourceUsage lib w pid = (Some u, None)
            ∧ ResourceUsage.PID u = pid
            ∧ ResourceUsage.Name u = (process.NameWithContext p).1
            ∧ ResourceUsage.CPUPercent u
              = (process.CPUPercentWithContext p).1
            ∧ ResourceUsage.MemoryPercent u
              = (process.MemoryPercentWithContext p).1
            ∧ ResourceUsage.Threads u = (process.NumThreadsWithContext p).1
            ∧ ResourceUsage.OpenFiles u = (process.NumFDsWithContext p).1
            ∧ ResourceUsage.MemoryRSS u = from_option process.RSS 0%N memInfo
            ∧ ResourceUsage.MemoryVMS u = from_option process.VMS 0%N memInfo).
Proof.
  unfold resource.GetProcessResourceUsage.
  destruct (NewProcessWithContext w pid) as [p|e] eqn:Hp.
  - destruct (process.MemoryInfoWithContext p) as [memInfo|e] eqn:Hm; simpl.
    + split; [|split; [done|]].
      * split; [done|]. intros [[e ?]|(p' & e & [= <-] & ?)]; congruence.
      * intros p' memInfo' [= <-] Hm'. rewrite Hm in Hm'.
        injection Hm' as <-. eexists. split; [done|]. simpl.
        repeat split; done.
    + split; [|split; [done|]].
      * split; [|done]. intros _. right. by exists p, e.
      * intros p' memInfo' [= <-] Hm'. congruence.
  - simpl. split; [|split; [done|done]].
    split; [|done]. intros _. left. by exists e.
Qed.

(** pid 77 is sampled, with an open-file count that its query refuses to
    give; pid 5 does not exist; pid 4000 exists and its memory cannot be
    read. *)
Example GetProcessResourceUsage_77 :
  resource.GetProcessResourceUsage lib_example world_8080 77
  = (Some usage_nginx, None).
Proof. reflexivity. Qed.

Example GetProcessResourceUsage_5 :
  resource.GetProcessResourceUsage lib_example world_8080 5
  = (None, Some "process does not exist").
Proof. reflexivity. Qed.

Lemma GetProcessResourceUsage_errors_witness :
  ∃ u, resource.GetProcessResourceUsage lib_example world_8080 77
       = (Some u, None)
       ∧ ResourceUsage.Name u = "nginx"
       ∧ ResourceUsage.Threads u = 4%Z
       ∧ ResourceUsage.OpenFiles u = 0%Z.
Proof.
  destruct (proj2 (proj2 (GetProcessResourceUsage_errors lib_example
                            world_8080 77))
              proc_nginx (Some (process.mkMem 512 4096)) eq_refl eq_refl)
    as (u & Hu & _ & Hname & _ & _ & Hthreads & Hfiles & _).
  by exists u.
Defined.

(** C7, as it is stated, fails: the query for the open files of the
    backup process returns the three files that it could count and an
    error with them; the call succeeds, and the record carries 3, not the
    zero value. *)
Lemma GetProcessResourceUsage_value_beside_error :
  process.NumFDsWithContext proc_backup
  = (3%Z, Some "readdirent: input/output error")
  ∧ ∃ u, resource.GetProcessResourceUsage lib_example world_backup 88
         = (Some u, None)
         ∧ ResourceUsage.OpenFiles u = 3%Z
         ∧ ResourceUsage.OpenFiles u ≠ 0%Z.
Proof. split; [done|]. eexists. split; [reflexivity|]. done. Qed.

(** C9, as the code has it.  The processor percentage of a returned
    record is the value that the query returned, as it is, and the
    rendered form is [FormatCPU] of it.  [FormatCPU] renders a
    value below 0.01 as "< 0.01%" and a value of 100 or more as "100%":
    so 0.005 and 150. *)
Theorem FormatCPU_clamps (lib : GoLib) :
  (∀ cpu, SFltb cpu f64_0_01 = true → utils.FormatCPU lib cpu = "< 0.01%")
  ∧ (∀ cpu, SFleb f64_100 cpu = true → utils.FormatCPU lib cpu = "100%")
  ∧ utils.FormatCPU lib f64_0_005 = "< 0.01%"
  ∧ utils.FormatCPU lib f64_150 = "100%"
  ∧ (∀ w pid u,
       resource.GetProcessResourceUsage lib w pid = (Some u, None) →
       ResourceUsage.CPUHuman u = utils.FormatCPU lib (ResourceUsage.CPUPercent u)
       ∧ ∃ p, NewProcessWithContext w pid = Ok p
              ∧ ResourceUsage.CPUPercent u
                = (process.CPUPercentWithContext p).1).
Proof.
  split; [apply FormatCPU_below|]. split; [apply FormatCPU_above|].
  split; [done|]. split; [done|].
  intros w pid u. unfold resource.GetProcessResourceUsage.
  destruct (NewProcessWithContext w pid) as [p|e]; [|done].
  destruct (process.MemoryInfoWithContext p) as [memInfo|e]; [|done].
  intros [= <-]. simpl. split; [done|]. by exists p.
Qed.

Lemma FormatCPU_clamps_witness :
  ResourceUsage.CPUHuman usage_nginx
  = utils.FormatCPU lib_example (ResourceUsage.CPUPercent usage_nginx)
  ∧ ∃ p, NewProcessWithContext world_8080 77 = Ok p
         ∧ ResourceUsage.CPUPercent usage_nginx
           = (process.CPUPercentWithContext p).1.
Proof.
  exact (proj2 (proj2 (proj2 (proj2 (FormatCPU_clamps lib_example))))
           world_8080 77%Z usage_nginx eq_refl).
Defined.

(** C9, as it is stated, fails: nginx is sampled at 150 percent, and the
    record carries 150, which is more than 100. *)
Lemma GetProcessResourceUsage_cpu_not_clamped :
  ∃ u, resource.GetProcessResourceUsage lib_example world_8080 77
       = (Some u, None)
       ∧ ResourceUsage.CPUPercent u = f64_150
       ∧ SFltb f64_100 (ResourceUsage.CPUPercent u) = true
       ∧ ¬ within_0_100 (ResourceUsage.CPUPercent u).
Proof.
  eexists. split; [reflexivity|]. simpl. split; [done|]. split; [done|].
  by intros [_ ?].
Qed.

(* ================================================================== *)
(** * Services *)

Section services.
Context (lib : GoLib) (w : World).

Lemma GetProcessResourceUsage_without_sampler pid :
  ∃ e, resource.GetProcessResourceUsage lib (without_sampler w) pid
       = (None, Some e).
Proof. by eexists. Qed.

Lemma strip_bare name status pid :
  strip (service.bare name status pid) = service.bare name status pid.
Proof. done. Qed.

Lemma strip_sampled name status pid usage :
  strip (service.sampled name status pid usage) = service.bare name status pid.
Proof. done. Qed.

Lemma macOSService_degrades line :
  service.macOSService lib (without_sampler w) line
  = strip <$> service.macOSService lib w line.
Proof.
  unfold service.macOSService.
  case_bool_decide; [done|]. case_bool_decide; [done|].
  destruct (strconv.ParseInt _ 32) as [pid err].
  destruct (_ || _); [done|].
  destruct (GetProcessResourceUsage_shape lib w (int32 pid))
    as [[u ->]|[e ->]]; done.
Qed.

Lemma linuxService_degrades line :
  service.linuxService lib (without_sampler w) line
  = strip <$> service.linuxService lib w line.
Proof.
  unfold service.linuxService.
  case_bool_decide; [done|]. case_bool_decide; [done|]. simpl.
  destruct (Output w "systemctl" _) as [pidOutput|e]; [|done].
  destruct (_ && _); [|done].
  destruct (strconv.ParseInt _ 32) as [p err].
  destruct (_ && _); [|done].
  destruct (GetProcessResourceUsage_shape lib w (int32 p))
    as [[u ->]|[e ->]]; done.
Qed.

Lemma windowsService_degrades s :
  service.windowsService lib (without_sampler w) s
  = strip (service.windowsService lib w s).
Proof.
  unfold service.windowsService.
  case_bool_decide; [|done].
  destruct (GetProcessResourceUsage_shape lib w (int32 (ServiceObj.PID s)))
    as [[u ->]|[e ->]]; done.
Qed.

Lemma omap_degrades (f f' : string → option ServiceInfo.t)
    (lines : list string) :
  (∀ line, f' line = strip <$> f line) →
  omap f' lines = strip <$> omap f lines.
Proof.
  intros Hf. induction lines as [|line lines IH]; simpl; [done|].
  rewrite Hf. destruct (f line); simpl; [f_equal|]; apply IH.
Qed.

(** The platforms with the records of one run and of a run in which no
    sample can be had. *)
Lemma GetServices_without_sampler :
  service.GetServices lib (without_sampler w)
  = (strip <$> (service.GetServices lib w).1, (service.GetServices lib w).2).
Proof.
  unfold service.GetServices. simpl.
  repeat case_bool_decide; try done.
  - unfold service.getMacOSServices. simpl.
    destruct (Output w "launchctl" _) as [output|e]; [|done]. simpl.
    f_equal. apply omap_degrades, macOSService_degrades.
  - unfold service.getLinuxServices. simpl.
    destruct (Output w "systemctl" _) as [output|e]; [|done]. simpl.
    f_equal. apply omap_degrades, linuxService_degrades.
  - unfold service.getWindowsServices. simpl.
    destruct (Output w "powershell" _) as [output|e]; [|done].
    destruct (json_Unmarshal_slice lib output) as [serviceObjs|e].
    + simpl. f_equal. rewrite <- list_fmap_compose.
      apply list_fmap_ext. intros _ s _. apply windowsService_degrades.
    + destruct (json_Unmarshal_object lib output) as [serviceObj|e'];
        [|done].
      simpl. by rewrite windowsService_degrades.
Qed.

(** A record whose sample fails carries no figure. *)
Lemma macOSService_failed line r :
  service.macOSService lib w line = Some r →
  (resource.GetProcessResourceUsage lib w (ServiceInfo.PID r)).2 ≠ None →
  r = strip r.
Proof.
  unfold service.macOSService.
  case_bool_decide; [done|]. case_bool_decide; [done|].
  destruct (strconv.ParseInt _ 32) as [pid err].
  destruct (_ || _); [by intros [= <-]|].
  destruct (GetProcessResourceUsage_shape lib w (int32 pid))
    as [[u Hu]|[e Hu]]; rewrite Hu; intros [= <-]; simpl; [|done].
  by rewrite Hu.
Qed.

Lemma linuxService_failed line r :
  service.linuxService lib w line = Some r →
  (resource.GetProcessResourceUsage lib w (ServiceInfo.PID r)).2 ≠ None →
  r = strip r.
Proof.
  unfold service.linuxService.
  case_bool_decide; [done|]. case_bool_decide; [done|]. simpl.
  destruct (Output w "systemctl" _) as [pidOutput|e]; [|by intros [= <-]].
  destruct (_ && _); [|by intros [= <-]].
  destruct (strconv.ParseInt _ 32) as [p err].
  destruct (_ && _); [|by intros [= <-]].
  destruct (GetProcessResourceUsage_shape lib w (int32 p))
    as [[u Hu]|[e Hu]]; rewrite Hu; intros [= <-]; simpl; [|done].
  by rewrite Hu.
Qed.

Lemma windowsService_failed s :
  (resource.GetProcessResourceUsage lib w
     (ServiceInfo.PID (service.windowsService lib w s))).2 ≠ None →
  service.windowsService lib w s = strip (service.windowsService lib w s).
Proof.
  unfold service.windowsService.
  case_bool_decide; [|done].
  destruct (GetProcessResourceUsage_shape lib w (int32 (ServiceObj.PID s)))
    as [[u Hu]|[e Hu]]; rewrite Hu; simpl; [|done].
  by rewrite Hu.
Qed.

Lemma GetServices_failed r :
  r ∈ (service.GetServices lib w).1 →
  (resource.GetProcessResourceUsage lib w (ServiceInfo.PID r)).2 ≠ None →
  r = strip r.
Proof.
  unfold service.GetServices.
  repeat case_bool_decide; simpl.
  - unfold service.getMacOSServices.
    destruct (Output w "launchctl" _) as [output|e]; simpl;
      [|by intros ?%elem_of_nil].
    intros (line & _ & Hr)%list_elem_of_omap. exact (macOSService_failed _ _ Hr).
  - unfold service.getLinuxServices.
    destruct (Output w "systemctl" _) as [output|e]; simpl;
      [|by intros ?%elem_of_nil].
    intros (line & _ & Hr)%list_elem_of_omap. exact (linuxService_failed _ _ Hr).
  - unfold service.getWindowsServices.
    destruct (Output w "powershell" _) as [output|e]; simpl;
      [|by intros ?%elem_of_nil].
    destruct (json_Unmarshal_slice lib output) as [serviceObjs|e]; simpl.
    + intros (s & -> & _)%list_elem_of_fmap. apply windowsService_failed.
    + destruct (json_Unmarshal_object lib output) as [serviceObj|e']; simpl;
        [|by intros ?%elem_of_nil].
      intros ->%list_elem_of_singleton. apply windowsService_failed.
  - by intros ?%elem_of_nil.
Qed.

(** What makes the call fail. *)
Lemma GetServices_fatal :
  (service.GetServices lib w).2 ≠ None
  ↔ (GOOS w = "darwin" ∧ ∃ e, Output w "launchctl" ["list"] = Err e)
    ∨ (GOOS w = "linux"
       ∧ ∃ e, Output w "systemctl"
                ["list-units"; "--type=service"; "--no-pager"; "--no-legend"]
              = Err e)
    ∨ (GOOS w = "windows"
       ∧ ((∃ e, Output w "powershell"
                  ["-Command"; service.getWindowsServices_psScript] = Err e)
          ∨ (∃ output e1 e2,
               Output w "powershell"
                 ["-Command"; service.getWindowsServices_psScript] = Ok output
               ∧ json_Unmarshal_slice lib output = Err e1
               ∧ json_Unmarshal_object lib output = Err e2))).
Proof.
  unfold service.GetServices. switch_GOOS w.
  - unfold service.getMacOSServices.
    destruct (Output w "launchctl" _) as [output|e]; simpl.
    + split; [done|]. intros [[_ [e ?]]|[[? _]|[? _]]]; congruence.
    + split; [|done]. intros _. left. eauto.
  - unfold service.getLinuxServices.
    destruct (Output w "systemctl" _) as [output|e]; simpl.
    + split; [done|]. intros [[? _]|[[_ [e ?]]|[? _]]]; congruence.
    + split; [|done]. intros _. right. left. eauto.
  - unfold service.getWindowsServices.
    destruct (Output w "powershell" _) as [output|e]; simpl.
    + destruct (json_Unmarshal_slice lib output) as [serviceObjs|e1] eqn:H1;
        simpl.
      * split; [done|].
        intros [[? _]|[[? _]|[_ [[e ?]|(o & e1 & e2 & [= <-] & ? & ?)]]]];
          congruence.
      * destruct (json_Unmarshal_object lib output) as [serviceObj|e2] eqn:H2;
          simpl.
        -- split; [done|].
           intros [[? _]|[[? _]|[_ [[e ?]|(o & e1' & e2 & [= <-] & ? & ?)]]]];
             congruence.
        -- split; [|done]. intros _. right. right. split; [done|]. right.
           by exists output, e1, e2.
    + split; [|done]. intros _. right. right. split; [done|]. left. eauto.
  - simpl. split; [done|]. intros [[? _]|[[? _]|[? _]]]; congruence.
Qed.

End services.

(** C8, as the code has it.  A service record whose resource sample
    fails carries its name, its status and its pid and no figure.  The
    records and the error of a call are, the figures apart, those of a
    call in which no sample can be had: a failed sample removes no record
    and raises no error.  The call fails exactly when the listing command
    of the platform cannot be run, or, on Windows, when its output
    decodes neither as a list of services nor as one service. *)
Theorem GetServices_degrades (lib : GoLib) (w : World) :
  (∀ r, r ∈ (service.GetServices lib w).1 →
        (resource.GetProcessResourceUsage lib w (ServiceInfo.PID r)).2 ≠ None →
        r = service.bare (ServiceInfo.Name r) (ServiceInfo.Status r)
              (ServiceInfo.PID r))
  ∧ service.GetServices lib (without_sampler w)
    = (strip <$> (service.GetServices lib w).1, (service.GetServices lib w).2)
  ∧ ((service.GetServices lib w).2 ≠ None
     ↔ (GOOS w = "darwin" ∧ ∃ e, Output w "launchctl" ["list"] = Err e)
       ∨ (GOOS w = "linux"
          ∧ ∃ e, Output w "systemctl"
                   ["list-units"; "--type=service"; "--no-pager"; "--no-legend"]
                 = Err e)
       ∨ (GOOS w = "windows"
          ∧ ((∃ e, Output w "powershell"
                     ["-Command"; service.getWindowsServices_psScript] = Err e)
             ∨ (∃ output e1 e2,
                  Output w "powershell"
                    ["-Command"; service.getWindowsServices_psScript]
                  = Ok output
                  ∧ json_Unmarshal_slice lib output = Err e1
                  ∧ json_Unmarshal_object lib output = Err e2)))).
Proof.
  split; [|split].
  - apply GetServices_failed.
  - apply GetServices_without_sampler.
  - apply GetServices_fatal.
Qed.

(** The other copy of the package fails exactly when the listing command
    cannot be run. *)
Lemma GetServices_part_003_fatal (lib : GoLib) (w : World) :
  (service.GetServices_part_003 lib w).2 ≠ None
  ↔ (GOOS w = "darwin" ∧ ∃ e, Output w "launchctl" ["list"] = Err e)
    ∨ (GOOS w = "linux"
       ∧ ∃ e, Output w "systemctl"
                ["list-units"; "--type=service"; "--no-pager"; "--no-legend"]
              = Err e)
    ∨ (GOOS w = "windows"
       ∧ ∃ e, Output w "powershell"
                ["-Command"; service.getWindowsServices_psScript_part_003]
              = Err e).
Proof.
  unfold service.GetServices_part_003. switch_GOOS w.
  - unfold service.getMacOSServices.
    destruct (Output w "launchctl" _) as [output|e]; simpl.
    + split; [done|]. intros [[_ [e ?]]|[[? _]|[? _]]]; congruence.
    + split; [|done]. intros _. left. eauto.
  - unfold service.getLinuxServices.
    destruct (Output w "systemctl" _) as [output|e]; simpl.
    + split; [done|]. intros [[? _]|[[_ [e ?]]|[? _]]]; congruence.
    + split; [|done]. intros _. right. left. eauto.
  - unfold service.getWindowsServices_part_003.
    destruct (Output w "powershell" _) as [output|e]; simpl.
    + split; [done|]. intros [[? _]|[[? _]|[_ [e ?]]]]; congruence.
    + split; [|done]. intros _. right. right. eauto.
  - simpl. split; [done|]. intros [[? _]|[[? _]|[? _]]]; congruence.
Qed.

(** Three services of a macOS system: one sampled, one that does not run,
    one whose process is gone and whose record keeps its pid. *)
Example GetServices_world_launchctl :
  service.GetServices lib_example world_launchctl
  = ([ ServiceInfo.mk "org.nginx" "0" 77 f64_150 f32_zero "512 B" "100%";
       service.bare "com.example.idle" "0" 0;
       service.bare "com.example.gone" "0" 4242 ], None).
Proof. vm_compute. reflexivity. Qed.

Lemma GetServices_degrades_witness :
  service.GetServices lib_example (without_sampler world_launchctl)
  = ([ service.bare "org.nginx" "0" 77;
       service.bare "com.example.idle" "0" 0;
       service.bare "com.example.gone" "0" 4242 ], None).
Proof.
  exact (proj1 (proj2 (GetServices_degrades lib_example world_launchctl))).
Defined.

(** C8, as it is stated, fails on Windows: the listing command runs and
    prints nothing, no sample is asked for, and the call fails all the
    same, with the error of the decoder. *)
Lemma GetServices_decode_fatal :
  GOOS world_windows = "windows"
  ∧ Output world_windows "powershell"
      ["-Command"; service.getWindowsServices_psScript] = Ok ""
  ∧ service.GetServices lib_example world_windows
    = ([], Some "unexpected end of JSON input").
Proof. split; [done|]. split; [done|]. vm_compute. reflexivity. Qed.

(* ================================================================== *)
(** * Windows *)

Section windows.
Context (w : World).

Lemma macOSWindowAlt_nonblank line r :
  window.macOSWindowAlt w line = Some r → nonblank r.
Proof.
  unfold window.macOSWindowAlt.
  case_bool_decide; [done|]. case_bool_decide; [|done].
  guard_holds Ha Ht. intros [= <-].
  split; simpl; eapply bool_decide_eq_true_1; eassumption.
Qed.

Lemma macOSWindow_nonblank line r :
  window.macOSWindow w line = Some r → nonblank r.
Proof.
  unfold window.macOSWindow.
  destruct (_ || _); [done|]. destruct (strings.Contains _ "text"); [done|].
  case_bool_decide; [|done].
  guard_holds Ha Ht. intros [= <-].
  split; simpl; eapply bool_decide_eq_true_1; eassumption.
Qed.

(** Both macOS paths drop an entry with a blank title or a blank owner. *)
Lemma getMacOSWindows_nonblank r :
  r ∈ (window.getMacOSWindows w).1 → nonblank r.
Proof.
  assert (Halt : r ∈ (window.getMacOSWindowsAlt w).1 → nonblank r).
  { unfold window.getMacOSWindowsAlt.
    destruct (Output w "osascript" _) as [output|e]; simpl;
      [|by intros ?%elem_of_nil].
    intros (line & _ & Hr)%list_elem_of_omap.
    by apply macOSWindowAlt_nonblank in Hr. }
  unfold window.getMacOSWindows.
  destruct (Output w "osascript" [_; window.getMacOSWindows_script])
    as [output|e]; simpl; [|by intros ?%elem_of_nil].
  case_bool_decide; [done|]. simpl.
  intros (line & _ & Hr)%list_elem_of_omap.
  by apply macOSWindow_nonblank in Hr.
Qed.

End windows.

(** C4 at the failing inputs.  On Linux the window of a process whose name
    [ps] cannot give is returned with a blank owner; on Windows a window
    whose title is a space is returned with a blank title.  Neither path
    has the test that both macOS paths make before they append. *)
Theorem GetOpenWindows_blank_fields :
  window.GetOpenWindows world_wmctrl
    = ([window.mkWindow "Terminal" 4242 ""], None)
  ∧ window.GetOpenWindows world_blank_title
    = ([window.mkWindow "" 812 "explorer"], None)
  ∧ ¬ nonblank (window.mkWindow "Terminal" 4242 "")
  ∧ ¬ nonblank (window.mkWindow "" 812 "explorer").
Proof.
  split; [by vm_compute|]. split; [by vm_compute|].
  split; intros [? ?]; done.
Qed.

(* ================================================================== *)
(** * Open ports: what the code shows besides *)

Section ports_further.
Context (w : World).

(** An element that is no greater than those that follow stays where it
    is. *)
Lemma select_min_least cur rest :
  Forall (λ x, (PortInfo.Port cur ≤ PortInfo.Port x)%N) rest →
  select_min cur rest = (cur, rest).
Proof.
  induction 1 as [|x rest Hx _ IH]; simpl; [done|].
  destruct (N.ltb_spec (PortInfo.Port x) (PortInfo.Port cur)); [lia|].
  by rewrite IH.
Qed.

Lemma sort_outer_loop_sorted (l : list PortInfo.t) : ∀ pre,
  port_sorted l →
  foldl port.sort_inner (pre ++ l) (seq (length pre) (length l - 1)) = pre ++ l.
Proof.
  induction l as [|cur rest IH]; intros pre Hs; [done|].
  destruct rest as [|x rest]; [done|].
  apply StronglySorted_inv in Hs as [Hs Hall].
  replace (length (cur :: x :: rest) - 1) with (S (length (x :: rest) - 1))
    by (simpl; lia).
  simpl seq. simpl foldl.
  rewrite sort_inner_select, select_min_least by done. simpl fst. simpl snd.
  specialize (IH (pre ++ [cur]) Hs).
  rewrite length_app in IH. simpl length in IH.
  replace (length pre + 1) with (S (length pre)) in IH by lia.
  rewrite <- app_assoc in IH. exact IH.
Qed.

Lemma sort_by_port_sorted (ports : list PortInfo.t) :
  port_sorted ports → port.sort_by_port ports = ports.
Proof. intros Hs. exact (sort_outer_loop_sorted ports [] Hs). Qed.

(** The keys of the values of the map are the keys of the map. *)
Lemma portMap_keys connections :
  key_of <$> (map_to_list (port.portMap_of w connections)).*2
  = (map_to_list (port.portMap_of w connections)).*1.
Proof.
  rewrite <- list_fmap_compose. apply list_fmap_ext.
  intros i [k r] Hl. simpl.
  apply list_elem_of_lookup_2, elem_of_map_to_list in Hl.
  by apply portMap_entry in Hl as [? _].
Qed.

Lemma GetOpenPorts_NoDup_keys ports err :
  port.GetOpenPorts w (ports, err) → NoDup (key_of <$> ports).
Proof.
  destruct err as [e|].
  - intros [_ ->]%GetOpenPorts_err_inv. constructor.
  - intros (connections & _ & Hp & _)%GetOpenPorts_inv.
    rewrite Hp, portMap_keys. apply NoDup_fst_map_to_list.
Qed.

Lemma port_sorted_filter (P : PortInfo.t → Prop) `{!∀ x, Decision (P x)}
    (ports : list PortInfo.t) :
  port_sorted ports → port_sorted (filter P ports).
Proof.
  induction 1 as [|x l _ IH Hall]; [constructor|].
  rewrite filter_cons. case_decide; [|done].
  constructor; [done|]. apply Forall_forall.
  intros y [_ Hy]%list_elem_of_filter. by eapply Forall_forall in Hall.
Qed.

(** Two sorted arrangements of the same records list the same port
    numbers in the same order. *)
Lemma port_sorted_numbers (l1 l2 : list PortInfo.t) :
  port_sorted l1 → port_sorted l2 → l1 ≡ₚ l2 →
  PortInfo.Port <$> l1 = PortInfo.Port <$> l2.
Proof.
  intros H1 H2 Hp.
  apply (StronglySorted_unique N.le).
  - eapply StronglySorted_fmap; [|exact H1]. done.
  - eapply StronglySorted_fmap; [|exact H2]. done.
  - by rewrite Hp.
Qed.

Lemma port_sorted_unique (l1 l2 : list PortInfo.t) :
  port_sorted l1 → port_sorted l2 → l1 ≡ₚ l2 →
  NoDup (PortInfo.Port <$> l1) → l1 = l2.
Proof.
  intros H1 H2 Hp Hnd.
  apply (StronglySorted_unique_strong
           (λ a b, (PortInfo.Port a ≤ PortInfo.Port b)%N)); try done.
  intros x1 x2 Hx1 Hx2 Hle Hge. rewrite <- Hp in Hx2.
  assert (Heq : PortInfo.Port x1 = PortInfo.Port x2) by lia.
  apply list_elem_of_lookup in Hx1 as [i Hi].
  apply list_elem_of_lookup in Hx2 as [j Hj].
  assert (i = j) as ->; [|congruence].
  eapply NoDup_lookup; [exact Hnd| |].
  - rewrite list_lookup_fmap, Hi. done.
  - rewrite list_lookup_fmap, Hj. simpl. by rewrite Heq.
Qed.

(** The filters return a part of what [GetOpenPorts] returns, in the
    same order. *)
Lemma filtered_sublist (res : list PortInfo.t * option error) :
  port.GetOpenPorts w res
  ∨ (∃ n, port.GetPortInfoByPort w n res)
  ∨ (∃ pid, port.GetPortsByPID w pid res) →
  ∃ allPorts err,
    port.GetOpenPorts w (allPorts, err) ∧ res.1 `sublist_of` allPorts.
Proof.
  intros [H|[[n H]|[pid H]]].
  - destruct res as [ports err]. by exists ports, err.
  - inversion H as [allPorts e Hall|allPorts Hall]; subst; simpl.
    + exists allPorts, (Some e). split; [done|]. apply sublist_nil_l.
    + exists allPorts, None. split; [done|]. apply sublist_filter.
  - inversion H as [allPorts e Hall|allPorts Hall]; subst; simpl.
    + exists allPorts, (Some e). split; [done|]. apply sublist_nil_l.
    + exists allPorts, None. split; [done|]. apply sublist_filter.
Qed.

Lemma GetOpenPorts_NoDup_pairs ports err :
  port.GetOpenPorts w (ports, err) →
  NoDup ((λ r, (PortInfo.LocalIP r, PortInfo.Port r)) <$> ports).
Proof.
  intros Hall.
  apply (NoDup_fmap_1 (λ k, port.portKey k.1 k.2)).
  rewrite <- list_fmap_compose.
  exact (GetOpenPorts_NoDup_keys _ _ Hall).
Qed.

Lemma GetOpenPorts_port_nonzero ports err :
  port.GetOpenPorts w (ports, err) →
  Forall (λ r, PortInfo.Port r ≠ 0%N) ports.
Proof.
  intros Hall. apply Forall_forall. intros r Hr.
  destruct (GetOpenPorts_elem_of w _ _ _ Hall Hr)
    as (connections & c & _ & _ & _ & Hp & ->). done.
Qed.

Lemma filter_none {A} (P : A → Prop) `{!∀ x, Decision (P x)} (l : list A) :
  Forall (λ x, ¬ P x) l → filter P l = [].
Proof.
  induction 1 as [|x l Hx _ IH]; [done|].
  rewrite filter_cons. by rewrite decide_False.
Qed.

End ports_further.

(** X1.  The hand-written sort of [GetOpenPorts] leaves a list that is
    already in the order of its port numbers as it is, records with equal
    port numbers included; and sorting any list twice gives what sorting
    it once gives. *)
Theorem sort_by_port_fixpoint (ports : list PortInfo.t) :
  (port_sorted ports → port.sort_by_port ports = ports)
  ∧ port.sort_by_port (port.sort_by_port ports) = port.sort_by_port ports.
Proof.
  split; [apply sort_by_port_sorted|].
  apply sort_by_port_sorted, sort_by_port_spec.
Qed.

Lemma sort_by_port_fixpoint_witness :
  port.sort_by_port [record_22; record_8080] = [record_22; record_8080].
Proof.
  refine (proj1 (sort_by_port_fixpoint [record_22; record_8080]) _).
  repeat constructor; simpl; lia.
Defined.

(** Two sockets on the same port and on two addresses: the call may
    return their records in either order. *)
Example GetOpenPorts_world_80 :
  port.GetOpenPorts world_80
    ([record_80 "0.0.0.0"; record_80 "127.0.0.1"], None)
  ∧ port.GetOpenPorts world_80
      ([record_80 "127.0.0.1"; record_80 "0.0.0.0"], None).
Proof.
  assert (Hm : (map_to_list (port.portMap_of world_80 conns_80)).*2
               ≡ₚ [record_80 "0.0.0.0"; record_80 "127.0.0.1"]).
  { vm_compute. first [reflexivity | apply Permutation_swap]. }
  split.
  - change (port.GetOpenPorts world_80
              (port.sort_by_port [record_80 "0.0.0.0"; record_80 "127.0.0.1"],
               None)).
    eapply port.GetOpenPorts_ok; [reflexivity|]. by rewrite Hm.
  - change (port.GetOpenPorts world_80
              (port.sort_by_port [record_80 "127.0.0.1"; record_80 "0.0.0.0"],
               None)).
    eapply port.GetOpenPorts_ok; [reflexivity|]. rewrite Hm.
    apply Permutation_swap.
Qed.

(** X2.  The successful results of [GetOpenPorts] are exactly the
    arrangements of the records kept in the map that are in the order of
    their port numbers: each of them is returned for some order of the
    [range] over the map, and nothing else is. *)
Theorem GetOpenPorts_results (w : World) (ports : list PortInfo.t) :
  port.GetOpenPorts w (ports, None)
  ↔ ∃ connections,
      ConnectionsWithContext w = Ok connections
      ∧ ports ≡ₚ (map_to_list (port.portMap_of w connections)).*2
      ∧ port_sorted ports.
Proof.
  split; [apply GetOpenPorts_inv|].
  intros (connections & Hc & Hp & Hs).
  rewrite <- (sort_by_port_sorted ports Hs).
  by eapply port.GetOpenPorts_ok.
Qed.

Lemma GetOpenPorts_results_witness :
  port.GetOpenPorts world_80
    ([record_80 "127.0.0.1"; record_80 "0.0.0.0"], None).
Proof.
  apply GetOpenPorts_results. exists conns_80. split; [done|]. split.
  - vm_compute. first [reflexivity | apply Permutation_swap].
  - repeat constructor; simpl; lia.
Defined.

(** X3.  No two records of a result of [GetOpenPorts] have the same local
    address and port, and no record has the port 0; the same holds of the
    filtered results, and a query for the port 0 returns no record. *)
Theorem GetOpenPorts_distinct (w : World) :
  (∀ res : list PortInfo.t * option error,
     port.GetOpenPorts w res
     ∨ (∃ n, port.GetPortInfoByPort w n res)
     ∨ (∃ pid, port.GetPortsByPID w pid res) →
     NoDup ((λ r, (PortInfo.LocalIP r, PortInfo.Port r)) <$> res.1)
     ∧ Forall (λ r, PortInfo.Port r ≠ 0%N) res.1)
  ∧ (∀ ports err, port.GetPortInfoByPort w 0 (ports, err) → ports = []).
Proof.
  split.
  - intros res (allPorts & err & Hall & Hsub)%filtered_sublist. split.
    + eapply sublist_NoDup; [exact (GetOpenPorts_NoDup_pairs w _ _ Hall)|].
      by apply fmap_sublist.
    + apply Forall_forall. intros r Hr%(sublist_subseteq _ _ Hsub).
      pose proof (GetOpenPorts_port_nonzero w _ _ Hall) as H0.
      by eapply Forall_forall in H0.
  - intros ports err.
    inversion 1 as [allPorts e Hall|allPorts Hall]; subst; [done|].
    apply filter_none. exact (GetOpenPorts_port_nonzero w _ _ Hall).
Qed.

Lemma GetOpenPorts_distinct_witness :
  (NoDup ((λ r, (PortInfo.LocalIP r, PortInfo.Port r)) <$> ports_8080)
   ∧ Forall (λ r, PortInfo.Port r ≠ 0%N) ports_8080)
  ∧ filter (λ p, PortInfo.Port p = 0%N) ports_8080 = [].
Proof.
  split.
  - apply (proj1 (GetOpenPorts_distinct world_8080) (ports_8080, None)).
    left. apply GetOpenPorts_world_8080.
  - apply (proj2 (GetOpenPorts_distinct world_8080) _ None).
    apply port.GetPortInfoByPort_ok, GetOpenPorts_world_8080.
Defined.

(** X4.  The owner of a port never makes a call fail.  A record whose pid
    is not positive, or for whose pid no process handle can be had,
    carries a blank name and a blank path; otherwise its name and its
    path are the answers of the name query and of the path query of that
    process, each blank if the query fails. *)
Theorem GetOpenPorts_owner (w : World)
    (res : list PortInfo.t * option error) (r : PortInfo.t) :
  port.GetOpenPorts w res
  ∨ (∃ n, port.GetPortInfoByPort w n res)
  ∨ (∃ pid, port.GetPortsByPID w pid res) →
  r ∈ res.1 →
  ((PortInfo.PID r ≤ 0)%Z → PortInfo.Name r = "" ∧ PortInfo.Path r = "")
  ∧ (∀ e, NewProcessWithContext w (PortInfo.PID r) = Err e →
          PortInfo.Name r = "" ∧ PortInfo.Path r = "")
  ∧ (∀ p, (0 < PortInfo.PID r)%Z →
          NewProcessWithContext w (PortInfo.PID r) = Ok p →
          PortInfo.Name r = val_or "" (checked (process.NameWithContext p))
          ∧ PortInfo.Path r = val_or "" (process.ExeWithContext p)).
Proof.
  intros (allPorts & err & Hall & Hsub)%filtered_inv Hr.
  apply Hsub in Hr.
  destruct (GetOpenPorts_elem_of w _ _ _ Hall Hr)
    as (connections & c & _ & _ & _ & _ & ->).
  simpl. unfold port.procInfo.
  destruct (Z.ltb_spec 0 (net.Pid c)) as [Hpos|Hneg].
  - split; [lia|]. split.
    + intros e ->. done.
    + intros p _ ->. done.
  - split; [done|]. split; [done|]. intros p ?. lia.
Qed.

Lemma GetOpenPorts_owner_witness :
  ((PortInfo.PID record_8080 ≤ 0)%Z
   → PortInfo.Name record_8080 = "" ∧ PortInfo.Path record_8080 = "")
  ∧ (∀ e, NewProcessWithContext world_8080 (PortInfo.PID record_8080) = Err e →
          PortInfo.Name record_8080 = "" ∧ PortInfo.Path record_8080 = "")
  ∧ (∀ p, (0 < PortInfo.PID record_8080)%Z →
          NewProcessWithContext world_8080 (PortInfo.PID record_8080) = Ok p →
          PortInfo.Name record_8080
          = val_or "" (checked (process.NameWithContext p))
          ∧ PortInfo.Path record_8080 = val_or "" (process.ExeWithContext p)).
Proof.
  apply (GetOpenPorts_owner world_8080 (ports_8080, None)).
  - left. apply GetOpenPorts_world_8080.
  - rewrite ports_8080_eq. simpl. right. left.
Defined.

(** X5.  A call of the port package fails exactly when the socket table
    cannot be had; it then returns the error of that query and no record.
    When the socket table can be had no call fails, whatever the process
    lookups answer. *)
Theorem port_errors (w : World) :
  (∀ ports e,
     port.GetOpenPorts w (ports, Some e)
     ↔ ConnectionsWithContext w = Err e ∧ ports = [])
  ∧ (∀ n ports e,
     port.GetPortInfoByPort w n (ports, Some e)
     ↔ ConnectionsWithContext w = Err e ∧ ports = [])
  ∧ (∀ pid ports e,
     port.GetPortsByPID w pid (ports, Some e)
     ↔ ConnectionsWithContext w = Err e ∧ ports = [])
  ∧ (∀ connections res,
     ConnectionsWithContext w = Ok connections →
     port.GetOpenPorts w res
     ∨ (∃ n, port.GetPortInfoByPort w n res)
     ∨ (∃ pid, port.GetPortsByPID w pid res) →
     res.2 = None).
Proof.
  assert (H1 : ∀ ports e,
     port.GetOpenPorts w (ports, Some e)
     ↔ ConnectionsWithContext w = Err e ∧ ports = []).
  { intros ports e. split; [apply GetOpenPorts_err_inv|].
    intros [He ->]. by apply port.GetOpenPorts_err. }
  split; [done|]. split; [|split].
  - intros n ports e. split.
    + inversion 1 as [allPorts e' Hall|]; subst.
      by apply H1 in Hall as [? _].
    + intros [He ->]. eapply port.GetPortInfoByPort_err. apply H1. done.
  - intros pid ports e. split.
    + inversion 1 as [allPorts e' Hall|]; subst.
      by apply H1 in Hall as [? _].
    + intros [He ->]. eapply port.GetPortsByPID_err. apply H1. done.
  - intros connections res Hc [H|[[n H]|[pid H]]].
    + destruct res as [ports [e|]]; [|done].
      apply H1 in H as [? _]. congruence.
    + inversion H as [allPorts e Hall|]; subst; [|done].
      apply H1 in Hall as [? _]. congruence.
    + inversion H as [allPorts e Hall|]; subst; [|done].
      apply H1 in Hall as [? _]. congruence.
Qed.

Lemma port_errors_witness :
  (ports_8080, @None error).2 = None.
Proof.
  apply (proj2 (proj2 (proj2 (port_errors world_8080))) conns_8080).
  - done.
  - left. apply GetOpenPorts_world_8080.
Defined.

(** X6.  The order of the [range] over the map shows in the result only
    among records with the same port number.  Two results of
    [GetOpenPorts] on the same system agree on the error, hold the same
    records and list the same port numbers in the same order; they are
    equal when no two records have the same port number. *)
Theorem GetOpenPorts_deterministic (w : World) ports1 err1 ports2 err2 :
  port.GetOpenPorts w (ports1, err1) →
  port.GetOpenPorts w (ports2, err2) →
  err1 = err2
  ∧ ports1 ≡ₚ ports2
  ∧ PortInfo.Port <$> ports1 = PortInfo.Port <$> ports2
  ∧ (NoDup (PortInfo.Port <$> ports1) → ports1 = ports2).
Proof.
  intros H1 H2.
  destruct err1 as [e1|], err2 as [e2|].
  - apply GetOpenPorts_err_inv in H1 as [He1 ->].
    apply GetOpenPorts_err_inv in H2 as [He2 ->].
    split; [congruence|]. done.
  - apply GetOpenPorts_err_inv in H1 as [He1 ->].
    apply GetOpenPorts_inv in H2 as (c2 & Hc2 & _). congruence.
  - apply GetOpenPorts_err_inv in H2 as [He2 ->].
    apply GetOpenPorts_inv in H1 as (c1 & Hc1 & _). congruence.
  - apply GetOpenPorts_inv in H1 as (c1 & Hc1 & Hp1 & Hs1).
    apply GetOpenPorts_inv in H2 as (c2 & Hc2 & Hp2 & Hs2).
    assert (c2 = c1) as -> by congruence.
    assert (Hp : ports1 ≡ₚ ports2) by (by rewrite Hp1, Hp2).
    split; [done|]. split; [done|]. split.
    + by apply port_sorted_numbers.
    + by apply port_sorted_unique.
Qed.

Lemma GetOpenPorts_deterministic_witness :
  @None error = None
  ∧ ports_8080 ≡ₚ ports_8080
  ∧ PortInfo.Port <$> ports_8080 = PortInfo.Port <$> ports_8080
  ∧ (NoDup (PortInfo.Port <$> ports_8080) → ports_8080 = ports_8080).
Proof.
  apply (GetOpenPorts_deterministic world_8080);
    apply GetOpenPorts_world_8080.
Defined.

(** X7.  The filtered results keep the order of the port numbers.  A
    query by port returns records of that port alone, at most one for
    each local address; a query by pid returns records of that pid alone,
    in the order of their port numbers. *)
Theorem port_filters_sorted (w : World) :
  (∀ n ports err,
     port.GetPortInfoByPort w n (ports, err) →
     port_sorted ports
     ∧ Forall (λ r, PortInfo.Port r = n) ports
     ∧ NoDup (PortInfo.LocalIP <$> ports))
  ∧ (∀ pid ports err,
     port.GetPortsByPID w pid (ports, err) →
     port_sorted ports
     ∧ Forall (λ r, PortInfo.PID r = pid) ports).
Proof.
  split.
  - intros n ports err.
    inversion 1 as [allPorts e Hall|allPorts Hall]; subst.
    { repeat split; constructor. }
    assert (Hn : Forall (λ r, PortInfo.Port r = n)
                   (filter (λ p, PortInfo.Port p = n) allPorts)).
    { apply Forall_forall. by intros r [? _]%list_elem_of_filter. }
    split; [|split; [done|]].
    + apply port_sorted_filter.
      by apply GetOpenPorts_inv in Hall as (? & _ & _ & ?).
    + apply (NoDup_fmap_1 (λ ip, (ip, n))).
      rewrite <- list_fmap_compose.
      erewrite list_fmap_ext.
      * eapply sublist_NoDup; [exact (GetOpenPorts_NoDup_pairs w _ _ Hall)|].
        apply fmap_sublist, sublist_filter.
      * intros i r Hr. simpl.
        apply list_elem_of_lookup_2 in Hr.
        eapply Forall_forall in Hn; [|exact Hr]. by rewrite Hn.
  - intros pid ports err.
    inversion 1 as [allPorts e Hall|allPorts Hall]; subst.
    { repeat split; constructor. }
    split.
    + apply port_sorted_filter.
      by apply GetOpenPorts_inv in Hall as (? & _ & _ & ?).
    + apply Forall_forall. by intros r [? _]%list_elem_of_filter.
Qed.

Lemma port_filters_sorted_witness :
  port_sorted [record_8080]
  ∧ Forall (λ r, PortInfo.Port r = 8080%N) [record_8080]
  ∧ NoDup (PortInfo.LocalIP <$> [record_8080]).
Proof.
  apply (proj1 (port_filters_sorted world_8080) 8080%N [record_8080] None).
  apply GetPortInfoByPort_8080.
Defined.

(** X8.  The key of the map of [GetOpenPorts].  The text
    [address:port] tells the address and the port: two pairs have the
    same key only if they are the same pair, also when the address holds
    colons itself, as an IPv6 address does.  So the map merges the
    connections of one address and port, and no others. *)
Theorem portKey_identifies (ip1 ip2 : string) (p1 p2 : N) :
  port.portKey ip1 p1 = port.portKey ip2 p2 ↔ ip1 = ip2 ∧ p1 = p2.
Proof.
  split; [apply portKey_inj|]. by intros [-> ->].
Qed.

Example portKey_IPv6 :
  port.portKey "::1" 8080 = "::1:8080"
  ∧ port.portKey "::" 18080 = ":::18080"
  ∧ port.portKey "::1" 8080 ≠ port.portKey "::" 18080.
Proof. split; [done|]. split; [done|]. by intros [? ?]%portKey_inj. Qed.

(* ================================================================== *)
(** * User applications: what the code shows besides *)

Section user_applications_further.
Context (w : World).

Lemma pid_sorted_numbers (l1 l2 : list ProcessInfo.t) :
  pid_sorted l1 → pid_sorted l2 → l1 ≡ₚ l2 →
  ProcessInfo.PID <$> l1 = ProcessInfo.PID <$> l2.
Proof.
  intros H1 H2 Hp.
  apply (StronglySorted_unique Z.le).
  - eapply StronglySorted_fmap; [|exact H1]. done.
  - eapply StronglySorted_fmap; [|exact H2]. done.
  - by rewrite Hp.
Qed.

Lemma pid_sorted_unique (l1 l2 : list ProcessInfo.t) :
  pid_sorted l1 → pid_sorted l2 → l1 ≡ₚ l2 →
  NoDup (ProcessInfo.PID <$> l1) → l1 = l2.
Proof.
  intros H1 H2 Hp Hnd.
  apply (StronglySorted_unique_strong
           (λ a b, (ProcessInfo.PID a ≤ ProcessInfo.PID b)%Z)); try done.
  intros x1 x2 Hx1 Hx2 Hle Hge. rewrite <- Hp in Hx2.
  assert (Heq : ProcessInfo.PID x1 = ProcessInfo.PID x2) by lia.
  apply list_elem_of_lookup in Hx1 as [i Hi].
  apply list_elem_of_lookup in Hx2 as [j Hj].
  assert (i = j) as ->; [|congruence].
  eapply NoDup_lookup; [exact Hnd| |].
  - rewrite list_lookup_fmap, Hi. done.
  - rewrite list_lookup_fmap, Hj. simpl. by rewrite Heq.
Qed.

(** The pids of the records are pids of the table, in its order. *)
Lemma userProcs_pids procs :
  ProcessInfo.PID <$> process_pkg.userProcs w procs
  `sublist_of` process.Pid <$> procs.
Proof.
  unfold process_pkg.userProcs.
  induction procs as [|p procs IH]; simpl; [constructor|].
  destruct (process_pkg.userProc w _ p) as [r|] eqn:Hr; simpl.
  - apply userProc_Some in Hr as (name & exe & user & _ & _ & _ & _ & _ & _ & ->).
    simpl. by apply sublist_skip.
  - by apply sublist_cons.
Qed.

(** The system prefixes are ASCII on every platform. *)
Lemma getSystemPrefixes_ascii :
  Forall (λ prefix, ascii_only prefix = true) (process_pkg.getSystemPrefixes w).
Proof.
  unfold process_pkg.getSystemPrefixes.
  switch_GOOS w; repeat constructor.
Qed.

Lemma isSystemProcess_port_go_spec name prefixes :
  process_pkg.isSystemProcess_port_go name prefixes = true
  ↔ ∃ prefix, prefix ∈ prefixes ∧ strings.HasPrefix name prefix = true.
Proof.
  induction prefixes as [|prefix prefixes IH]; simpl.
  - split; [done|]. by intros (? & ?%elem_of_nil & _).
  - destruct (strings.HasPrefix name prefix) eqn:Hp.
    + split; [|done]. intros _. exists prefix. split; [left|done].
    + rewrite IH. split.
      * intros (prefix' & Hin & H). exists prefix'. split; [by right|done].
      * intros (prefix' & [->|Hin]%elem_of_cons & H); [congruence|].
        by exists prefix'.
Qed.

(** What the earlier copy skips by name, the later copy skips too. *)
Lemma isSystemProcess_port_go_later name prefixes :
  Forall (λ prefix, ascii_only prefix = true) prefixes →
  process_pkg.isSystemProcess_port_go name prefixes = true →
  process_pkg.isSystemProcess name prefixes = true.
Proof.
  intros Hascii (prefix & Hin & Hp)%isSystemProcess_port_go_spec.
  unfold process_pkg.isSystemProcess.
  apply isSystemProcess_loop_spec. exists prefix. split; [done|].
  rewrite ToLower_idemp. apply HasPrefix_ToLower; [|done].
  rewrite Forall_forall in Hascii. by apply Hascii.
Qed.

(** A record of the later copy is the record of the earlier copy for the
    same process. *)
Lemma userProc_port_go_later p r :
  process_pkg.userProc w (process_pkg.getSystemPrefixes w) p = Some r →
  process_pkg.userProc_port_go (process_pkg.getSystemPrefixes w) p = Some r.
Proof.
  unfold process_pkg.userProc, process_pkg.userProc_port_go.
  destruct (checked (process.NameWithContext p)) as [name|e]; [|done].
  destruct (process_pkg.isSystemProcess_port_go name _) eqn:Hsys.
  { apply isSystemProcess_port_go_later in Hsys;
      [|apply getSystemPrefixes_ascii]. by rewrite Hsys. }
  destruct (process_pkg.isSystemProcess name _); [done|].
  destruct (process.ExeWithContext p) as [exe|e]; [|done].
  destruct (process.UsernameWithContext p) as [u|e]; simpl.
  - destruct (process_pkg.isSystemUser u (GOOS w)); [done|].
    by case_bool_decide.
  - done.
Qed.

(** What the earlier copy returns and the later copy does not. *)
Lemma userProc_port_go_only p r :
  process_pkg.userProc_port_go (process_pkg.getSystemPrefixes w) p = Some r →
  process_pkg.userProc w (process_pkg.getSystemPrefixes w) p = None →
  system_name w (ProcessInfo.Name r)
  ∨ ProcessInfo.User r = ""
  ∨ system_account (GOOS w) (ProcessInfo.User r).
Proof.
  unfold process_pkg.userProc_port_go. intros Hr Hnone.
  destruct (checked (process.NameWithContext p)) as [name|e] eqn:Hname; [|done].
  destruct (process_pkg.isSystemProcess_port_go name _); [done|].
  destruct (process.ExeWithContext p) as [exe|e] eqn:Hexe; [|done].
  injection Hr as <-. simpl.
  apply userProc_None in Hnone
    as [[e ?]|[(name' & ? & ?)|[[e ?]|[[e He]|(user & Hu & Hsys)]]]];
    try congruence.
  - left. congruence.
  - right. left. by rewrite He.
  - rewrite Hu. destruct Hsys as [?|?]; [right; right|right; left]; done.
Qed.

Lemma omap_submseteq {A B} (f g : A → option B) (l : list A) :
  (∀ x y, f x = Some y → g x = Some y) →
  omap f l ⊆+ omap g l.
Proof.
  intros Hfg. induction l as [|x l IH]; simpl; [done|].
  destruct (f x) as [y|] eqn:Hf.
  - rewrite (Hfg _ _ Hf). by apply submseteq_skip.
  - destruct (g x); [by apply submseteq_cons|done].
Qed.

Lemma GetUserApplications_port_go_inv apps :
  process_pkg.GetUserApplications_port_go w (apps, None) →
  ∃ procs,
    ProcessesWithContext w = Ok procs
    ∧ apps ≡ₚ omap (process_pkg.userProc_port_go
                      (process_pkg.getSystemPrefixes w)) procs
    ∧ pid_sorted apps.
Proof.
  inversion 1 as [|procs sorted Hp Hs]; subst.
  apply sort_Slice_pid_sorted in Hs as [Hperm Hsorted].
  by exists procs.
Qed.

Lemma GetUserApplications_port_go_total :
  ∃ res, process_pkg.GetUserApplications_port_go w res.
Proof.
  destruct (ProcessesWithContext w) as [procs|e] eqn:Hp.
  - destruct (sort_Slice_total
                (omap (process_pkg.userProc_port_go
                         (process_pkg.getSystemPrefixes w)) procs))
      as [sorted Hs].
    eexists. by eapply process_pkg.GetUserApplications_port_go_ok.
  - eexists. by eapply process_pkg.GetUserApplications_port_go_err.
Qed.

End user_applications_further.

(** X9.  The arrangement that [sort.Slice] chooses shows in the result of
    [GetUserApplications] only among records with the same pid.  Two
    results on the same system agree on the error, hold the same records
    and list the same pids in the same order; they are equal when no two
    records have the same pid, and so whenever the pids of the process
    table are distinct. *)
Theorem GetUserApplications_deterministic (w : World) apps1 err1 apps2 err2 :
  process_pkg.GetUserApplications w (apps1, err1) →
  process_pkg.GetUserApplications w (apps2, err2) →
  err1 = err2
  ∧ apps1 ≡ₚ apps2
  ∧ ProcessInfo.PID <$> apps1 = ProcessInfo.PID <$> apps2
  ∧ (NoDup (ProcessInfo.PID <$> apps1) → apps1 = apps2)
  ∧ (∀ procs, ProcessesWithContext w = Ok procs →
              NoDup (process.Pid <$> procs) → apps1 = apps2).
Proof.
  intros H1 H2.
  destruct err1 as [e1|], err2 as [e2|].
  - apply GetUserApplications_err_inv in H1 as [He1 ->].
    apply GetUserApplications_err_inv in H2 as [He2 ->].
    split; [congruence|]. done.
  - apply GetUserApplications_err_inv in H1 as [He1 ->].
    apply GetUserApplications_inv in H2 as (p2 & Hp2 & _). congruence.
  - apply GetUserApplications_err_inv in H2 as [He2 ->].
    apply GetUserApplications_inv in H1 as (p1 & Hp1 & _). congruence.
  - apply GetUserApplications_inv in H1 as (p1 & Hp1 & Hperm1 & Hs1).
    apply GetUserApplications_inv in H2 as (p2 & Hp2 & Hperm2 & Hs2).
    assert (p2 = p1) as -> by congruence.
    assert (Hp : apps1 ≡ₚ apps2) by (by rewrite Hperm1, Hperm2).
    split; [done|]. split; [done|]. split; [|split].
    + by apply pid_sorted_numbers.
    + by apply pid_sorted_unique.
    + intros procs Hprocs Hnd. assert (procs = p1) as -> by congruence.
      apply pid_sorted_unique; try done.
      rewrite Hperm1.
      eapply sublist_NoDup; [exact Hnd|]. apply userProcs_pids.
Qed.

Lemma GetUserApplications_deterministic_witness :
  @None error = None
  ∧ [record_nginx; record_chrome] ≡ₚ [record_nginx; record_chrome]
  ∧ ProcessInfo.PID <$> [record_nginx; record_chrome]
    = ProcessInfo.PID <$> [record_nginx; record_chrome]
  ∧ (NoDup (ProcessInfo.PID <$> [record_nginx; record_chrome]) →
     [record_nginx; record_chrome] = [record_nginx; record_chrome])
  ∧ (∀ procs, ProcessesWithContext world_8080 = Ok procs →
              NoDup (process.Pid <$> procs) →
              [record_nginx; record_chrome] = [record_nginx; record_chrome]).
Proof.
  apply (GetUserApplications_deterministic world_8080);
    apply GetUserApplications_world_8080.
Defined.

(** The earlier copy on a table with a process of root and a process
    whose name starts with a system prefix in another case. *)
Example GetUserApplications_port_go_world_owners :
  process_pkg.GetUserApplications_port_go world_owners
    ([record_sshd; record_helper; record_chrome], None).
Proof.
  eapply process_pkg.GetUserApplications_port_go_ok; [reflexivity|].
  split.
  - vm_compute. etrans; [|apply Permutation_swap]. constructor.
    apply Permutation_swap.
  - repeat constructor.
Qed.

Example GetUserApplications_world_owners :
  process_pkg.GetUserApplications world_owners ([record_chrome], None).
Proof.
  eapply process_pkg.GetUserApplications_ok; [reflexivity|].
  split; [by vm_compute|]. repeat constructor.
Qed.

(** X10.  The two copies of [GetUserApplications].  On the same system
    they fail together, with the same error.  Every record that the
    later copy returns is returned by the earlier copy as well, as the
    same record; a record that the earlier copy alone returns has a name
    with a system prefix in some other case of the letters, or an owner
    that is blank or a system account. *)
Theorem GetUserApplications_copies (w : World) apps err apps' err' :
  process_pkg.GetUserApplications w (apps, err) →
  process_pkg.GetUserApplications_port_go w (apps', err') →
  err = err'
  ∧ apps ⊆+ apps'
  ∧ (∀ r, r ∈ apps' →
          r ∈ apps
          ∨ system_name w (ProcessInfo.Name r)
          ∨ ProcessInfo.User r = ""
          ∨ system_account (GOOS w) (ProcessInfo.User r)).
Proof.
  intros H H'.
  destruct err as [e|].
  - apply GetUserApplications_err_inv in H as [He ->].
    inversion H' as [e' He'|procs sorted Hp Hs]; subst; [|congruence].
    split; [congruence|]. split; [done|]. by intros r ?%elem_of_nil.
  - apply GetUserApplications_inv in H as (procs & Hp & Hperm & _).
    destruct err' as [e'|].
    { inversion H' as [e'' He'|]; subst. congruence. }
    apply GetUserApplications_port_go_inv in H'
      as (procs' & Hp' & Hperm' & _).
    assert (procs' = procs) as -> by congruence.
    split; [done|]. split.
    + rewrite Hperm, Hperm'. apply omap_submseteq, userProc_port_go_later.
    + intros r Hr. rewrite Hperm' in Hr.
      apply list_elem_of_omap in Hr as (p & Hin & Hr).
      destruct (process_pkg.userProc w (process_pkg.getSystemPrefixes w) p)
        as [r'|] eqn:Hlater.
      * left. rewrite Hperm. apply list_elem_of_omap. exists p.
        split; [done|].
        apply userProc_port_go_later in Hlater as Hearlier. congruence.
      * right. by eapply userProc_port_go_only.
Qed.

Lemma GetUserApplications_copies_witness :
  @None error = None
  ∧ [record_chrome] ⊆+ [record_sshd; record_helper; record_chrome]
  ∧ (∀ r, r ∈ [record_sshd; record_helper; record_chrome] →
          r ∈ [record_chrome]
          ∨ system_name world_owners (ProcessInfo.Name r)
          ∨ ProcessInfo.User r = ""
          ∨ system_account (GOOS world_owners) (ProcessInfo.User r)).
Proof.
  apply (GetUserApplications_copies world_owners).
  - apply GetUserApplications_world_owners.
  - apply GetUserApplications_port_go_world_owners.
Defined.

(** X11.  What a record of [GetUserApplications] tells besides the name,
    the path and the user, in both copies of the package.  Its pid is the
    pid of a process of the table; its status is the status words of that
    process joined by commas, blank if they cannot be had; and its start
    time is blank always, since [formatTime] returns the empty string. *)
Theorem GetUserApplications_records (w : World) apps err r :
  process_pkg.GetUserApplications w (apps, err)
  ∨ process_pkg.GetUserApplications_port_go w (apps, err) →
  r ∈ apps →
  ProcessInfo.StartTime r = ""
  ∧ ∃ procs p,
      ProcessesWithContext w = Ok procs ∧ p ∈ procs
      ∧ ProcessInfo.PID r = process.Pid p
      ∧ checked (process.NameWithContext p) = Ok (ProcessInfo.Name r)
      ∧ ProcessInfo.Status r
        = match process.StatusWithContext p with
          | Ok st => strings.Join st ","
          | Err _ => ""
          end.
Proof.
  assert (Hearly : ∀ p r,
    process_pkg.userProc_port_go (process_pkg.getSystemPrefixes w) p = Some r →
    ProcessInfo.StartTime r = ""
    ∧ ProcessInfo.PID r = process.Pid p
    ∧ checked (process.NameWithContext p) = Ok (ProcessInfo.Name r)
    ∧ ProcessInfo.Status r
      = match process.StatusWithContext p with
        | Ok st => strings.Join st ","
        | Err _ => ""
        end).
  { intros p r'. unfold process_pkg.userProc_port_go.
    destruct (checked (process.NameWithContext p)) as [name|e]; [|done].
    destruct (process_pkg.isSystemProcess_port_go name _); [done|].
    destruct (process.ExeWithContext p) as [exe|e]; [|done].
    intros [= <-]. simpl. split; [|done].
    by destruct (process.CreateTimeWithContext p). }
  intros [H|H] Hr; destruct err as [e|].
  - apply GetUserApplications_err_inv in H as [_ ->].
    by apply elem_of_nil in Hr.
  - apply GetUserApplications_inv in H as (procs & Hp & Hperm & _).
    rewrite Hperm in Hr. apply list_elem_of_omap in Hr as (p & Hin & Hr).
    apply userProc_port_go_later in Hr.
    destruct (Hearly _ _ Hr) as (? & ? & ? & ?).
    split; [done|]. by exists procs, p.
  - inversion H; subst. by apply elem_of_nil in Hr.
  - apply GetUserApplications_port_go_inv in H as (procs & Hp & Hperm & _).
    rewrite Hperm in Hr. apply list_elem_of_omap in Hr as (p & Hin & Hr).
    destruct (Hearly _ _ Hr) as (? & ? & ? & ?).
    split; [done|]. by exists procs, p.
Qed.

Lemma GetUserApplications_records_witness :
  ProcessInfo.StartTime record_chrome = ""
  ∧ ∃ procs p,
      ProcessesWithContext world_apps = Ok procs ∧ p ∈ procs
      ∧ ProcessInfo.PID record_chrome = process.Pid p
      ∧ checked (process.NameWithContext p) = Ok (ProcessInfo.Name record_chrome)
      ∧ ProcessInfo.Status record_chrome
        = match process.StatusWithContext p with
          | Ok st => strings.Join st ","
          | Err _ => ""
          end.
Proof.
  apply (GetUserApplications_records world_apps [record_chrome] None).
  - left. apply GetUserApplications_world_apps.
  - left.
Defined.

(* ================================================================== *)
(** * Top processes *)

(** The comparison of [float64] values is a strict order, also in the
    presence of values that are not numbers. *)
Lemma SFltb_irrefl (x : spec_float) : SFltb x x = false.
Proof.
  unfold SFltb. destruct x as [s|s| |s m e]; cbn [SFcompare];
    try done; destruct s; try done;
    rewrite Z.compare_refl, Pos.compare_cont_refl; done.
Qed.

Lemma SFltb_finite s1 m1 e1 s2 m2 e2 :
  SFltb (S754_finite s1 m1 e1) (S754_finite s2 m2 e2) = true
  ↔ match s1, s2 with
    | true, false => True
    | false, true => False
    | false, false => (e1 < e2)%Z ∨ (e1 = e2 ∧ (m1 < m2)%positive)
    | true, true => (e2 < e1)%Z ∨ (e1 = e2 ∧ (m2 < m1)%positive)
    end.
Proof.
  unfold SFltb. cbn [SFcompare].
  destruct s1, s2; try done.
  - destruct (Z.compare_spec e1 e2) as [->|Hlt|Hgt].
    + fold (Pos.compare m1 m2).
      destruct (Pos.compare_spec m1 m2) as [->|Hm|Hm]; simpl;
        (split; [try done|intros [?|[_ ?]]; try done; lia]).
      intros _. right. done.
    + split; [done|]. intros [?|[? _]]; lia.
    + split; [|done]. intros _. by left.
  - destruct (Z.compare_spec e1 e2) as [->|Hlt|Hgt].
    + fold (Pos.compare m1 m2).
      destruct (Pos.compare_spec m1 m2) as [->|Hm|Hm]; simpl;
        (split; [try done|intros [?|[_ ?]]; try done; lia]).
      intros _. right. done.
    + split; [|done]. intros _. by left.
    + split; [done|]. intros [?|[? _]]; lia.
Qed.

Lemma SFltb_trans (x y z : spec_float) :
  SFltb x y = true → SFltb y z = true → SFltb x z = true.
Proof.
  destruct x as [sx|sx| |sx mx ex], y as [sy|sy| |sy my ey],
    z as [sz|sz| |sz mz ez];
    try done; try (by destruct sx); try (by destruct sy);
    try (by destruct sz);
    try (by destruct sx, sy); try (by destruct sy, sz);
    try (by destruct sx, sz); try (by destruct sx, sy, sz).
  rewrite !SFltb_finite. destruct sx, sy, sz; try done; lia.
Qed.

Section sort_usages.
Context (less : ResourceUsage.t → ResourceUsage.t → bool).

Lemma select_top_perm cur rest :
  (select_top less cur rest).1 :: (select_top less cur rest).2 ≡ₚ cur :: rest.
Proof.
  revert cur. induction rest as [|x rest IH]; intros cur; simpl; [done|].
  destruct (less cur x).
  - specialize (IH x). destruct (select_top less x rest) as [m r]; simpl in *.
    etrans; [apply Permutation_swap|]. by f_equiv.
  - specialize (IH cur).
    destruct (select_top less cur rest) as [m r]; simpl in *.
    etrans; [apply Permutation_swap|].
    etrans; [|apply Permutation_swap]. by f_equiv.
Qed.

Lemma select_top_length cur rest :
  length (select_top less cur rest).2 = length rest.
Proof.
  revert cur. induction rest as [|x rest IH]; intros cur; simpl; [done|].
  destruct (less cur x).
  - specialize (IH x). destruct (select_top less x rest); simpl in *. lia.
  - specialize (IH cur). destruct (select_top less cur rest); simpl in *. lia.
Qed.

(** The inner loop, run from index [i + 1 + length mid] to the end. *)
Lemma sort_usages_inner_loop (pre : list ResourceUsage.t) cur mid rest :
  foldl (resource.swap_if_less less (length pre)) (pre ++ cur :: mid ++ rest)
    (seq (S (length pre) + length mid) (length rest))
  = pre ++ (select_top less cur rest).1
        :: mid ++ (select_top less cur rest).2.
Proof.
  revert cur mid. induction rest as [|x rest IH]; intros cur mid; simpl.
  - done.
  - assert (Hi : (pre ++ cur :: mid ++ x :: rest) !! length pre = Some cur).
    { by rewrite list_lookup_middle. }
    assert (Hj : (pre ++ cur :: mid ++ x :: rest) !! S (length pre + length mid)
                 = Some x).
    { rewrite lookup_app_r by lia.
      replace (S (length pre + length mid) - length pre)
        with (S (length mid)) by lia.
      simpl. by rewrite list_lookup_middle. }
    unfold resource.swap_if_less at 2. rewrite Hi, Hj.
    replace (S (S (length pre + length mid)))
      with (S (length pre) + length (mid ++ [x]))
      by (rewrite length_app; simpl; lia).
    destruct (less cur x).
    + assert (Hsw : <[S (length pre + length mid) := cur]>
                      (<[length pre := x]> (pre ++ cur :: mid ++ x :: rest))
                    = pre ++ x :: (mid ++ [cur]) ++ rest).
      { rewrite insert_app_r_alt by lia.
        replace (length pre - length pre) with 0 by lia. simpl.
        rewrite insert_app_r_alt by lia.
        replace (S (length pre + length mid) - length pre)
          with (S (length mid)) by lia.
        simpl. f_equal. f_equal.
        rewrite insert_app_r_alt by lia.
        replace (length mid - length mid) with 0 by lia. simpl.
        by rewrite <- app_assoc. }
      rewrite Hsw.
      replace (length (mid ++ [x])) with (length (mid ++ [cur]))
        by (rewrite !length_app; done).
      rewrite IH. destruct (select_top less x rest) as [m r]; simpl.
      by rewrite <- app_assoc.
    + replace (pre ++ cur :: mid ++ x :: rest)
        with (pre ++ cur :: (mid ++ [x]) ++ rest)
        by (by rewrite <- app_assoc).
      rewrite IH. destruct (select_top less cur rest) as [m r]; simpl.
      by rewrite <- app_assoc.
Qed.

Lemma sort_usages_inner_select (pre : list ResourceUsage.t) cur rest :
  resource.sort_inner less (pre ++ cur :: rest) (length pre)
  = pre ++ (select_top less cur rest).1 :: (select_top less cur rest).2.
Proof.
  unfold resource.sort_inner.
  replace (length (pre ++ cur :: rest) - S (length pre)) with (length rest)
    by (rewrite length_app; simpl; lia).
  pose proof (sort_usages_inner_loop pre cur [] rest) as H. simpl in H.
  by rewrite Nat.add_0_r in H.
Qed.

(** The sort rearranges, whatever the comparison. *)
Lemma sort_usages_outer_perm n : ∀ (pre l : list ResourceUsage.t),
  length l = n →
  ∃ l', foldl (resource.sort_inner less) (pre ++ l) (seq (length pre) (n - 1))
        = pre ++ l'
        ∧ l' ≡ₚ l.
Proof.
  induction n as [|n IH]; intros pre l Hlen.
  - destruct l; [|done]. by exists [].
  - destruct l as [|cur rest]; [done|]. simpl in Hlen.
    destruct n as [|n].
    + destruct rest; [|done]. by exists [cur].
    + replace (S (S n) - 1) with (S n) by lia. simpl seq. simpl foldl.
      rewrite sort_usages_inner_select.
      pose proof (select_top_perm cur rest) as Hp.
      pose proof (select_top_length cur rest) as Hl.
      destruct (select_top less cur rest) as [m r]; simpl in *.
      destruct (IH (pre ++ [m]) r) as (r' & Heq & Hp'); [lia|].
      exists (m :: r'). rewrite Nat.sub_0_r in Heq.
      rewrite length_app in Heq. simpl length in Heq.
      replace (length pre + 1) with (S (length pre)) in Heq by lia.
      rewrite <- app_assoc in Heq. simpl app in Heq.
      rewrite Heq, <- app_assoc. simpl. split; [done|].
      by rewrite Hp', Hp.
Qed.

Lemma sort_usages_perm (usages : list ResourceUsage.t) :
  resource.sort_usages less usages ≡ₚ usages.
Proof.
  destruct (sort_usages_outer_perm (length usages) [] usages eq_refl)
    as (l' & Heq & Hp).
  unfold resource.sort_usages. simpl in Heq. by rewrite Heq.
Qed.

Hypothesis less_irrefl : ∀ a, less a a = false.
Hypothesis less_trans : ∀ a b c,
  less a b = true → less b c = true → less a c = true.

(** The element selected is [cur] or above it, and it is below none of
    those left behind. *)
Lemma select_top_spec cur rest :
  ((select_top less cur rest).1 = cur
   ∨ less cur (select_top less cur rest).1 = true)
  ∧ Forall (λ x, less (select_top less cur rest).1 x = false)
      (select_top less cur rest).2.
Proof.
  revert cur. induction rest as [|x rest IH]; intros cur; simpl.
  - split; [by left|constructor].
  - destruct (less cur x) eqn:Hcx.
    + destruct (IH x) as [Hm Hall].
      destruct (select_top less x rest) as [m r]; simpl in *.
      assert (Hcm : less cur m = true).
      { destruct Hm as [->|Hm]; [done|]. by eapply less_trans. }
      split; [by right|]. constructor; [|done].
      destruct (less m cur) eqn:Hmc; [|done].
      rewrite <- (less_irrefl m). symmetry. by eapply less_trans.
    + destruct (IH cur) as [Hm Hall].
      destruct (select_top less cur rest) as [m r]; simpl in *.
      split; [done|]. constructor; [|done].
      destruct Hm as [->|Hm]; [done|].
      destruct (less m x) eqn:Hmx; [|done].
      rewrite <- Hcx. symmetry. by eapply less_trans.
Qed.

Lemma sort_usages_outer_loop n : ∀ (pre l : list ResourceUsage.t),
  length l = n →
  ∃ l', foldl (resource.sort_inner less) (pre ++ l) (seq (length pre) (n - 1))
        = pre ++ l'
        ∧ l' ≡ₚ l ∧ descending less l'.
Proof.
  induction n as [|n IH]; intros pre l Hlen.
  - destruct l; [|done]. exists []. repeat split; constructor.
  - destruct l as [|cur rest]; [done|]. simpl in Hlen.
    destruct n as [|n].
    + destruct rest; [|done]. exists [cur]. simpl.
      repeat split; repeat constructor.
    + replace (S (S n) - 1) with (S n) by lia. simpl seq. simpl foldl.
      rewrite sort_usages_inner_select.
      pose proof (select_top_perm cur rest) as Hp.
      destruct (select_top_spec cur rest) as [_ Hall].
      pose proof (select_top_length cur rest) as Hl.
      destruct (select_top less cur rest) as [m r]; simpl in *.
      destruct (IH (pre ++ [m]) r) as (r' & Heq & Hp' & Hs'); [lia|].
      exists (m :: r'). rewrite Nat.sub_0_r in Heq.
      rewrite length_app in Heq. simpl length in Heq.
      replace (length pre + 1) with (S (length pre)) in Heq by lia.
      rewrite <- app_assoc in Heq. simpl app in Heq.
      rewrite Heq, <- app_assoc. simpl. split; [done|]. split.
      * by rewrite Hp', Hp.
      * constructor; [done|]. by rewrite Hp'.
Qed.

Lemma sort_usages_descending (usages : list ResourceUsage.t) :
  descending less (resource.sort_usages less usages).
Proof.
  destruct (sort_usages_outer_loop (length usages) [] usages eq_refl)
    as (l' & Heq & Hp & Hs).
  unfold resource.sort_usages. simpl in Heq. by rewrite Heq.
Qed.

End sort_usages.

Lemma omap_length_le {A B} (f : A → option B) (l : list A) :
  (length (omap f l) ≤ length l)%nat.
Proof.
  induction l as [|x l IH]; [done|].
  change (omap f (x :: l))
    with (match f x with Some y => y :: omap f l | None => omap f l end).
  destruct (f x); simpl; lia.
Qed.

Section top_processes.
Context (lib : GoLib) (w : World).

Lemma usage_of_Some p u :
  resource.usage_of lib w p = Some u
  ↔ resource.GetProcessResourceUsage lib w (process.Pid p) = (Some u, None).
Proof.
  unfold resource.usage_of. simpl.
  destruct (GetProcessResourceUsage_shape lib w (process.Pid p))
    as [[u' ->]|[e ->]]; [|done].
  split; congruence.
Qed.

Lemma less_memory_false a b :
  resource.less_memory a b = false
  ↔ (ResourceUsage.MemoryRSS b ≤ ResourceUsage.MemoryRSS a)%N.
Proof. unfold resource.less_memory. by rewrite N.ltb_ge. Qed.

Lemma descending_less_cpu usages :
  descending resource.less_cpu (resource.sort_usages resource.less_cpu usages).
Proof.
  apply sort_usages_descending.
  - intros a. apply SFltb_irrefl.
  - intros a b c. apply SFltb_trans.
Qed.

Lemma descending_less_memory usages :
  descending resource.less_memory
    (resource.sort_usages resource.less_memory usages).
Proof.
  apply sort_usages_descending; unfold resource.less_memory.
  - intros a. apply N.ltb_irrefl.
  - intros a b c. rewrite !N.ltb_lt. lia.
Qed.

Lemma GetTopProcesses_Ok procs limit sortBy :
  ProcessesWithContext w = Ok procs →
  resource.GetTopProcesses lib w limit sortBy
  = (if bool_decide (0 < limit)%Z
        && bool_decide (limit < Z.of_nat (length (all_usages lib w sortBy procs)))%Z
     then take (Z.to_nat limit) (all_usages lib w sortBy procs)
     else all_usages lib w sortBy procs, None).
Proof.
  intros Hp. unfold resource.GetTopProcesses, all_usages, less_by.
  rewrite Hp. by destruct (bool_decide (sortBy = "cpu")).
Qed.

Lemma GetTopProcesses_take procs limit sortBy :
  ProcessesWithContext w = Ok procs →
  (resource.GetTopProcesses lib w limit sortBy).1
  = if bool_decide (0 < limit)%Z
    then take (Z.to_nat limit) (all_usages lib w sortBy procs)
    else all_usages lib w sortBy procs.
Proof.
  intros Hp. rewrite (GetTopProcesses_Ok procs) by done. simpl.
  case_bool_decide as Hpos; simpl; [|done].
  case_bool_decide as Hlt; [done|].
  rewrite take_ge; [done|]. lia.
Qed.

Lemma all_usages_perm sortBy procs :
  all_usages lib w sortBy procs ≡ₚ omap (resource.usage_of lib w) procs.
Proof. apply sort_usages_perm. Qed.

Lemma all_usages_descending sortBy procs :
  descending (less_by sortBy) (all_usages lib w sortBy procs).
Proof.
  unfold all_usages, less_by. case_bool_decide.
  - apply descending_less_cpu.
  - apply descending_less_memory.
Qed.

Lemma descending_take less n usages :
  descending less usages → descending less (take n usages).
Proof.
  intros Hs. rewrite <- (take_drop n usages) in Hs.
  by apply StronglySorted_app_1_l in Hs.
Qed.

Lemma GetProcessResourceUsage_PID pid u :
  resource.GetProcessResourceUsage lib w pid = (Some u, None) →
  ResourceUsage.PID u = pid.
Proof.
  unfold resource.GetProcessResourceUsage.
  destruct (NewProcessWithContext w pid) as [p|e]; [|done].
  destruct (process.MemoryInfoWithContext p) as [memInfo|e]; [|done].
  by intros [= <-].
Qed.

Lemma GetTopProcesses_Err e limit sortBy :
  ProcessesWithContext w = Err e →
  resource.GetTopProcesses lib w limit sortBy = ([], Some e).
Proof. intros Hp. unfold resource.GetTopProcesses. by rewrite Hp. Qed.

(** What is returned is a part of all the usages, from their start. *)
Lemma GetTopProcesses_prefix procs limit sortBy :
  ProcessesWithContext w = Ok procs →
  ∃ n, (resource.GetTopProcesses lib w limit sortBy).1
       = take n (all_usages lib w sortBy procs).
Proof.
  intros Hp. rewrite (GetTopProcesses_take procs) by done.
  case_bool_decide.
  - by eexists.
  - exists (length (all_usages lib w sortBy procs)). by rewrite take_ge.
Qed.

End top_processes.

(** X12.  [GetTopProcesses] fails exactly when the process table cannot
    be had, and then returns no usage.  Every usage that it returns is the
    usage that [GetProcessResourceUsage] gives for a process of the table;
    a process whose sample fails is left out and does not make the call
    fail.  When the limit is not positive, or is not below the number of
    processes, all the usages that can be sampled are returned. *)
Theorem GetTopProcesses_samples (lib : GoLib) (w : World)
    (limit : Z) (sortBy : string) :
  (∀ e, (resource.GetTopProcesses lib w limit sortBy).2 = Some e
        ↔ ProcessesWithContext w = Err e)
  ∧ ((resource.GetTopProcesses lib w limit sortBy).2 ≠ None →
     (resource.GetTopProcesses lib w limit sortBy).1 = [])
  ∧ (∀ u, u ∈ (resource.GetTopProcesses lib w limit sortBy).1 →
          ∃ procs p,
            ProcessesWithContext w = Ok procs ∧ p ∈ procs
            ∧ ResourceUsage.PID u = process.Pid p
            ∧ resource.GetProcessResourceUsage lib w (process.Pid p)
              = (Some u, None))
  ∧ (∀ procs,
       ProcessesWithContext w = Ok procs →
       (limit ≤ 0 ∨ Z.of_nat (length procs) ≤ limit)%Z →
       (resource.GetTopProcesses lib w limit sortBy).1
       ≡ₚ omap (resource.usage_of lib w) procs).
Proof.
  destruct (ProcessesWithContext w) as [procs|e0] eqn:Hp.
  - rewrite (GetTopProcesses_Ok lib w procs) by done. simpl.
    split; [done|]. split; [done|]. split.
    + intros u Hu. exists procs.
      assert (Hin : u ∈ all_usages lib w sortBy procs).
      { destruct (_ && _); [|done]. by eapply subseteq_take. }
      rewrite all_usages_perm in Hin.
      apply list_elem_of_omap in Hin as (p & Hin & Hu').
      apply usage_of_Some in Hu'. exists p.
      split; [done|]. split; [done|]. split; [|done].
      by eapply GetProcessResourceUsage_PID.
    + intros procs' [= <-] Hlimit.
      pose proof (all_usages_perm lib w sortBy procs) as Hperm.
      assert (Hlen : (length (all_usages lib w sortBy procs) ≤ length procs)%nat).
      { rewrite Hperm. apply omap_length_le. }
      case_bool_decide as Hpos; simpl; [|done].
      case_bool_decide as Hlt; [lia|done].
  - rewrite (GetTopProcesses_Err lib w e0) by done. simpl.
    split; [split; congruence|]. split; [done|].
    split; [by intros u ?%elem_of_nil|]. done.
Qed.

(** Two of the three processes can be sampled. *)
Example GetTopProcesses_world_top :
  resource.GetTopProcesses lib_example world_top 0 "memory"
  = ([usage_editor; usage_compiler], None)
  ∧ resource.GetTopProcesses lib_example world_top 0 "cpu"
    = ([usage_compiler; usage_editor], None)
  ∧ resource.GetTopProcesses lib_example world_top 1 "cpu"
    = ([usage_compiler], None).
Proof. split; [|split]; vm_compute; reflexivity. Qed.

Lemma GetTopProcesses_samples_witness :
  resource.GetTopProcesses lib_example world_top 1 "cpu"
  = ([usage_compiler], None)
  ∧ ∃ procs p,
      ProcessesWithContext world_top = Ok procs ∧ p ∈ procs
      ∧ ResourceUsage.PID usage_compiler = process.Pid p
      ∧ resource.GetProcessResourceUsage lib_example world_top (process.Pid p)
        = (Some usage_compiler, None).
Proof.
  split; [vm_compute; reflexivity|].
  apply (proj1 (proj2 (proj2
           (GetTopProcesses_samples lib_example world_top 1 "cpu")))).
  vm_compute. left.
Defined.

(** X13.  The usages that [GetTopProcesses] returns are in descending
    order: by processor share when [sortBy] is [cpu] (no usage has a share
    below that of a usage after it, shares that are not numbers
    included), and by resident memory for every other value of
    [sortBy]. *)
Theorem GetTopProcesses_sorted (lib : GoLib) (w : World)
    (limit : Z) (sortBy : string) :
  (sortBy = "cpu" →
   StronglySorted
     (λ a b, SFltb (ResourceUsage.CPUPercent a) (ResourceUsage.CPUPercent b)
             = false)
     (resource.GetTopProcesses lib w limit sortBy).1)
  ∧ (sortBy ≠ "cpu" →
     StronglySorted
       (λ a b, (ResourceUsage.MemoryRSS b ≤ ResourceUsage.MemoryRSS a)%N)
       (resource.GetTopProcesses lib w limit sortBy).1).
Proof.
  destruct (ProcessesWithContext w) as [procs|e0] eqn:Hp.
  - destruct (GetTopProcesses_prefix lib w procs limit sortBy Hp) as [n ->].
    pose proof (descending_take _ n _
                  (all_usages_descending lib w sortBy procs)) as Hs.
    unfold less_by in Hs. split; intros Hby.
    + rewrite bool_decide_true in Hs by done. exact Hs.
    + rewrite bool_decide_false in Hs by done.
      clear -Hs. induction Hs as [|a l _ IH Hall]; constructor; [done|].
      eapply Forall_impl; [exact Hall|]. intros b. apply less_memory_false.
  - rewrite (GetTopProcesses_Err lib w e0) by done. simpl.
    split; intros _; constructor.
Qed.

Lemma GetTopProcesses_sorted_witness :
  StronglySorted
    (λ a b, SFltb (ResourceUsage.CPUPercent a) (ResourceUsage.CPUPercent b)
            = false)
    (resource.GetTopProcesses lib_example world_top 0 "cpu").1
  ∧ StronglySorted
      (λ a b, (ResourceUsage.MemoryRSS b ≤ ResourceUsage.MemoryRSS a)%N)
      (resource.GetTopProcesses lib_example world_top 0 "memory").1.
Proof.
  split.
  - by apply (proj1 (GetTopProcesses_sorted lib_example world_top 0 "cpu")).
  - by apply (proj2 (GetTopProcesses_sorted lib_example world_top 0 "memory")).
Defined.

(** X14.  The limit of [GetTopProcesses] cuts the sorted list and does
    nothing else.  With a limit that is not positive the call returns
    what it returns with the limit 0, all the usages; with a positive
    limit it returns the first [limit] of them, or all of them when they
    are fewer.  No usage that is returned is below a usage that is cut
    off, in the comparison that [sortBy] selects. *)
Theorem GetTopProcesses_limit (lib : GoLib) (w : World)
    (limit : Z) (sortBy : string) :
  (resource.GetTopProcesses lib w limit sortBy).2
  = (resource.GetTopProcesses lib w 0 sortBy).2
  ∧ ((limit ≤ 0)%Z →
     (resource.GetTopProcesses lib w limit sortBy).1
     = (resource.GetTopProcesses lib w 0 sortBy).1)
  ∧ ((0 < limit)%Z →
     (resource.GetTopProcesses lib w limit sortBy).1
     = take (Z.to_nat limit) (resource.GetTopProcesses lib w 0 sortBy).1
     ∧ length (resource.GetTopProcesses lib w limit sortBy).1
       = Nat.min (Z.to_nat limit)
           (length (resource.GetTopProcesses lib w 0 sortBy).1))
  ∧ (∀ a b,
       a ∈ (resource.GetTopProcesses lib w limit sortBy).1 →
       b ∈ drop (length (resource.GetTopProcesses lib w limit sortBy).1)
             (resource.GetTopProcesses lib w 0 sortBy).1 →
       (sortBy = "cpu" →
        SFltb (ResourceUsage.CPUPercent a) (ResourceUsage.CPUPercent b)
        = false)
       ∧ (sortBy ≠ "cpu" →
          (ResourceUsage.MemoryRSS b ≤ ResourceUsage.MemoryRSS a)%N)).
Proof.
  destruct (ProcessesWithContext w) as [procs|e0] eqn:Hp.
  - rewrite !(GetTopProcesses_take lib w procs) by done.
    rewrite !(GetTopProcesses_Ok lib w procs) by done.
    rewrite (bool_decide_false (0 < 0)%Z) by lia. simpl.
    split; [done|]. split; [|split].
    + intros Hle. by rewrite bool_decide_false by lia.
    + intros Hpos. rewrite bool_decide_true by done.
      split; [done|]. apply length_take.
    + intros a b Ha Hb.
      assert (Hab : less_by sortBy a b = false).
      { pose proof (all_usages_descending lib w sortBy procs) as Hs.
        case_bool_decide.
        - rewrite length_take in Hb.
          rewrite <- (take_drop (Z.to_nat limit)) in Hs.
          refine (StronglySorted_app_1_elem_of
                    (λ a b, less_by sortBy a b = false) _ _ a b Hs Ha _).
          destruct (Nat.min_spec (Z.to_nat limit)
                      (length (all_usages lib w sortBy procs)))
            as [[_ Hmin]|[Hge Hmin]]; rewrite Hmin in Hb; [done|].
          rewrite drop_all in Hb. by apply elem_of_nil in Hb.
        - rewrite drop_all in Hb. by apply elem_of_nil in Hb. }
      unfold less_by in Hab. split; intros Hby.
      * by rewrite bool_decide_true in Hab.
      * rewrite bool_decide_false in Hab by done.
        by apply less_memory_false.
  - rewrite !(GetTopProcesses_Err lib w e0) by done. simpl.
    split; [done|]. split; [done|]. split.
    + intros _. rewrite take_nil. split; [done|]. lia.
    + by intros a b ?%elem_of_nil.
Qed.

Lemma GetTopProcesses_limit_witness :
  (resource.GetTopProcesses lib_example world_top 1 "cpu").1
  = take 1 (resource.GetTopProcesses lib_example world_top 0 "cpu").1
  ∧ length (resource.GetTopProcesses lib_example world_top 1 "cpu").1
    = Nat.min 1 (length (resource.GetTopProcesses lib_example world_top 0 "cpu").1).
Proof.
  by apply (proj1 (proj2 (proj2
              (GetTopProcesses_limit lib_example world_top 1 "cpu")))).
Defined.

(* ================================================================== *)
(** * Formatting: the unit of [FormatBytes] *)

Section formatting_further.
Context (lib : GoLib).

(** The loop keeps [div] a power of 1024 that is not above [bytes], and
    stops at the greatest one. *)
Lemma FormatBytes_loop_unit (bytes : N) fuel : ∀ n div exp,
  n = (bytes / 1024 ^ (N.of_nat exp + 1))%N →
  div = Z.of_N (1024 ^ (N.of_nat exp + 1)) →
  (1024 ^ (N.of_nat exp + 1) ≤ bytes)%N →
  (n < 1024 ^ N.of_nat fuel)%N →
  (utils.FormatBytes_loop fuel n div exp).1
  = Z.of_N (1024 ^ (N.of_nat (utils.FormatBytes_loop fuel n div exp).2 + 1))
  ∧ (1024 ^ (N.of_nat (utils.FormatBytes_loop fuel n div exp).2 + 1) ≤ bytes
     < 1024 ^ (N.of_nat (utils.FormatBytes_loop fuel n div exp).2 + 2))%N.
Proof.
  induction fuel as [|fuel IH]; intros n div exp Hn Hdiv Hle Hfuel.
  - simpl in Hfuel. assert (n = 0%N) as Hn0 by lia. rewrite Hn0 in Hn.
    symmetry in Hn. apply N.div_small_iff in Hn; [lia|].
    apply N.pow_nonzero. done.
  - assert (Hpow : (1024 ^ (N.of_nat (S exp) + 1)
                    = 1024 ^ (N.of_nat exp + 1) * 1024)%N).
    { rewrite Nat2N.inj_succ, <- N.add_1_r, N.pow_add_r. done. }
    assert (Hpow2 : (1024 ^ (N.of_nat exp + 2)
                     = 1024 ^ (N.of_nat exp + 1) * 1024)%N).
    { replace (N.of_nat exp + 2)%N with (N.of_nat exp + 1 + 1)%N by lia.
      by rewrite N.pow_add_r. }
    assert (Hnz : (1024 ^ (N.of_nat exp + 1) ≠ 0)%N)
      by (by apply N.pow_nonzero).
    simpl. destruct (N.leb_spec 1024 n) as [Hge|Hlt].
    + apply IH.
      * rewrite Hpow, Hn. by rewrite N.Div0.div_div.
      * rewrite Hpow, Hdiv. lia.
      * rewrite Hpow.
        pose proof (N.Div0.mul_div_le bytes (1024 ^ (N.of_nat exp + 1))).
        nia.
      * apply N.Div0.div_lt_upper_bound.
        rewrite Nat2N.inj_succ, N.pow_succ_r' in Hfuel. lia.
    + simpl. split; [done|]. split; [done|].
      rewrite Hpow2.
      pose proof (N.mul_succ_div_gt bytes (1024 ^ (N.of_nat exp + 1)) Hnz).
      nia.
Qed.

End formatting_further.

(** X15.  The unit of [FormatBytes].  For a number of bytes from 1024 up
    to the largest 64-bit value the text is the quotient of the bytes by
    the greatest power of 1024 that is not above them, printed with two
    decimals, then a space and the letter of that power and [B].  The
    index of the letter is 5 at most, so that it is one of the six
    letters of [KMGTPE], and the divisor is a 64-bit signed integer. *)
Theorem FormatBytes_unit (lib : GoLib) (bytes : N) :
  (1024 ≤ bytes < 2 ^ 64)%N →
  ∃ (exp : nat) (c : ascii),
    (exp ≤ 5)%nat
    ∧ String.get exp "KMGTPE" = Some c
    ∧ (1024 ^ (N.of_nat exp + 1) ≤ bytes < 1024 ^ (N.of_nat exp + 2))%N
    ∧ (1024 ^ (Z.of_nat exp + 1) < 2 ^ 63)%Z
    ∧ utils.FormatBytes lib bytes
      = Sprintf_2f lib
          (f64_div (f64_of_Z (Z.of_N bytes))
             (f64_of_Z (1024 ^ (Z.of_nat exp + 1))))
        +:+ " " +:+ String c "" +:+ "B".
Proof.
  intros [Hlo Hhi].
  pose proof (FormatBytes_suffix bytes Hhi) as Hexp.
  destruct (FormatBytes_loop_unit bytes 64 (bytes / 1024) 1024 0)
    as [Hdiv Hrange]; try done.
  { apply N.Div0.div_lt_upper_bound.
    assert (2 ^ 64 < 1024 * 1024 ^ N.of_nat 64)%N by done. lia. }
  unfold utils.FormatBytes.
  destruct (N.ltb_spec bytes 1024) as [?|_]; [lia|].
  destruct (utils.FormatBytes_loop 64 (bytes / 1024) 1024 0) as [div exp].
  cbn [fst snd] in *. subst div.
  assert (Hc : ∃ c, String.get exp "KMGTPE" = Some c).
  { do 6 (destruct exp as [|exp]; [by eexists|]). lia. }
  destruct Hc as [c Hc]. exists exp, c.
  assert (Hz : Z.of_N (1024 ^ (N.of_nat exp + 1)) = (1024 ^ (Z.of_nat exp + 1))%Z).
  { rewrite N2Z.inj_pow. f_equal. lia. }
  split; [done|]. split; [done|]. split; [done|]. split.
  - apply (Z.le_lt_trans _ (1024 ^ 6)%Z); [|done].
    apply Z.pow_le_mono_r; lia.
  - rewrite Hc, Hz. done.
Qed.

Lemma FormatBytes_unit_witness :
  ∃ (exp : nat) (c : ascii),
    (exp ≤ 5)%nat
    ∧ String.get exp "KMGTPE" = Some c
    ∧ (1024 ^ (N.of_nat exp + 1) ≤ 5000000 < 1024 ^ (N.of_nat exp + 2))%N
    ∧ (1024 ^ (Z.of_nat exp + 1) < 2 ^ 63)%Z
    ∧ utils.FormatBytes lib_example 5000000
      = Sprintf_2f lib_example
          (f64_div (f64_of_Z (Z.of_N 5000000))
             (f64_of_Z (1024 ^ (Z.of_nat exp + 1))))
        +:+ " " +:+ String c "" +:+ "B".
Proof. apply FormatBytes_unit. split; [done|]. reflexivity. Defined.

(* ================================================================== *)
(** * Formatting: [FormatDuration] *)

Section duration.

Lemma pretty_N_char_digit x : is_digit (pretty_N_char x) = true.
Proof. unfold pretty_N_char. by repeat case_match. Qed.

Lemma pretty_N_go_digits x s :
  all_digits s = true → all_digits (pretty_N_go x s) = true.
Proof.
  revert s. induction (N.lt_wf_0 x) as [x _ IH]; intros s Hs.
  destruct (decide (x = 0%N)) as [->|Hx]; [done|].
  rewrite pretty_N_go_step by lia.
  apply IH; [apply N.div_lt; lia|]. simpl.
  by rewrite pretty_N_char_digit.
Qed.

Lemma pretty_N_digits (x : N) : all_digits (pretty x) = true.
Proof.
  unfold pretty, pretty_N. case_decide; [done|]. by apply pretty_N_go_digits.
Qed.

(** A number, then a byte that is no digit: the text tells the number,
    the byte and what follows. *)
Lemma digits_sep_inj d1 d2 c1 c2 t1 t2 :
  all_digits d1 = true → all_digits d2 = true →
  is_digit c1 = false → is_digit c2 = false →
  d1 +:+ String c1 t1 = d2 +:+ String c2 t2 →
  d1 = d2 ∧ c1 = c2 ∧ t1 = t2.
Proof.
  intros H1 H2 Hc1 Hc2. revert d2 H2.
  induction d1 as [|a d1 IH]; intros [|b d2] H2 Heq.
  - by injection Heq as -> ->.
  - injection Heq as -> _. simpl in H2. by rewrite Hc1 in H2.
  - injection Heq as -> _. simpl in H1. by rewrite Hc2 in H1.
  - injection Heq as -> Heq. simpl in H1, H2.
    apply andb_true_iff in H1 as [_ H1]. apply andb_true_iff in H2 as [_ H2].
    destruct (IH H1 _ H2 Heq) as (-> & -> & ->). done.
Qed.

Lemma pretty_sep_inj (x1 x2 : N) c1 c2 t1 t2 :
  is_digit c1 = false → is_digit c2 = false →
  pretty x1 +:+ String c1 t1 = pretty x2 +:+ String c2 t2 →
  x1 = x2 ∧ c1 = c2 ∧ t1 = t2.
Proof.
  intros Hc1 Hc2 Heq.
  apply digits_sep_inj in Heq as (Hx & -> & ->);
    try done; try apply pretty_N_digits.
  by apply (inj pretty) in Hx.
Qed.

(** The text: a number, the letter of its unit, and what follows. *)
Lemma FormatDuration_shape (s : N) :
  ((s < 60)%N ∧ utils.FormatDuration s = pretty s +:+ String "s" "")
  ∨ ((60 ≤ s < 3600)%N
     ∧ utils.FormatDuration s
       = pretty (s / 60)%N
           +:+ String "m" (String " " (pretty (s mod 60)%N +:+ String "s" "")))
  ∨ ((3600 ≤ s < 86400)%N
     ∧ utils.FormatDuration s
       = pretty (s / 3600)%N
           +:+ String "h"
                 (String " " (pretty ((s mod 3600) / 60)%N +:+ String "m" "")))
  ∨ ((86400 ≤ s)%N
     ∧ utils.FormatDuration s
       = pretty (s / 86400)%N
           +:+ String "d"
                 (String " " (pretty ((s mod 86400) / 3600)%N
                              +:+ String "h" ""))).
Proof.
  unfold utils.FormatDuration.
  destruct (N.ltb_spec s 60); [left; done|].
  destruct (N.ltb_spec s 3600); [right; left; done|].
  destruct (N.ltb_spec s 86400); [right; right; left; done|].
  right; right; right; done.
Qed.

Lemma shown_minutes (a b : N) :
  (a / 3600 = b / 3600 ∧ (a mod 3600) / 60 = (b mod 3600) / 60
   ↔ a / 60 = b / 60)%N.
Proof.
  assert (H : ∀ x : N, (x / 60 = 60 * (x / 3600) + (x mod 3600) / 60)%N
                       ∧ ((x mod 3600) / 60 < 60)%N).
  { intros x. split.
    - rewrite (N.div_mod x 3600) at 1 by done.
      change 3600%N with (60 * 60)%N at 1.
      rewrite <- N.mul_assoc, (N.mul_comm 60 (60 * _)), N.div_add_l by done.
      lia.
    - apply N.Div0.div_lt_upper_bound.
      pose proof (N.mod_lt x 3600). lia. }
  destruct (H a) as [Ha Ha'], (H b) as [Hb Hb']. split.
  - intros [H1 H2]. lia.
  - intros Heq.
    assert (Hd : (a / 3600 = b / 3600)%N).
    { rewrite <- !(N.Div0.div_div _ 60 60) at 1. change (60 * 60)%N with 3600%N.
      replace (a / 3600)%N with (a / 60 / 60)%N
        by (by rewrite N.Div0.div_div).
      replace (b / 3600)%N with (b / 60 / 60)%N
        by (by rewrite N.Div0.div_div).
      by rewrite Heq. }
    split; [done|]. lia.
Qed.

Lemma shown_hours (a b : N) :
  (a / 86400 = b / 86400 ∧ (a mod 86400) / 3600 = (b mod 86400) / 3600
   ↔ a / 3600 = b / 3600)%N.
Proof.
  assert (H : ∀ x : N, (x / 3600 = 24 * (x / 86400) + (x mod 86400) / 3600)%N
                       ∧ ((x mod 86400) / 3600 < 24)%N).
  { intros x. split.
    - rewrite (N.div_mod x 86400) at 1 by done.
      change 86400%N with (3600 * 24)%N at 1.
      rewrite <- N.mul_assoc, (N.mul_comm 3600 (24 * _)), N.div_add_l by done.
      lia.
    - apply N.Div0.div_lt_upper_bound.
      pose proof (N.mod_lt x 86400). lia. }
  destruct (H a) as [Ha Ha'], (H b) as [Hb Hb']. split.
  - intros [H1 H2]. lia.
  - intros Heq.
    assert (Hd : (a / 86400 = b / 86400)%N).
    { replace (a / 86400)%N with (a / 3600 / 24)%N
        by (by rewrite N.Div0.div_div).
      replace (b / 86400)%N with (b / 3600 / 24)%N
        by (by rewrite N.Div0.div_div).
      by rewrite Heq. }
    split; [done|]. lia.
Qed.

End duration.

(** X16.  What [FormatDuration] keeps of a duration.  Two durations
    have the same text exactly when they agree on what is shown: on the
    seconds below one hour, on the whole minutes from one hour to one
    day, on the whole hours from one day on.  So the text is lossless
    below one hour, and never tells a duration that is longer than the
    one given or shorter by an hour or more. *)
Theorem FormatDuration_shown (a b : N) :
  (utils.FormatDuration a = utils.FormatDuration b ↔ shown a = shown b)
  ∧ ((a < 3600)%N → (b < 3600)%N →
     utils.FormatDuration a = utils.FormatDuration b → a = b)
  ∧ (shown a ≤ a)%N ∧ (a - shown a < 3600)%N.
Proof.
  assert (Hiff : utils.FormatDuration a = utils.FormatDuration b
                 ↔ shown a = shown b).
  { unfold shown. split.
    - intros Heq.
      destruct (FormatDuration_shape a)
        as [[Ha Hfa]|[[Ha Hfa]|[[Ha Hfa]|[Ha Hfa]]]];
      destruct (FormatDuration_shape b)
        as [[Hb Hfb]|[[Hb Hfb]|[[Hb Hfb]|[Hb Hfb]]]];
      rewrite Hfa, Hfb in Heq;
      apply pretty_sep_inj in Heq as (Hq & Hc & Ht); try done.
      + destruct (N.ltb_spec a 3600), (N.ltb_spec b 3600); lia.
      + injection Ht as Ht.
        apply pretty_sep_inj in Ht as (Hr & _ & _); try done.
        destruct (N.ltb_spec a 3600), (N.ltb_spec b 3600); try lia.
        rewrite (N.div_mod a 60), (N.div_mod b 60) by done. lia.
      + injection Ht as Ht.
        apply pretty_sep_inj in Ht as (Hr & _ & _); try done.
        destruct (N.ltb_spec a 3600), (N.ltb_spec b 3600); try lia.
        destruct (N.ltb_spec a 86400), (N.ltb_spec b 86400); try lia.
        f_equal. by apply shown_minutes.
      + injection Ht as Ht.
        apply pretty_sep_inj in Ht as (Hr & _ & _); try done.
        destruct (N.ltb_spec a 3600), (N.ltb_spec b 3600); try lia.
        destruct (N.ltb_spec a 86400), (N.ltb_spec b 86400); try lia.
        f_equal. by apply shown_hours.
    - assert (Hm : ∀ x, (3600 ≤ x → 3600 ≤ 60 * (x / 60) ≤ x)%N).
      { intros x Hx. pose proof (N.Div0.mul_div_le x 60).
        pose proof (N.mul_succ_div_gt x 60). lia. }
      assert (Hh : ∀ x, (86400 ≤ x → 86400 ≤ 3600 * (x / 3600) ≤ x)%N).
      { intros x Hx. pose proof (N.Div0.mul_div_le x 3600).
        pose proof (N.mul_succ_div_gt x 3600). lia. }
      destruct (N.ltb_spec a 3600) as [Ha|Ha],
        (N.ltb_spec b 3600) as [Hb|Hb].
      + by intros ->.
      + destruct (N.ltb_spec b 86400); intros ->;
          [pose proof (Hm b)|pose proof (Hh b)]; lia.
      + destruct (N.ltb_spec a 86400); intros <-;
          [pose proof (Hm a)|pose proof (Hh a)]; lia.
      + destruct (N.ltb_spec a 86400) as [Ha'|Ha'],
          (N.ltb_spec b 86400) as [Hb'|Hb']; intros Heq.
        * assert (Hq : (a / 60 = b / 60)%N) by lia.
          apply shown_minutes in Hq as [Hq Hr].
          unfold utils.FormatDuration.
          destruct (N.ltb_spec a 60), (N.ltb_spec b 60); try lia.
          destruct (N.ltb_spec a 3600), (N.ltb_spec b 3600); try lia.
          destruct (N.ltb_spec a 86400), (N.ltb_spec b 86400); try lia.
          by rewrite Hq, Hr.
        * pose proof (Hm a). pose proof (Hh b). lia.
        * pose proof (Hh a). pose proof (Hm b). lia.
        * assert (Hq : (a / 3600 = b / 3600)%N) by lia.
          apply shown_hours in Hq as [Hq Hr].
          unfold utils.FormatDuration.
          destruct (N.ltb_spec a 60), (N.ltb_spec b 60); try lia.
          destruct (N.ltb_spec a 3600), (N.ltb_spec b 3600); try lia.
          destruct (N.ltb_spec a 86400), (N.ltb_spec b 86400); try lia.
          by rewrite Hq, Hr. }
  split; [done|]. split.
  - intros Ha Hb Heq. apply Hiff in Heq. unfold shown in Heq.
    destruct (N.ltb_spec a 3600), (N.ltb_spec b 3600); lia.
  - unfold shown.
    pose proof (N.Div0.mul_div_le a 60). pose proof (N.mul_succ_div_gt a 60).
    pose proof (N.Div0.mul_div_le a 3600).
    pose proof (N.mul_succ_div_gt a 3600).
    destruct (N.ltb_spec a 3600); [lia|].
    destruct (N.ltb_spec a 86400); lia.
Qed.

Example FormatDuration_examples :
  utils.FormatDuration 59 = "59s"
  ∧ utils.FormatDuration 125 = "2m 5s"
  ∧ utils.FormatDuration 3725 = "1h 2m"
  ∧ utils.FormatDuration 3779 = "1h 2m"
  ∧ utils.FormatDuration 90061 = "1d 1h".
Proof. repeat split. Qed.

Lemma FormatDuration_shown_witness : shown 3725 = shown 3779.
Proof. by apply (proj1 (FormatDuration_shown 3725 3779)). Defined.

(* ================================================================== *)
(** * The cells of the tables: [truncateString] *)

Section truncate.

Lemma string_app_length (s1 s2 : string) :
  String.length (s1 +:+ s2) = String.length s1 + String.length s2.
Proof.
  induction s1 as [|c s1 IH]; [done|].
  rewrite string_app_cons. simpl. by rewrite IH.
Qed.

(** The first [n] bytes of a string that has them. *)
Lemma substring_prefix (n : nat) : ∀ s : string,
  (n ≤ String.length s)%nat →
  String.length (String.substring 0 n s) = n
  ∧ ∃ rest, s = String.substring 0 n s +:+ rest.
Proof.
  induction n as [|n IH]; intros s Hn.
  - destruct s; (split; [done|]); by eexists.
  - destruct s as [|c s]; simpl in Hn; [lia|].
    destruct (IH s) as [Hlen [rest Hrest]]; [lia|]. simpl. split; [lia|].
    exists rest. rewrite string_app_cons. by f_equal.
Qed.

End truncate.

(** X17.  [truncateString] keeps a cell within its width.  With a width
    of 3 or more, as everywhere in the package, it returns a text of at
    most [maxLen] bytes: the string itself when it fits, and otherwise
    its first [maxLen - 3] bytes followed by three dots, [maxLen] bytes in
    all.  It panics exactly when the width is below 3 and the string is
    longer than the width. *)
Theorem truncateString_width (s : string) (maxLen : Z) :
  (cli.truncateString s maxLen = None
   ↔ (maxLen < 3 ∧ maxLen < Z.of_nat (String.length s))%Z)
  ∧ ((Z.of_nat (String.length s) ≤ maxLen)%Z →
     cli.truncateString s maxLen = Some s)
  ∧ ((3 ≤ maxLen < Z.of_nat (String.length s))%Z →
     ∃ pre rest,
       s = pre +:+ rest
       ∧ Z.of_nat (String.length pre) = (maxLen - 3)%Z
       ∧ cli.truncateString s maxLen = Some (pre +:+ "..."))
  ∧ (∀ t, cli.truncateString s maxLen = Some t → (3 ≤ maxLen)%Z →
          (Z.of_nat (String.length t) ≤ maxLen)%Z).
Proof.
  assert (Hcut : (3 ≤ maxLen < Z.of_nat (String.length s))%Z →
     ∃ pre rest,
       s = pre +:+ rest
       ∧ Z.of_nat (String.length pre) = (maxLen - 3)%Z
       ∧ cli.truncateString s maxLen = Some (pre +:+ "...")).
  { intros Hm. unfold cli.truncateString.
    rewrite bool_decide_false by lia. rewrite bool_decide_false by lia.
    destruct (substring_prefix (Z.to_nat (maxLen - 3)) s)
      as [Hlen [rest Hrest]]; [lia|].
    exists (String.substring 0 (Z.to_nat (maxLen - 3)) s), rest.
    split; [done|]. split; [lia|done]. }
  split; [|split; [|split; [done|]]].
  - unfold cli.truncateString.
    case_bool_decide as Hfit; [split; [done|lia]|].
    case_bool_decide as Hneg; [split; [lia|done]|].
    split; [done|lia].
  - intros Hfit. unfold cli.truncateString. by rewrite bool_decide_true.
  - intros t Ht Hm.
    destruct (decide (Z.of_nat (String.length s) ≤ maxLen)%Z) as [Hfit|Hlong].
    + unfold cli.truncateString in Ht.
      rewrite bool_decide_true in Ht by done. injection Ht as <-. done.
    + destruct Hcut as (pre & rest & _ & Hlen & Heq); [lia|].
      rewrite Heq in Ht. injection Ht as <-.
      rewrite string_app_length. simpl. lia.
Qed.

Example truncateString_examples :
  cli.truncateString "/usr/bin/chrome" 50 = Some "/usr/bin/chrome"
  ∧ cli.truncateString "/usr/bin/chrome" 10 = Some "/usr/bi..."
  ∧ cli.truncateString "/usr/bin/chrome" 2 = None.
Proof. repeat split. Qed.

Lemma truncateString_width_witness :
  (Z.of_nat (String.length "/usr/bi...") ≤ 10)%Z.
Proof.
  apply (proj2 (proj2 (proj2 (truncateString_width "/usr/bin/chrome" 10))));
    [reflexivity|lia].
Defined.

(* ================================================================== *)
(** * Services: the records *)

Section service_records.
Context (lib : GoLib) (w : World).

(** A number that [ParseInt] accepts lies within the bounds of its bit
    size. *)
Lemma ParseInt_range s bitSize v :
  (0 < bitSize)%Z →
  strconv.ParseInt s bitSize = (v, None) →
  (- 2 ^ (bitSize - 1) ≤ v < 2 ^ (bitSize - 1))%Z.
Proof.
  intros Hbits. unfold strconv.ParseInt.
  assert (Hpow : (0 < 2 ^ (bitSize - 1))%Z) by (apply Z.pow_pos_nonneg; lia).
  destruct (match s with
            | String "-" s' => (true, s')
            | String "+" s' => (false, s')
            | _ => (false, s)
            end) as [neg body].
  destruct body as [|c body]; [done|].
  destruct (strconv.digits 0 (String c body)) as [un|]; [|done].
  destruct neg; simpl.
  - destruct (Z.ltb_spec (2 ^ (bitSize - 1)) (Z.of_N un)); [done|].
    intros [= <-]. lia.
  - destruct (Z.leb_spec (2 ^ (bitSize - 1)) (Z.of_N un)); [done|].
    intros [= <-]. lia.
Qed.

Lemma int32_small z : (- 2 ^ 31 ≤ z < 2 ^ 31)%Z → int32 z = z.
Proof. intros Hz. unfold int32. rewrite Z.mod_small; lia. Qed.

Lemma ParseInt_int32 s v :
  strconv.ParseInt s 32 = (v, None) → int32 v = v.
Proof.
  intros Hv. apply int32_small.
  by apply (ParseInt_range s 32 v) in Hv.
Qed.

Lemma macOSService_record line r :
  service.macOSService lib w line = Some r →
  service_record lib w r
  ∧ (0 ≤ ServiceInfo.PID r < 2 ^ 31)%Z
  ∧ (ServiceInfo.PID r = 0%Z → r = strip r).
Proof.
  unfold service.macOSService.
  case_bool_decide; [done|]. case_bool_decide; [done|].
  destruct (strconv.ParseInt _ 32) as [pid err] eqn:Hparse.
  destruct (_ || _) eqn:Hguard.
  { intros [= <-]. split; [by left|]. split; [|done]. by split. }
  apply orb_false_iff in Hguard as [Herr Hpos].
  apply bool_decide_eq_false in Herr. apply bool_decide_eq_false in Hpos.
  destruct err as [e|]; [by destruct Herr|].
  pose proof (ParseInt_range _ 32 _ eq_refl Hparse) as Hrange.
  rewrite (ParseInt_int32 _ _ Hparse).
  destruct (GetProcessResourceUsage_shape lib w pid)
    as [[u Hu]|[e Hu]]; rewrite Hu; intros [= <-]; simpl.
  - split; [right; by exists u|]. split; [lia|]. intros ?. lia.
  - split; [by left|]. split; [lia|done].
Qed.

Lemma linuxService_record line r :
  service.linuxService lib w line = Some r →
  service_record lib w r
  ∧ (0 ≤ ServiceInfo.PID r < 2 ^ 31)%Z
  ∧ (ServiceInfo.PID r = 0%Z → r = strip r).
Proof.
  unfold service.linuxService.
  case_bool_decide; [done|]. case_bool_decide; [done|]. simpl.
  destruct (Output w "systemctl" _) as [pidOutput|e];
    [|intros [= <-]; split; [by left|split; [by split|done]]].
  destruct (_ && _); [|intros [= <-]; split; [by left|split; [by split|done]]].
  destruct (strconv.ParseInt _ 32) as [p err] eqn:Hparse.
  destruct (_ && _) eqn:Hguard; [|intros [= <-]; split; [by left|split; [by split|done]]].
  apply andb_true_iff in Hguard as [Herr Hpos].
  apply bool_decide_eq_true in Herr. apply bool_decide_eq_true in Hpos.
  subst err.
  pose proof (ParseInt_range _ 32 _ eq_refl Hparse) as Hrange.
  rewrite (ParseInt_int32 _ _ Hparse).
  destruct (GetProcessResourceUsage_shape lib w p)
    as [[u Hu]|[e Hu]]; rewrite Hu; intros [= <-]; simpl.
  - split; [right; by exists u|]. split; [lia|]. intros ?. lia.
  - split; [by left|]. split; [lia|done].
Qed.

Lemma windowsService_record s :
  service_record lib w (service.windowsService lib w s)
  ∧ ServiceInfo.Status (service.windowsService lib w s)
    = strings.ToLower (ServiceObj.Status s).
Proof.
  unfold service.windowsService.
  case_bool_decide; [|split; [by left|done]].
  destruct (GetProcessResourceUsage_shape lib w (int32 (ServiceObj.PID s)))
    as [[u Hu]|[e Hu]]; rewrite Hu; simpl.
  - split; [right; by exists u|done].
  - split; [by left|done].
Qed.

End service_records.

(** X18.  The records of [GetServices].  Every record carries its name,
    its status and its pid, and either no figure or the figures of the
    resource usage that [GetProcessResourceUsage] gives for that very
    pid.  On macOS and on Linux the pid is 0 or a positive 32-bit
    number, and a record with the pid 0 carries no figure; on Windows
    the status is in lower case. *)
Theorem GetServices_records (lib : GoLib) (w : World) (r : ServiceInfo.t) :
  r ∈ (service.GetServices lib w).1 →
  service_record lib w r
  ∧ (GOOS w = "darwin" ∨ GOOS w = "linux" →
     (0 ≤ ServiceInfo.PID r < 2 ^ 31)%Z
     ∧ (ServiceInfo.PID r = 0%Z →
        r = service.bare (ServiceInfo.Name r) (ServiceInfo.Status r) 0))
  ∧ (GOOS w = "windows" →
     ServiceInfo.Status r = strings.ToLower (ServiceInfo.Status r)).
Proof.
  unfold service.GetServices. switch_GOOS w.
  - unfold service.getMacOSServices.
    destruct (Output w "launchctl" _) as [output|e]; simpl;
      [|by intros ?%elem_of_nil].
    intros (line & _ & Hr)%list_elem_of_omap.
    apply macOSService_record in Hr as (Hrec & Hpid & Hbare).
    split; [done|]. split; [|congruence].
    intros _. split; [done|]. intros H0. specialize (Hbare H0).
    unfold strip in Hbare. by rewrite H0 in Hbare.
  - unfold service.getLinuxServices.
    destruct (Output w "systemctl" _) as [output|e]; simpl;
      [|by intros ?%elem_of_nil].
    intros (line & _ & Hr)%list_elem_of_omap.
    apply linuxService_record in Hr as (Hrec & Hpid & Hbare).
    split; [done|]. split; [|congruence].
    intros _. split; [done|]. intros H0. specialize (Hbare H0).
    unfold strip in Hbare. by rewrite H0 in Hbare.
  - assert (Hwin : ∀ s,
              service_record lib w (service.windowsService lib w s)
              ∧ (GOOS w = "darwin" ∨ GOOS w = "linux" →
                 (0 ≤ ServiceInfo.PID (service.windowsService lib w s) < 2 ^ 31)%Z
                 ∧ (ServiceInfo.PID (service.windowsService lib w s) = 0%Z →
                    service.windowsService lib w s
                    = service.bare
                        (ServiceInfo.Name (service.windowsService lib w s))
                        (ServiceInfo.Status (service.windowsService lib w s))
                        0))
              ∧ (GOOS w = "windows" →
                 ServiceInfo.Status (service.windowsService lib w s)
                 = strings.ToLower
                     (ServiceInfo.Status (service.windowsService lib w s)))).
    { intros s. destruct (windowsService_record lib w s) as [Hrec Hst].
      split; [done|]. split; [intros [?|?]; congruence|].
      intros _. by rewrite Hst, ToLower_idemp. }
    unfold service.getWindowsServices.
    destruct (Output w "powershell" _) as [output|e]; simpl;
      [|by intros ?%elem_of_nil].
    destruct (json_Unmarshal_slice lib output) as [serviceObjs|e]; simpl.
    + intros (s & -> & _)%list_elem_of_fmap. apply Hwin.
    + destruct (json_Unmarshal_object lib output) as [serviceObj|e']; simpl;
        [|by intros ?%elem_of_nil].
      intros ->%list_elem_of_singleton. apply Hwin.
  - by intros ?%elem_of_nil.
Qed.

Lemma GetServices_records_witness :
  service_record lib_example world_launchctl
    (service.bare "com.example.gone" "0" 4242).
Proof.
  apply (GetServices_records lib_example world_launchctl).
  rewrite GetServices_world_launchctl. simpl. do 2 right. left.
Defined.

(* ================================================================== *)
(** * Windows: the records and the failures *)

Section window_records.
Context (w : World).

Lemma rev_app_nonempty (s acc : string) :
  acc ≠ "" → String.rev_app s acc ≠ "".
Proof.
  revert acc. induction s as [|c s IH]; intros acc Hacc; simpl; [done|].
  by apply IH.
Qed.

Lemma rev_nonempty (s : string) : s ≠ "" → String.rev s ≠ "".
Proof.
  destruct s as [|c s]; [done|]. intros _.
  unfold String.rev. simpl. by apply rev_app_nonempty.
Qed.

(** [strings.Fields] yields no empty field. *)
Lemma words_go_nonempty (s : string) : ∀ cur x,
  (∀ acc, cur = Some acc → acc ≠ "") →
  x ∈ String.words_go cur s → x ≠ "".
Proof.
  induction s as [|c s IH]; intros cur x Hcur; simpl.
  - destruct cur as [acc|]; simpl; [|by intros ?%elem_of_nil].
    intros ->%list_elem_of_singleton.
    apply rev_nonempty. by apply Hcur.
  - destruct (Ascii.is_space c).
    + intros [Hx|Hx]%elem_of_app.
      * destruct cur as [acc|]; simpl in Hx; [|by apply elem_of_nil in Hx].
        apply list_elem_of_singleton in Hx as ->.
        apply rev_nonempty. by apply Hcur.
      * by apply (IH None).
    + apply IH. intros acc [= <-]. by destruct cur.
Qed.

Lemma Fields_nonempty (s x : string) : x ∈ strings.Fields s → x ≠ "".
Proof. by apply words_go_nonempty. Qed.

Lemma Join_nonempty (x : string) (l : list string) (sep : string) :
  x ≠ "" → strings.Join (x :: l) sep ≠ "".
Proof.
  unfold strings.Join. destruct x as [|c x]; [done|]. intros _.
  destruct l as [|y l]; simpl; [done|]. by rewrite string_app_cons.
Qed.

Lemma linuxWindow_title line r :
  window.linuxWindow w line = Some r → WindowInfo.Title r ≠ "".
Proof.
  unfold window.linuxWindow.
  case_bool_decide as Hlen; [|done].
  destruct (strconv.ParseInt _ 32) as [pid err]. intros [= <-]. simpl.
  destruct (drop 4 (strings.Fields line)) as [|x l] eqn:Hdrop.
  { apply (f_equal length) in Hdrop. rewrite length_drop in Hdrop.
    simpl in Hdrop. lia. }
  apply Join_nonempty. apply (Fields_nonempty line).
  eapply subseteq_drop. rewrite Hdrop. left.
Qed.

(** Every record is built by [mkWindow]. *)
Lemma GetOpenWindows_mkWindow r :
  r ∈ (window.GetOpenWindows w).1 →
  r = window.mkWindow (WindowInfo.Title r) (WindowInfo.PID r)
        (WindowInfo.Process r).
Proof.
  assert (Halt : r ∈ (window.getMacOSWindowsAlt w).1 →
                 r = window.mkWindow (WindowInfo.Title r) (WindowInfo.PID r)
                       (WindowInfo.Process r)).
  { unfold window.getMacOSWindowsAlt.
    destruct (Output w "osascript" _) as [output|e]; simpl;
      [|by intros ?%elem_of_nil].
    intros (line & _ & Hr)%list_elem_of_omap. revert Hr.
    unfold window.macOSWindowAlt.
    case_bool_decide; [done|]. case_bool_decide; [|done].
    destruct (_ && _); [|done]. by intros [= <-]. }
  unfold window.GetOpenWindows. switch_GOOS w.
  - unfold window.getMacOSWindows.
    destruct (Output w "osascript" [_; window.getMacOSWindows_script])
      as [output|e]; simpl; [|by intros ?%elem_of_nil].
    case_bool_decide; [done|]. simpl.
    intros (line & _ & Hr)%list_elem_of_omap. revert Hr.
    unfold window.macOSWindow.
    destruct (_ || _); [done|]. destruct (strings.Contains _ "text"); [done|].
    case_bool_decide; [|done].
    destruct (_ && _); [|done]. by intros [= <-].
  - unfold window.getLinuxWindows.
    destruct (Output w "wmctrl" _) as [output|e]; simpl;
      [|by intros ?%elem_of_nil].
    intros (line & _ & Hr)%list_elem_of_omap. revert Hr.
    unfold window.linuxWindow.
    case_bool_decide; [|done].
    destruct (strconv.ParseInt _ 32) as [pid err]. by intros [= <-].
  - unfold window.getWindowsWindows.
    destruct (Output w "powershell" _) as [output|e]; simpl;
      [|by intros ?%elem_of_nil].
    intros (line & _ & Hr)%list_elem_of_omap. revert Hr.
    unfold window.windowsWindow.
    case_bool_decide; [done|]. case_bool_decide; [|done].
    destruct (strconv.ParseInt _ 32) as [pid [err|]]; [done|].
    by intros [= <-].
  - by intros ?%elem_of_nil.
Qed.

Lemma getLinuxWindows_title r :
  r ∈ (window.getLinuxWindows w).1 → WindowInfo.Title r ≠ "".
Proof.
  unfold window.getLinuxWindows.
  destruct (Output w "wmctrl" _) as [output|e]; simpl;
    [|by intros ?%elem_of_nil].
  intros (line & _ & Hr)%list_elem_of_omap.
  by apply linuxWindow_title in Hr.
Qed.

End window_records.

(** X19.  The fields of a window record.  On every platform the
    application name is the process name and the geometry is blank.  On
    macOS a record has neither a blank title nor a blank process name.  On
    Linux the title is never blank: a record is made of a line with five
    fields or more, and a field is not empty; the process name alone may
    be blank there. *)
Theorem GetOpenWindows_fields (w : World) (r : WindowInfo.t) :
  r ∈ (window.GetOpenWindows w).1 →
  WindowInfo.AppName r = WindowInfo.Process r
  ∧ WindowInfo.Geometry r = ""
  ∧ (GOOS w = "darwin" →
     WindowInfo.Title r ≠ "" ∧ WindowInfo.Process r ≠ "")
  ∧ (GOOS w = "linux" → WindowInfo.Title r ≠ "").
Proof.
  intros Hr. pose proof (GetOpenWindows_mkWindow w r Hr) as Hmk.
  split; [by rewrite Hmk|]. split; [by rewrite Hmk|].
  unfold window.GetOpenWindows in Hr. split.
  - intros Hos. rewrite bool_decide_true in Hr by done.
    by apply getMacOSWindows_nonblank in Hr.
  - intros Hos. rewrite bool_decide_false in Hr by (by rewrite Hos).
    rewrite bool_decide_true in Hr by done.
    by apply getLinuxWindows_title in Hr.
Qed.

(** The fallback of macOS at work: the first script prints its list with
    a comma and a space between the items, no item holds a comma, and the
    window comes from the second script. *)
Example GetOpenWindows_world_osascript :
  window.GetOpenWindows world_osascript
  = ([window.mkWindow "Start Page" 501 "Safari"], None).
Proof. by vm_compute. Qed.

Lemma GetOpenWindows_fields_witness :
  WindowInfo.AppName (window.mkWindow "Start Page" 501 "Safari") = "Safari"
  ∧ WindowInfo.Geometry (window.mkWindow "Start Page" 501 "Safari") = ""
  ∧ (GOOS world_osascript = "darwin" →
     WindowInfo.Title (window.mkWindow "Start Page" 501 "Safari") ≠ ""
     ∧ WindowInfo.Process (window.mkWindow "Start Page" 501 "Safari") ≠ "")
  ∧ (GOOS world_osascript = "linux" →
     WindowInfo.Title (window.mkWindow "Start Page" 501 "Safari") ≠ "").
Proof.
  apply (GetOpenWindows_fields world_osascript).
  rewrite GetOpenWindows_world_osascript. simpl. left.
Defined.

(** X20.  What makes [GetOpenWindows] fail.  The call fails exactly when
    the listing command of the platform cannot be run; on macOS, when the
    first script cannot be run, or when it yields no window and the
    second script cannot be run.  A line that cannot be read is skipped
    and never makes the call fail, and a call that fails returns no
    window. *)
Theorem GetOpenWindows_fatal (w : World) :
  ((window.GetOpenWindows w).2 ≠ None
   ↔ (GOOS w = "darwin"
      ∧ ((∃ e, Output w "osascript" ["-e"; window.getMacOSWindows_script]
               = Err e)
         ∨ (∃ output e,
              Output w "osascript" ["-e"; window.getMacOSWindows_script]
              = Ok output
              ∧ omap (window.macOSWindow w)
                  (strings.Split (strings.TrimSpace output) ", ") = []
              ∧ Output w "osascript" ["-e"; window.getMacOSWindowsAlt_script]
                = Err e)))
     ∨ (GOOS w = "linux" ∧ ∃ e, Output w "wmctrl" ["-lp"] = Err e)
     ∨ (GOOS w = "windows"
        ∧ ∃ e, Output w "powershell"
                 ["-Command"; window.getWindowsWindows_psScript] = Err e))
  ∧ ((window.GetOpenWindows w).2 ≠ None → (window.GetOpenWindows w).1 = []).
Proof.
  unfold window.GetOpenWindows. switch_GOOS w.
  - unfold window.getMacOSWindows.
    destruct (Output w "osascript" [_; window.getMacOSWindows_script])
      as [output|e] eqn:Hout; simpl.
    + case_bool_decide as Hnone.
      * apply length_zero_iff_nil in Hnone.
        unfold window.getMacOSWindowsAlt.
        destruct (Output w "osascript" [_; window.getMacOSWindowsAlt_script])
          as [output'|e'] eqn:Halt; simpl.
        -- split; [|done]. split; [done|].
           intros [[_ [[e ?]|(o & e & _ & _ & ?)]]|[[? _]|[? _]]];
             congruence.
        -- split; [|done]. split; [|done]. intros _. left.
           split; [done|]. right. by exists output, e'.
      * simpl. split; [|done]. split; [done|].
        intros [[_ [[e ?]|(o & e & [= <-] & Hnil & _)]]|[[? _]|[? _]]];
          try congruence.
        rewrite Hnil in Hnone. done.
    + split; [|done]. split; [|done]. intros _. left. split; [done|].
      left. eauto.
  - unfold window.getLinuxWindows.
    destruct (Output w "wmctrl" _) as [output|e]; simpl.
    + split; [|done]. split; [done|].
      intros [[? _]|[[_ [e ?]]|[? _]]]; congruence.
    + split; [|done]. split; [|done]. intros _. right. left. eauto.
  - unfold window.getWindowsWindows.
    destruct (Output w "powershell" _) as [output|e]; simpl.
    + split; [|done]. split; [done|].
      intros [[? _]|[[? _]|[_ [e ?]]]]; congruence.
    + split; [|done]. split; [|done]. intros _. right. right. eauto.
  - simpl. split; [|done]. split; [done|].
    intros [[? _]|[[? _]|[? _]]]; congruence.
Qed.

Lemma GetOpenWindows_fatal_witness :
  (window.GetOpenWindows world_apps).1 = [].
Proof. apply (proj2 (GetOpenWindows_fatal world_apps)). by vm_compute. Defined.

Section macOS_fallback.
Context (w : World).

Lemma has_byte_rev_app b s acc :
  has_byte b (String.rev_app s acc) = has_byte b s || has_byte b acc.
Proof.
  revert acc. induction s as [|c s IH]; intros acc; simpl; [done|].
  rewrite IH. simpl. by destruct (bool_decide (c = b)), (has_byte b s).
Qed.

Lemma has_byte_rev b s : has_byte b (String.rev s) = has_byte b s.
Proof. unfold String.rev. rewrite has_byte_rev_app. simpl. apply orb_false_r. Qed.

Lemma has_byte_TrimLeft b f s :
  has_byte b s = false → has_byte b (strings.TrimLeft f s) = false.
Proof.
  induction s as [|c s IH]; simpl; [done|].
  intros [Hc Hs]%orb_false_iff. destruct (f c); [by apply IH|].
  simpl. by rewrite Hc, Hs.
Qed.

Lemma has_byte_TrimSpace b s :
  has_byte b s = false → has_byte b (strings.TrimSpace s) = false.
Proof.
  intros Hs. unfold strings.TrimSpace, strings.TrimFunc, strings.TrimRight.
  rewrite has_byte_rev. apply has_byte_TrimLeft. rewrite has_byte_rev.
  by apply has_byte_TrimLeft.
Qed.

(** A string without the separator is one piece. *)
Lemma Split_go_one_piece (b : ascii) (s : string) : ∀ cur,
  has_byte b s = false →
  length (strings.Split_go (String b "") 0 cur s) = 1.
Proof.
  induction s as [|c s IH]; intros cur; simpl; [done|].
  intros [Hc Hs]%orb_false_iff. apply bool_decide_eq_false in Hc.
  unfold strings.HasPrefix. simpl.
  destruct (Ascii.ascii_dec b c) as [->|_]; [done|]. by apply IH.
Qed.

(** An item that holds no comma gives no window. *)
Lemma macOSWindow_no_comma item :
  has_byte "," item = false → window.macOSWindow w item = None.
Proof.
  intros Hitem. unfold window.macOSWindow.
  destruct (_ || _); [done|]. destruct (strings.Contains _ "text"); [done|].
  rewrite bool_decide_false; [done|].
  unfold strings.Split.
  rewrite (Split_go_one_piece "," _ "" (has_byte_TrimSpace _ _ Hitem)). lia.
Qed.

Lemma omap_none {A B} (f : A → option B) (l : list A) :
  Forall (λ x, f x = None) l → omap f l = [].
Proof. induction 1 as [|x l Hx _ IH]; simpl; [done|]. by rewrite Hx. Qed.

End macOS_fallback.

(** X21.  The first script of macOS and its parser.  The output of the
    first script is cut at every comma that a space follows, and an item
    gives a window only if it holds a comma itself.  So when no item
    holds a comma, as when [osascript] prints a list of plain names,
    titles and numbers, the first script gives no window and the result,
    the error included, is that of the second script. *)
Theorem getMacOSWindows_fallback (w : World) (output : string) :
  GOOS w = "darwin" →
  Output w "osascript" ["-e"; window.getMacOSWindows_script] = Ok output →
  Forall (λ item, has_byte "," item = false)
    (strings.Split (strings.TrimSpace output) ", ") →
  (∀ item, item ∈ strings.Split (strings.TrimSpace output) ", " →
           window.macOSWindow w item = None)
  ∧ window.GetOpenWindows w = window.getMacOSWindowsAlt w.
Proof.
  intros Hos Hout Hitems.
  assert (Hnone : Forall (λ item, window.macOSWindow w item = None)
                    (strings.Split (strings.TrimSpace output) ", ")).
  { eapply Forall_impl; [exact Hitems|]. apply macOSWindow_no_comma. }
  split.
  - intros item Hin. by eapply Forall_forall in Hnone.
  - unfold window.GetOpenWindows. rewrite bool_decide_true by done.
    unfold window.getMacOSWindows. rewrite Hout.
    rewrite (omap_none _ _ Hnone). done.
Qed.

Lemma getMacOSWindows_fallback_witness :
  window.GetOpenWindows world_osascript
  = window.getMacOSWindowsAlt world_osascript.
Proof.
  apply (getMacOSWindows_fallback world_osascript
           ("Safari, Start Page, 501" +:+ LF)); [done|done|].
  vm_compute. repeat constructor.
Defined.

(* ================================================================== *)
(** * The server *)

Section server.
Context (lib : GoLib) (w : World).
Context (json_Marshal : mcp.Response → result string).

Lemma sendJSON_started v :
  mcp.sendJSON json_Marshal started v
  = json_response 200 (encoded json_Marshal v).
Proof.
  unfold mcp.sendJSON, mcp.Encode, encoded.
  by destruct (json_Marshal v).
Qed.

Lemma sendError_started err :
  mcp.sendError json_Marshal started err
  = json_response 500 (encoded json_Marshal (mcp.ErrorResponse err)).
Proof.
  unfold mcp.sendError, mcp.Encode, encoded.
  by destruct (json_Marshal _).
Qed.

Lemma encoded_length v : (length (encoded json_Marshal v) ≤ 1)%nat.
Proof. unfold encoded. destruct (json_Marshal v); simpl; lia. Qed.

(** The middleware answers a preflight request itself and hands every
    other request on. *)
Lemma corsMiddleware_run (next : mcp.HandlerFunc) r rw' :
  mcp.corsMiddleware next fresh r rw'
  ↔ if bool_decide (http.Method r = "OPTIONS")
    then rw' = preflight_response
    else next handed_on r rw'.
Proof. unfold mcp.corsMiddleware. by case_bool_decide. Qed.

(** The answers of the handlers to a request that is handed on. *)
Lemma handleProcesses_run r rw' :
  mcp.handleProcesses w json_Marshal handed_on r rw'
  ↔ ∃ res, process_pkg.GetUserApplications w res
           ∧ rw' = match res with
                   | (_, Some err) =>
                       json_response 500
                         (encoded json_Marshal (mcp.ErrorResponse err))
                   | (procs, None) =>
                       json_response 200
                         (encoded json_Marshal
                            (mcp.ProcessesResponse procs
                               (Z.of_nat (length procs))))
                   end.
Proof.
  unfold mcp.handleProcesses, bind, ret.
  change (http.Header_Set "Content-Type" "application/json" _) with started.
  split; intros (res & Hres & Hrw); exists res; (split; [done|]);
    destruct res as [procs [err|]];
    by rewrite ?sendError_started, ?sendJSON_started in *.
Qed.

Lemma handleWindows_run r rw' :
  mcp.handleWindows w json_Marshal handed_on r rw'
  ↔ rw' = match window.GetOpenWindows w with
          | (_, Some err) =>
              json_response 500 (encoded json_Marshal (mcp.ErrorResponse err))
          | (windows, None) =>
              json_response 200
                (encoded json_Marshal
                   (mcp.WindowsResponse windows (Z.of_nat (length windows))))
          end.
Proof.
  unfold mcp.handleWindows, ret.
  change (http.Header_Set "Content-Type" "application/json" _) with started.
  destruct (window.GetOpenWindows w) as [windows [err|]];
    by rewrite ?sendError_started, ?sendJSON_started.
Qed.

Lemma handleServices_run r rw' :
  mcp.handleServices lib w json_Marshal handed_on r rw'
  ↔ rw' = match service.GetServices lib w with
          | (_, Some err) =>
              json_response 500 (encoded json_Marshal (mcp.ErrorResponse err))
          | (services, None) =>
              json_response 200
                (encoded json_Marshal
                   (mcp.ServicesResponse services
                      (Z.of_nat (length services))))
          end.
Proof.
  unfold mcp.handleServices, ret.
  change (http.Header_Set "Content-Type" "application/json" _) with started.
  destruct (service.GetServices lib w) as [services [err|]];
    by rewrite ?sendError_started, ?sendJSON_started.
Qed.

Lemma handleHealth_run r rw' :
  mcp.handleHealth handed_on r rw'
  ↔ rw' = json_response 200 [mcp.handleHealth_body].
Proof. done. Qed.

Lemma ports_respond_run (res : list PortInfo.t * option error) rw' :
  match res with
  | (_, Some err) => ret (mcp.sendError json_Marshal started err)
  | (ports, None) =>
      ret (mcp.sendJSON json_Marshal started
             (mcp.PortsResponse ports (Z.of_nat (length ports))))
  end rw'
  ↔ rw' = ports_response json_Marshal res.
Proof.
  unfold ports_response, ret. destruct res as [ports [err|]];
    by rewrite ?sendError_started, ?sendJSON_started.
Qed.

(** A number that [ParseUint] accepts lies within its bit size. *)
Lemma ParseUint_range s bitSize n :
  strconv.ParseUint s bitSize = (n, None) → (n < 2 ^ Z.to_N bitSize)%N.
Proof.
  unfold strconv.ParseUint. destruct s as [|c s]; [done|].
  destruct (strconv.digits 0 (String c s)) as [un|]; [|done].
  destruct (N.leb_spec (2 ^ Z.to_N bitSize) un); [done|].
  by intros [= <-].
Qed.

Lemma ParseUint_uint32 s n :
  strconv.ParseUint s 32 = (n, None) → mcp.uint32 n = n.
Proof.
  intros Hn%ParseUint_range. unfold mcp.uint32. by apply N.mod_small.
Qed.

Lemma handlePorts_run r rw' :
  mcp.handlePorts w json_Marshal handed_on r rw'
  ↔ if bool_decide (http.Query r "port" ≠ "") then
      match strconv.ParseUint (http.Query r "port") 32 with
      | (_, Some parseErr) =>
          rw' = json_response 500
                  (encoded json_Marshal
                     (mcp.ErrorResponse ("invalid port number: " +:+ parseErr)))
      | (portNum, None) =>
          ∃ res, port.GetPortInfoByPort w portNum res
                 ∧ rw' = ports_response json_Marshal res
      end
    else if bool_decide (http.Query r "pid" ≠ "") then
      match strconv.ParseInt (http.Query r "pid") 32 with
      | (_, Some parseErr) =>
          rw' = json_response 500
                  (encoded json_Marshal
                     (mcp.ErrorResponse ("invalid PID: " +:+ parseErr)))
      | (pid, None) =>
          ∃ res, port.GetPortsByPID w pid res
                 ∧ rw' = ports_response json_Marshal res
      end
    else ∃ res, port.GetOpenPorts w res
                ∧ rw' = ports_response json_Marshal res.
Proof.
  unfold mcp.handlePorts.
  change (http.Header_Set "Content-Type" "application/json" _) with started.
  case_bool_decide; [|case_bool_decide].
  - destruct (strconv.ParseUint _ 32) as [portNum [parseErr|]] eqn:Hparse.
    + unfold ret. by rewrite sendError_started.
    + rewrite (ParseUint_uint32 _ _ Hparse). unfold bind.
      by setoid_rewrite ports_respond_run.
  - destruct (strconv.ParseInt _ 32) as [pid [parseErr|]] eqn:Hparse.
    + unfold ret. by rewrite sendError_started.
    + rewrite (ParseInt_int32 _ _ Hparse). unfold bind.
      by setoid_rewrite ports_respond_run.
  - unfold bind. by setoid_rewrite ports_respond_run.
Qed.

Lemma handleResource_run r rw' :
  mcp.handleResource lib w json_Marshal handed_on r rw'
  ↔ rw' =
      if bool_decide (http.Query r "pid" = "") then
        json_response 500
          (encoded json_Marshal (mcp.ErrorResponse "pid parameter is required"))
      else
        match strconv.ParseInt (http.Query r "pid") 32 with
        | (_, Some err) =>
            json_response 500
              (encoded json_Marshal (mcp.ErrorResponse ("invalid PID: " +:+ err)))
        | (pid, None) =>
            match resource.GetProcessResourceUsage lib w pid with
            | (Some usage, None) =>
                json_response 200
                  (encoded json_Marshal (mcp.ResourceResponse usage))
            | (_, Some err) =>
                json_response 500 (encoded json_Marshal (mcp.ErrorResponse err))
            | (None, None) => fresh
            end
        end.
Proof.
  unfold mcp.handleResource.
  change (http.Header_Set "Content-Type" "application/json" _) with started.
  case_bool_decide.
  - unfold ret. by rewrite sendError_started.
  - destruct (strconv.ParseInt _ 32) as [pid [parseErr|]] eqn:Hparse.
    + unfold ret. by rewrite sendError_started.
    + rewrite (ParseInt_int32 _ _ Hparse).
      destruct (GetProcessResourceUsage_shape lib w pid)
        as [[u ->]|[e ->]]; unfold ret;
        by rewrite ?sendError_started, ?sendJSON_started.
Qed.

(** Every handler answers, with the status 200 or 500 and with one
    piece of body at most. *)
Lemma json_response_shape (rw' : http.ResponseWriter) code v :
  (code = 200 ∨ code = 500)%Z →
  rw' = json_response code (encoded json_Marshal v) →
  ∃ code body,
    (code = 200 ∨ code = 500)%Z ∧ (length body ≤ 1)%nat
    ∧ rw' = json_response code body.
Proof.
  intros Hcode ->. exists code, (encoded json_Marshal v).
  split; [done|]. split; [apply encoded_length|done].
Qed.

Lemma ports_response_shape res :
  ∃ code body,
    (code = 200 ∨ code = 500)%Z ∧ (length body ≤ 1)%nat
    ∧ ports_response json_Marshal res = json_response code body.
Proof.
  unfold ports_response. destruct res as [ports [err|]];
    (eapply json_response_shape; [|reflexivity]; first [by left|by right]).
Qed.

Lemma handleProcesses_answers r :
  (∃ rw', mcp.handleProcesses w json_Marshal
            handed_on r rw')
  ∧ (∀ rw', mcp.handleProcesses w json_Marshal
              handed_on r rw' →
            ∃ code body,
              (code = 200 ∨ code = 500)%Z ∧ (length body ≤ 1)%nat
              ∧ rw' = json_response code body).
Proof.
  split.
  - destruct (GetUserApplications_total w) as [res Hres].
    eexists. apply handleProcesses_run. by exists res.
  - intros rw' (res & _ & ->)%handleProcesses_run.
    destruct res as [procs [err|]]; (eapply json_response_shape; [|reflexivity]; first [by left|by right]).
Qed.

Lemma handleWindows_answers r :
  (∃ rw', mcp.handleWindows w json_Marshal
            handed_on r rw')
  ∧ (∀ rw', mcp.handleWindows w json_Marshal
              handed_on r rw' →
            ∃ code body,
              (code = 200 ∨ code = 500)%Z ∧ (length body ≤ 1)%nat
              ∧ rw' = json_response code body).
Proof.
  split.
  - eexists. by apply handleWindows_run.
  - intros rw' ->%handleWindows_run.
    destruct (window.GetOpenWindows w) as [windows [err|]];
      (eapply json_response_shape; [|reflexivity]; first [by left|by right]).
Qed.

Lemma handlePorts_answers r :
  (∃ rw', mcp.handlePorts w json_Marshal
            handed_on r rw')
  ∧ (∀ rw', mcp.handlePorts w json_Marshal
              handed_on r rw' →
            ∃ code body,
              (code = 200 ∨ code = 500)%Z ∧ (length body ≤ 1)%nat
              ∧ rw' = json_response code body).
Proof.
  split.
  - assert (H : ∃ rw',
      if bool_decide (http.Query r "port" ≠ "") then
        match strconv.ParseUint (http.Query r "port") 32 with
        | (_, Some parseErr) =>
            rw' = json_response 500
                    (encoded json_Marshal
                       (mcp.ErrorResponse
                          ("invalid port number: " +:+ parseErr)))
        | (portNum, None) =>
            ∃ res, port.GetPortInfoByPort w portNum res
                   ∧ rw' = ports_response json_Marshal res
        end
      else if bool_decide (http.Query r "pid" ≠ "") then
        match strconv.ParseInt (http.Query r "pid") 32 with
        | (_, Some parseErr) =>
            rw' = json_response 500
                    (encoded json_Marshal
                       (mcp.ErrorResponse ("invalid PID: " +:+ parseErr)))
        | (pid, None) =>
            ∃ res, port.GetPortsByPID w pid res
                   ∧ rw' = ports_response json_Marshal res
        end
      else ∃ res, port.GetOpenPorts w res
                  ∧ rw' = ports_response json_Marshal res).
    { case_bool_decide; [|case_bool_decide].
      - destruct (strconv.ParseUint _ 32) as [portNum [parseErr|]];
          [by eexists|].
        destruct (port_filters_total w portNum 0) as [[res Hres] _].
        eexists. by exists res.
      - destruct (strconv.ParseInt _ 32) as [pid [parseErr|]];
          [by eexists|].
        destruct (port_filters_total w 0 pid) as [_ [res Hres]].
        eexists. by exists res.
      - destruct (GetOpenPorts_total w) as [res Hres].
        eexists. by exists res. }
    destruct H as [rw' H]. exists rw'. by apply handlePorts_run.
  - intros rw' H%handlePorts_run. revert H.
    case_bool_decide; [|case_bool_decide].
    + destruct (strconv.ParseUint _ 32) as [portNum [parseErr|]].
      * intros ->. (eapply json_response_shape; [|reflexivity]; first [by left|by right]).
      * intros (res & _ & ->). apply ports_response_shape.
    + destruct (strconv.ParseInt _ 32) as [pid [parseErr|]].
      * intros ->. (eapply json_response_shape; [|reflexivity]; first [by left|by right]).
      * intros (res & _ & ->). apply ports_response_shape.
    + intros (res & _ & ->). apply ports_response_shape.
Qed.

Lemma handleResource_answers r :
  (∃ rw', mcp.handleResource lib w json_Marshal
            handed_on r rw')
  ∧ (∀ rw', mcp.handleResource lib w json_Marshal
              handed_on r rw' →
            ∃ code body,
              (code = 200 ∨ code = 500)%Z ∧ (length body ≤ 1)%nat
              ∧ rw' = json_response code body).
Proof.
  split.
  - eexists. by apply handleResource_run.
  - intros rw' ->%handleResource_run.
    case_bool_decide; [(eapply json_response_shape; [|reflexivity]; first [by left|by right])|].
    destruct (strconv.ParseInt _ 32) as [pid [parseErr|]];
      [(eapply json_response_shape; [|reflexivity]; first [by left|by right])|].
    destruct (GetProcessResourceUsage_shape lib w pid)
      as [[u ->]|[e ->]]; (eapply json_response_shape; [|reflexivity]; first [by left|by right]).
Qed.

Lemma handleServices_answers r :
  (∃ rw', mcp.handleServices lib w json_Marshal
            handed_on r rw')
  ∧ (∀ rw', mcp.handleServices lib w json_Marshal
              handed_on r rw' →
            ∃ code body,
              (code = 200 ∨ code = 500)%Z ∧ (length body ≤ 1)%nat
              ∧ rw' = json_response code body).
Proof.
  split.
  - eexists. by apply handleServices_run.
  - intros rw' ->%handleServices_run.
    destruct (service.GetServices lib w) as [services [err|]];
      (eapply json_response_shape; [|reflexivity]; first [by left|by right]).
Qed.

Lemma handleHealth_answers r :
  (∃ rw', mcp.handleHealth
            handed_on r rw')
  ∧ (∀ rw', mcp.handleHealth
              handed_on r rw' →
            ∃ code body,
              (code = 200 ∨ code = 500)%Z ∧ (length body ≤ 1)%nat
              ∧ rw' = json_response code body).
Proof.
  split.
  - eexists. by apply handleHealth_run.
  - intros rw' ->%handleHealth_run.
    exists 200%Z, [mcp.handleHealth_body]. split; [by left|]. by split.
Qed.

Lemma corsMiddleware_answers (next : mcp.HandlerFunc) r :
  (∃ rw', next handed_on r rw')
  ∧ (∀ rw', next handed_on r rw' →
            ∃ code body,
              (code = 200 ∨ code = 500)%Z ∧ (length body ≤ 1)%nat
              ∧ rw' = json_response code body) →
  (∃ rw', mcp.corsMiddleware next fresh r rw')
  ∧ (∀ rw', mcp.corsMiddleware next fresh r rw' →
       (http.Method r = "OPTIONS" → rw' = preflight_response)
       ∧ (http.Method r ≠ "OPTIONS" →
          ∃ code body,
            (code = 200 ∨ code = 500)%Z ∧ (length body ≤ 1)%nat
            ∧ rw' = json_response code body)).
Proof.
  intros [[rw0 Hex] Hall]. split.
  - destruct (decide (http.Method r = "OPTIONS")) as [Hm|Hm].
    + exists preflight_response. apply corsMiddleware_run.
      by rewrite bool_decide_true.
    + exists rw0. apply corsMiddleware_run. by rewrite bool_decide_false.
  - intros rw' Hrw%corsMiddleware_run. split; intros Hm.
    + by rewrite bool_decide_true in Hrw.
    + rewrite bool_decide_false in Hrw by done. by apply Hall.
Qed.

End server.

(** X22.  Every route answers every request, and with the headers of
    the cross-origin policy.  A preflight request (method [OPTIONS]) is
    answered by the middleware alone: status 200, no body, no content
    type, and no query of the system.  Any other request is answered with
    the content type [application/json], the status 200 or 500, and one
    piece of body at most. *)
Theorem routes_cors (lib : GoLib) (w : World)
    (json_Marshal : mcp.Response → result string)
    (pattern : string) (h : mcp.HandlerFunc) (r : http.Request) :
  (pattern, h) ∈ mcp.routes lib w json_Marshal →
  (∃ rw', h fresh r rw')
  ∧ (∀ rw', h fresh r rw' →
       http.Header rw' !! "Access-Control-Allow-Origin" = Some "*"
       ∧ http.Header rw' !! "Access-Control-Allow-Methods"
         = Some "GET, OPTIONS"
       ∧ http.Header rw' !! "Access-Control-Allow-Headers"
         = Some "Content-Type"
       ∧ (http.Method r = "OPTIONS" →
          rw' = preflight_response
          ∧ http.Status rw' = Some 200%Z ∧ http.Body rw' = []
          ∧ http.Header rw' !! "Content-Type" = None)
       ∧ (http.Method r ≠ "OPTIONS" →
          http.Header rw' !! "Content-Type" = Some "application/json"
          ∧ ∃ code body,
              (code = 200 ∨ code = 500)%Z ∧ (length body ≤ 1)%nat
              ∧ http.Status rw' = Some code ∧ http.Body rw' = body)).
Proof.
  intros Hroute.
  assert (H : (∃ rw', h fresh r rw')
    ∧ (∀ rw', h fresh r rw' →
         (http.Method r = "OPTIONS" → rw' = preflight_response)
         ∧ (http.Method r ≠ "OPTIONS" →
            ∃ code body,
              (code = 200 ∨ code = 500)%Z ∧ (length body ≤ 1)%nat
              ∧ rw' = json_response code body))).
  { unfold mcp.routes in Hroute.
    repeat (apply elem_of_cons in Hroute as [[= _ ->]|Hroute]);
      [..|by apply elem_of_nil in Hroute];
      apply corsMiddleware_answers.
    - apply handleProcesses_answers.
    - apply handleWindows_answers.
    - apply handlePorts_answers.
    - apply handleResource_answers.
    - apply handleServices_answers.
    - apply handleHealth_answers. }
  destruct H as [Hex Hall]. split; [done|].
  intros rw' Hrw. destruct (Hall rw' Hrw) as [Hopt Hother].
  destruct (decide (http.Method r = "OPTIONS")) as [Hm|Hm].
  - rewrite (Hopt Hm).
    split; [done|]. split; [done|]. split; [done|]. split; [done|].
    by intros ?.
  - destruct (Hother Hm) as (code & body & Hcode & Hlen & ->).
    split; [done|]. split; [done|]. split; [done|]. split; [done|].
    intros _. split; [done|]. by exists code, body.
Qed.

Lemma routes_cors_witness :
  ∃ rw', mcp.corsMiddleware mcp.handleHealth fresh (request "GET" "" "") rw'.
Proof.
  apply (routes_cors lib_example world_8080 marshal_example "/health").
  unfold mcp.routes. do 5 right. left.
Defined.

(** What [ParseUint] takes for a port number: decimal digits alone,
    below 2^32. *)
Example ParseUint_examples :
  strconv.ParseUint "8080" 32 = (8080%N, None)
  ∧ (strconv.ParseUint "" 32).2 ≠ None
  ∧ (strconv.ParseUint "+80" 32).2 ≠ None
  ∧ (strconv.ParseUint "-1" 32).2 ≠ None
  ∧ (strconv.ParseUint "80a" 32).2 ≠ None
  ∧ strconv.ParseUint "4294967295" 32 = (4294967295%N, None)
  ∧ (strconv.ParseUint "4294967296" 32).2 ≠ None.
Proof. repeat split; done. Qed.

(** X23.  The parameters of the ports route.  A [port] parameter that
    is not a decimal number below 2^32 is answered with the status 500
    and a message that starts with [invalid port number: ], whatever the
    [pid] parameter and the system are.  A valid [port] selects
    [GetPortInfoByPort] and the [pid] parameter is not read; without
    [port], a [pid] parameter selects [GetPortsByPID], or is answered
    with the status 500 when it is no 32-bit number; without both the
    answer is that of [GetOpenPorts].  The answer for a result is the
    status 200 with the ports and their number, or the status 500 with
    the error. *)
Theorem handlePorts_parameters (w : World)
    (json_Marshal : mcp.Response → result string)
    (r : http.Request) (rw' : http.ResponseWriter) :
  http.Method r ≠ "OPTIONS" →
  mcp.corsMiddleware (mcp.handlePorts w json_Marshal) fresh r rw' →
  (http.Query r "port" ≠ "" →
   (∀ n e, strconv.ParseUint (http.Query r "port") 32 = (n, Some e) →
      rw' = json_response 500
              (encoded json_Marshal
                 (mcp.ErrorResponse ("invalid port number: " +:+ e))))
   ∧ (∀ n, strconv.ParseUint (http.Query r "port") 32 = (n, None) →
        ∃ res, port.GetPortInfoByPort w n res
               ∧ rw' = ports_response json_Marshal res))
  ∧ (http.Query r "port" = "" → http.Query r "pid" ≠ "" →
     (∀ p e, strconv.ParseInt (http.Query r "pid") 32 = (p, Some e) →
        rw' = json_response 500
                (encoded json_Marshal
                   (mcp.ErrorResponse ("invalid PID: " +:+ e))))
     ∧ (∀ p, strconv.ParseInt (http.Query r "pid") 32 = (p, None) →
          ∃ res, port.GetPortsByPID w p res
                 ∧ rw' = ports_response json_Marshal res))
  ∧ (http.Query r "port" = "" → http.Query r "pid" = "" →
     ∃ res, port.GetOpenPorts w res
            ∧ rw' = ports_response json_Marshal res)
  ∧ (∀ ports err,
       ports_response json_Marshal (ports, Some err)
       = json_response 500 (encoded json_Marshal (mcp.ErrorResponse err))
       ∧ ports_response json_Marshal (ports, None)
         = json_response 200
             (encoded json_Marshal
                (mcp.PortsResponse ports (Z.of_nat (length ports))))).
Proof.
  intros Hm Hrun%corsMiddleware_run.
  rewrite bool_decide_false in Hrun by done.
  apply handlePorts_run in Hrun.
  split; [|split; [|split; [|done]]].
  - intros Hport. rewrite bool_decide_true in Hrun by done.
    split; [intros n e Hparse|intros n Hparse]; by rewrite Hparse in Hrun.
  - intros Hport Hpid. rewrite bool_decide_false in Hrun by (by intros []).
    rewrite bool_decide_true in Hrun by done.
    split; [intros p e Hparse|intros p Hparse]; by rewrite Hparse in Hrun.
  - intros Hport Hpid. rewrite bool_decide_false in Hrun by (by intros []).
    by rewrite bool_decide_false in Hrun by (by intros []).
Qed.

(** A query for the port 8080, and a query with a port that is no
    number. *)
Example handlePorts_8080 :
  mcp.corsMiddleware (mcp.handlePorts world_8080 marshal_example) fresh
    (request "GET" "8080" "")
    (json_response 200 ["ports" +:+ LF])
  ∧ mcp.corsMiddleware (mcp.handlePorts world_8080 marshal_example) fresh
      (request "GET" "http" "77")
      (json_response 500 ["error" +:+ LF]).
Proof.
  split.
  - apply corsMiddleware_run. simpl. apply handlePorts_run. simpl.
    exists ([record_8080], None). split; [apply GetPortInfoByPort_8080|done].
  - apply corsMiddleware_run. simpl. by apply handlePorts_run.
Qed.

Lemma handlePorts_parameters_witness :
  ∃ res, port.GetPortInfoByPort world_8080 8080 res
         ∧ json_response 200 ["ports" +:+ LF]
           = ports_response marshal_example res.
Proof.
  refine (proj2 (proj1 (handlePorts_parameters world_8080 marshal_example
                          (request "GET" "8080" "")
                          (json_response 200 ["ports" +:+ LF]) _ _) _)
            8080%N eq_refl); [done| |done].
  apply handlePorts_8080.
Defined.

(** X24.  The parameter of the resource route.  Without a [pid]
    parameter the answer is the status 500 with the message
    [pid parameter is required]; with one that is no 32-bit number it is
    the status 500 with a message that starts with [invalid PID: ]; in
    both cases no process is sampled.  With a valid [pid] the answer is
    the status 200 with the usage of that process, or the status 500
    with the error of the sample. *)
Theorem handleResource_parameters (lib : GoLib) (w : World)
    (json_Marshal : mcp.Response → result string)
    (r : http.Request) (rw' : http.ResponseWriter) :
  http.Method r ≠ "OPTIONS" →
  mcp.corsMiddleware (mcp.handleResource lib w json_Marshal) fresh r rw' →
  (http.Query r "pid" = "" →
   rw' = json_response 500
           (encoded json_Marshal
              (mcp.ErrorResponse "pid parameter is required")))
  ∧ (http.Query r "pid" ≠ "" →
     (∀ p e, strconv.ParseInt (http.Query r "pid") 32 = (p, Some e) →
        rw' = json_response 500
                (encoded json_Marshal
                   (mcp.ErrorResponse ("invalid PID: " +:+ e))))
     ∧ (∀ p, strconv.ParseInt (http.Query r "pid") 32 = (p, None) →
          (∀ usage,
             resource.GetProcessResourceUsage lib w p = (Some usage, None) →
             rw' = json_response 200
                     (encoded json_Marshal (mcp.ResourceResponse usage)))
          ∧ (∀ e,
               (resource.GetProcessResourceUsage lib w p).2 = Some e →
               rw' = json_response 500
                       (encoded json_Marshal (mcp.ErrorResponse e))))).
Proof.
  intros Hm Hrun%corsMiddleware_run.
  rewrite bool_decide_false in Hrun by done.
  apply handleResource_run in Hrun.
  split.
  - intros Hpid. by rewrite bool_decide_true in Hrun.
  - intros Hpid. rewrite bool_decide_false in Hrun by done.
    split.
    + intros p e Hparse. by rewrite Hparse in Hrun.
    + intros p Hparse. rewrite Hparse in Hrun. split.
      * intros usage Hu. by rewrite Hu in Hrun.
      * intros e He.
        destruct (GetProcessResourceUsage_shape lib w p)
          as [[u Hu]|[e' Hu]]; rewrite Hu in He, Hrun; simpl in He;
          by simplify_eq.
Qed.

Example handleResource_77 :
  mcp.corsMiddleware (mcp.handleResource lib_example world_8080 marshal_example)
    fresh (request "GET" "" "77") (json_response 200 ["usage" +:+ LF])
  ∧ mcp.corsMiddleware (mcp.handleResource lib_example world_8080 marshal_example)
      fresh (request "GET" "" "") (json_response 500 ["error" +:+ LF]).
Proof.
  split; apply corsMiddleware_run; simpl; by apply handleResource_run.
Qed.

Lemma handleResource_parameters_witness :
  json_response 500 ["error" +:+ LF]
  = json_response 500
      (encoded marshal_example (mcp.ErrorResponse "pid parameter is required")).
Proof.
  refine (proj1 (handleResource_parameters lib_example world_8080
                   marshal_example (request "GET" "" "")
                   (json_response 500 ["error" +:+ LF]) _ _) eq_refl);
    [done|].
  apply handleResource_77.
Defined.

(** X25.  The list routes and the health route.  The answers of the
    processes, windows and services routes to a request other than a
    preflight are those of [GetUserApplications], [GetOpenWindows] and
    [GetServices]: the status 200 with the list and its length as the
    count, or the status 500 with the text of the error, and this exactly
    when the call failed.  The health route answers with the status 200
    and the same body whatever the system is. *)
Theorem list_routes (lib : GoLib) (w : World)
    (json_Marshal : mcp.Response → result string)
    (r : http.Request) (rw' : http.ResponseWriter) :
  http.Method r ≠ "OPTIONS" →
  (mcp.corsMiddleware (mcp.handleProcesses w json_Marshal) fresh r rw'
   ↔ ∃ res, process_pkg.GetUserApplications w res
            ∧ rw' = match res with
                    | (_, Some err) =>
                        json_response 500
                          (encoded json_Marshal (mcp.ErrorResponse err))
                    | (procs, None) =>
                        json_response 200
                          (encoded json_Marshal
                             (mcp.ProcessesResponse procs
                                (Z.of_nat (length procs))))
                    end)
  ∧ (mcp.corsMiddleware (mcp.handleWindows w json_Marshal) fresh r rw'
     ↔ rw' = match window.GetOpenWindows w with
             | (_, Some err) =>
                 json_response 500
                   (encoded json_Marshal (mcp.ErrorResponse err))
             | (windows, None) =>
                 json_response 200
                   (encoded json_Marshal
                      (mcp.WindowsResponse windows
                         (Z.of_nat (length windows))))
             end)
  ∧ (mcp.corsMiddleware (mcp.handleServices lib w json_Marshal) fresh r rw'
     ↔ rw' = match service.GetServices lib w with
             | (_, Some err) =>
                 json_response 500
                   (encoded json_Marshal (mcp.ErrorResponse err))
             | (services, None) =>
                 json_response 200
                   (encoded json_Marshal
                      (mcp.ServicesResponse services
                         (Z.of_nat (length services))))
             end)
  ∧ (mcp.corsMiddleware mcp.handleHealth fresh r rw'
     ↔ rw' = json_response 200 [mcp.handleHealth_body]).
Proof.
  intros Hm. rewrite !corsMiddleware_run.
  rewrite !bool_decide_false by done.
  split; [by apply handleProcesses_run|].
  split; [by apply handleWindows_run|].
  split; [by apply handleServices_run|].
  by apply handleHealth_run.
Qed.

Lemma list_routes_witness :
  mcp.corsMiddleware (mcp.handleServices lib_example world_launchctl
                        marshal_example)
    fresh (request "GET" "" "") (json_response 200 ["services" +:+ LF]).
Proof.
  apply (list_routes lib_example world_launchctl marshal_example
           (request "GET" "" "")); [done|].
  by rewrite GetServices_world_launchctl.
Defined.
